(** * TTH Blocker extension: the blocklist cache and its admission hook

    A shallow embedding of the extension's main module (version 1.20.56):
    the identifier validator, the start-up load ([loadBlockedTTHs]), the
    per-source reconciliation ([updateSingleBlocklist]), the remote
    synchronizer ([fetchAndUpdateBlocklist]), the local editor
    ([addToBlocklist]) and the queue admission hook
    ([queueBundleFileAddHook]), followed by the properties C1 to C10; then
    the formatter of blocklist files, the registry of sources
    ([getBlocklistFiles]) and the scheduled update, and the further
    properties X1 to X22 of these and of the functions above.

    Conventions.
    - A JavaScript string is a [string]; the characters the code inspects
      are all ASCII.  The formatter alone inspects every character of a
      text, white space outside ASCII included: it works on the UTF-16 code
      units of the text.
    - A value produced by [JSON.parse] (or a missing property) is a [jsval].
      Numbers are only tested for being zero and compared, so [JNum] holds an
      integer.
    - A JavaScript [Set] is a [gset member] of the primitive values it
      holds, a [Map] keyed by file name is a [gmap string _].
    - A file is known by what a reader makes of its text ([content]); the
      text written by the module itself is known by the value it was
      formatted from.
    - Times ([Date.now()], [mtimeMs]) are integers in one common unit; only
      their equality is observed.
    - Module-level [let] variables are the fields of [Cache]; the file
      system, the notifications posted to the host and the warnings written
      by the validator are the other fields of [World].  Other console
      output is not recorded.
    - A function that can throw runs in the monad [M]: it returns a result or
      an exception message, together with the world it leaves behind. *)

From stdpp Require Import base gmap strings list pretty.
From Stdlib Require Import ZArith Ascii.

Set Warnings "-register-all,-clear-no-such-hyp".

Open Scope Z_scope.

(** ** JavaScript values *)

Inductive jsval : Type :=
  | JUndefined
  | JNull
  | JBool (b : bool)
  | JNum (n : Z)
  | JStr (s : string)
  | JArr (items : list jsval)
  | JObj (fields : list (string * jsval)).

(** ToBoolean. *)
Definition truthy (v : jsval) : bool :=
  match v with
  | JUndefined | JNull => false
  | JBool b => b
  | JNum n => negb (n =? 0)
  | JStr s => negb (String.eqb s "")
  | JArr _ | JObj _ => true
  end.

(** [a || b]. *)
Definition js_or (a b : jsval) : jsval := if truthy a then a else b.

(** The own property [k] of an object, [undefined] when there is none. *)
Fixpoint assoc (k : string) (fields : list (string * jsval)) : jsval :=
  match fields with
  | [] => JUndefined
  | (k', v) :: rest => if String.eqb k k' then v else assoc k rest
  end.

(** Results of operations that may throw; the exception carries
    [err.message]. *)
Inductive res (A : Type) : Type :=
  | Ok (a : A)
  | Throw (msg : string).
Arguments Ok {A} a.
Arguments Throw {A} msg.

(** [v.k]: reading a property of [null] or [undefined] throws a TypeError;
    primitives and arrays have no own property of the names used here. *)
Definition get_prop (v : jsval) (k : string) : res jsval :=
  match v with
  | JUndefined => Throw ("Cannot read properties of undefined (reading '" +:+ k +:+ "')")
  | JNull => Throw ("Cannot read properties of null (reading '" +:+ k +:+ "')")
  | JObj fields => Ok (assoc k fields)
  | _ => Ok JUndefined
  end.

(** [a === b] where [b] comes from a fresh [JSON.parse]: primitives compare
    by value, an array or object is never identical to a freshly parsed
    one. *)
Definition strict_eq (a b : jsval) : bool :=
  match a, b with
  | JUndefined, JUndefined => true
  | JNull, JNull => true
  | JBool x, JBool y => Bool.eqb x y
  | JNum x, JNum y => x =? y
  | JStr x, JStr y => String.eqb x y
  | _, _ => false
  end.

(** What a [Set] holds.  Primitives are members by value.  An array or an
    object is a member by identity, and those that reach a set here come
    fresh from [JSON.parse] or from the host: no later [has] or [add] is
    called with one of them, and only the primitive members are tracked. *)
Inductive member : Type :=
  | MUndefined
  | MNull
  | MBool (b : bool)
  | MNum (n : Z)
  | MStr (s : string).

#[global] Instance member_eq_dec : EqDecision member.
Proof. solve_decision. Defined.

#[global] Instance member_countable : Countable member.
Proof.
  refine (inj_countable'
    (fun m => match m with
              | MUndefined => inl (inl tt)
              | MNull => inl (inr tt)
              | MBool b => inr (inl b)
              | MNum n => inr (inr (inl n))
              | MStr s => inr (inr (inr s))
              end)
    (fun x => match x with
              | inl (inl tt) => MUndefined
              | inl (inr tt) => MNull
              | inr (inl b) => MBool b
              | inr (inr (inl n)) => MNum n
              | inr (inr (inr s)) => MStr s
              end) _).
  by intros [].
Defined.

(** The member a value is, when it is a primitive. *)
Definition as_member (v : jsval) : option member :=
  match v with
  | JUndefined => Some MUndefined
  | JNull => Some MNull
  | JBool b => Some (MBool b)
  | JNum n => Some (MNum n)
  | JStr s => Some (MStr s)
  | JArr _ | JObj _ => None
  end.

(** [Array.isArray(v)]. *)
Definition isArray (v : jsval) : bool :=
  match v with JArr _ => true | _ => false end.

(** [hay.includes(needle)] on strings. *)
Fixpoint includes (hay needle : string) : bool :=
  if String.prefix needle hay then true
  else match hay with
       | EmptyString => false
       | String _ rest => includes rest needle
       end.

(** ** The identifier validator *)

(** The character class [[A-Z2-7]]. *)
Definition tth_class (c : ascii) : bool :=
  let n := N_of_ascii c in
  ((65 <=? n)%N && (n <=? 90)%N) || ((50 <=? n)%N && (n <=? 55)%N).

(** [^C{n}$] against the whole input (no [m] flag: [$] is the end of the
    input). *)
Fixpoint match_exactly (cls : ascii -> bool) (n : nat) (s : string) : bool :=
  match n, s with
  | O, EmptyString => true
  | S n', String c s' => cls c && match_exactly cls n' s'
  | _, _ => false
  end.

(** [/^[A-Z2-7]{39}$/.test(s)] for a string [s]. *)
Definition tthRegex_test (s : string) : bool := match_exactly tth_class 39 s.

(** [RegExp.prototype.test] applies ToString to its argument.  The only
    non-string JSON values whose string form can match are arrays of one
    element whose own string form matches: every other array joins with a
    comma or is empty, and [null], booleans, numbers and objects print
    with characters outside the class or far fewer than 39 characters. *)
Fixpoint tthRegex_test_val (v : jsval) : bool :=
  match v with
  | JStr s => tthRegex_test s
  | JArr [x] => tthRegex_test_val x
  | _ => false
  end.

(** [s.split('').filter(p).join('')]. *)
Fixpoint filter_chars (p : ascii -> bool) (s : string) : string :=
  match s with
  | EmptyString => EmptyString
  | String c s' => if p c then String c (filter_chars p s') else filter_chars p s'
  end.

(** The warning text built for an invalid string. *)
Definition invalid_tth_message (id : string) : string :=
  let invalidChars := filter_chars (fun c => negb (tth_class c)) id in
  "[TTH Block] Invalid TTH: " +:+ id +:+ " (must be 39 characters, base32 A-Z/2-7"
    +:+ (if String.eqb invalidChars "" then "" else ", found invalid characters: " +:+ invalidChars)
    +:+ ")".

(** ToString, as applied by template literals.  A number prints in plain
    decimal, which is what JavaScript does for the integers below 10^21 that
    the model's [JNum] stands for. *)
Fixpoint toString (v : jsval) : string :=
  match v with
  | JUndefined => "undefined"
  | JNull => "null"
  | JBool true => "true"
  | JBool false => "false"
  | JNum n => pretty n
  | JStr s => s
  | JArr items =>
      let elem x := match x with JUndefined | JNull => "" | _ => toString x end in
      (fix join (l : list jsval) : string :=
         match l with
         | [] => ""
         | [x] => elem x
         | x :: rest => elem x +:+ "," +:+ join rest
         end) items
  | JObj _ => "[object Object]"
  end.

(** ** The world the module runs in *)

(** The text of a file, as far as the module can tell texts apart: blank
    text ([data.trim() === '']), text that [JSON.parse] rejects with the
    given message, text that [JSON.parse] turns into [j], and the text
    [formatBlocklistJSON(j)] that the module writes.

    [formatBlocklistJSON] works on the lines of [JSON.stringify(j, null, 2)]:
    inside the [tths] array it joins the lines of an element up to its
    closing brace, collapses every run of white space of the joined line and
    drops what is left over at the end.  Entries that are flat objects whose
    strings hold no run of white space come back as they were; other values
    can come back with altered strings or without some elements, or as text
    that does not parse.  What a reader makes of the formatted text is not
    fixed here: it is the [reparse] of the surroundings. *)
Inductive content : Type :=
  | Blank
  | Unparsable (err : string)
  | Parsed (j : jsval)
  | Formatted (j : jsval).

(** A file: its content and its modification time ([fs.statSync(p).mtimeMs]). *)
Record FileNode := { data : content; mtimeMs : Z }.

(** The [severity] of a notification. *)
Inductive Severity := info | warning | error.

(** A notification posted with [socket.post('events', ...)]. *)
Record Event := { severity : Severity; text : string }.

(** One entry of [blocklistFiles]. *)
Record BlocklistInfo := {
  file : string;
  path : string;
  mtime : Z;
  url : jsval;
  version : jsval;
  updated_at : jsval;
  description : jsval
}.

(** The module-level variables. *)
Record Cache := {
  blockedTTHSet : gset member;
  blocklistFiles : list BlocklistInfo;
  blocklistTTHMap : gmap string (gset member);
  blocklistETags : gmap string string;
  blocklistVersions : gmap string jsval;
  lastUpdateWriteTime : gmap string Z
}.

(** The state the module acts on. *)
Record World := {
  cache : Cache;
  disk : gmap string FileNode;      (* files by path *)
  readonly : gset string;           (* paths whose writes fail *)
  posted : list Event;              (* notifications, oldest first *)
  warnings : list string            (* console.warn lines of isValidTTH *)
}.

(** The parts of a parsed URL that the module reads. *)
Record URLParts := { protocol : string; hostname : string; pathname : string }.

(** What the module takes from its surroundings during one call. *)
Record Env := {
  BLOCKLIST_DIR : string;
  date_now : Z;                          (* Date.now() *)
  iso_now : string;                      (* new Date().toISOString() *)
  write_mtime : Z;                       (* mtimeMs given to a file written now *)
  socket_error : option string;          (* Some msg: awaited posts reject with msg *)
  parse_url : jsval -> option URLParts;  (* new URL(v), None when it throws *)
  format_size : jsval -> Z;              (* byte size of formatBlocklistJSON(v) *)
  reparse : jsval -> res jsval;          (* JSON.parse(formatBlocklistJSON(v)) *)
  socket_get : string -> res jsval       (* socket.get(path) *)
}.

(** Functional updates. *)
Definition with_cache (f : Cache -> Cache) (w : World) : World :=
  {| cache := f (cache w); disk := disk w; readonly := readonly w;
     posted := posted w; warnings := warnings w |}.
Definition with_disk (f : gmap string FileNode -> gmap string FileNode) (w : World) : World :=
  {| cache := cache w; disk := f (disk w); readonly := readonly w;
     posted := posted w; warnings := warnings w |}.
Definition with_posted (f : list Event -> list Event) (w : World) : World :=
  {| cache := cache w; disk := disk w; readonly := readonly w;
     posted := f (posted w); warnings := warnings w |}.
Definition with_warnings (f : list string -> list string) (w : World) : World :=
  {| cache := cache w; disk := disk w; readonly := readonly w;
     posted := posted w; warnings := f (warnings w) |}.

Definition set_blockedTTHSet (f : gset member -> gset member) (c : Cache) : Cache :=
  {| blockedTTHSet := f (blockedTTHSet c); blocklistFiles := blocklistFiles c;
     blocklistTTHMap := blocklistTTHMap c; blocklistETags := blocklistETags c;
     blocklistVersions := blocklistVersions c; lastUpdateWriteTime := lastUpdateWriteTime c |}.
Definition set_blocklistTTHMap (f : gmap string (gset member) -> gmap string (gset member))
    (c : Cache) : Cache :=
  {| blockedTTHSet := blockedTTHSet c; blocklistFiles := blocklistFiles c;
     blocklistTTHMap := f (blocklistTTHMap c); blocklistETags := blocklistETags c;
     blocklistVersions := blocklistVersions c; lastUpdateWriteTime := lastUpdateWriteTime c |}.
Definition set_blocklistETags (f : gmap string string -> gmap string string) (c : Cache) : Cache :=
  {| blockedTTHSet := blockedTTHSet c; blocklistFiles := blocklistFiles c;
     blocklistTTHMap := blocklistTTHMap c; blocklistETags := f (blocklistETags c);
     blocklistVersions := blocklistVersions c; lastUpdateWriteTime := lastUpdateWriteTime c |}.
Definition set_blocklistVersions (f : gmap string jsval -> gmap string jsval) (c : Cache) : Cache :=
  {| blockedTTHSet := blockedTTHSet c; blocklistFiles := blocklistFiles c;
     blocklistTTHMap := blocklistTTHMap c; blocklistETags := blocklistETags c;
     blocklistVersions := f (blocklistVersions c); lastUpdateWriteTime := lastUpdateWriteTime c |}.
Definition set_lastUpdateWriteTime (f : gmap string Z -> gmap string Z) (c : Cache) : Cache :=
  {| blockedTTHSet := blockedTTHSet c; blocklistFiles := blocklistFiles c;
     blocklistTTHMap := blocklistTTHMap c; blocklistETags := blocklistETags c;
     blocklistVersions := blocklistVersions c; lastUpdateWriteTime := f (lastUpdateWriteTime c) |}.

(** ** The monad of effects and exceptions *)

(** A computation: from a world to a value or an exception, and the world
    as it is then.  What was modified before a [throw] stays modified. *)
Definition M (A : Type) : Type := World -> res A * World.

Definition ret {A} (a : A) : M A := fun w => (Ok a, w).
Definition throw {A} (msg : string) : M A := fun w => (Throw msg, w).
(** [m] then [k], unless [m] throws. *)
Definition bind {A B} (m : M A) (k : A -> M B) : M B :=
  fun w => match m w with
           | (Ok a, w') => k a w'
           | (Throw e, w') => (Throw e, w')
           end.
(** [try { body } catch (err) { handler(err.message) }]. *)
Definition try_catch {A} (body : M A) (handler : string -> M A) : M A :=
  fun w => match body w with
           | (Ok a, w') => (Ok a, w')
           | (Throw e, w') => handler e w'
           end.
(** A pure step, a read of the world, an update of the world. *)
Definition lift {A} (r : res A) : M A := fun w => (r, w).
Definition gets {A} (f : World -> A) : M A := fun w => (Ok (f w), w).
Definition modify (f : World -> World) : M unit := fun w => (Ok tt, f w).

Declare Scope js_scope.
Delimit Scope js_scope with js.
Notation "x <- c1 ;; c2" := (bind c1 (fun x => c2))
  (at level 100, c1 at next level, right associativity) : js_scope.
Notation "c1 ;;; c2" := (bind c1 (fun _ => c2))
  (at level 100, right associativity) : js_scope.
Open Scope js_scope.

(** [collection.forEach(f)] for a callback with effects. *)
Fixpoint forEach {A} (f : A -> M unit) (l : list A) : M unit :=
  match l with
  | [] => ret tt
  | x :: rest => f x ;;; forEach f rest
  end.

(** [collection.some(f)]: stops at the first element on which [f] holds. *)
Fixpoint some {A} (f : A -> M bool) (l : list A) : M bool :=
  match l with
  | [] => ret false
  | x :: rest => b <- f x ;; if b then ret true else some f rest
  end.

(** *** Host, console and file system primitives *)

(** [socket.post('events', e)] without [await]: the call is made and a
    rejection, if any, is left to the unhandled-rejection handler. *)
Definition post (e : Event) : M unit := modify (with_posted (fun l => l ++ [e])).

(** [await socket.post('events', e)]: a rejection is thrown at the await. *)
Definition await_post (env : Env) (e : Event) : M unit :=
  post e ;;;
  match socket_error env with
  | None => ret tt
  | Some msg => throw msg
  end.

(** [console.warn(line)]. *)
Definition console_warn (line : string) : M unit :=
  modify (with_warnings (fun l => l ++ [line])).

(** [fs.readFileSync(p, 'utf-8')], [fs.statSync(p)] and [fs.existsSync(p)]. *)
Definition readFileSync (p : string) : M content :=
  fun w => match disk w !! p with
           | Some node => (Ok (data node), w)
           | None => (Throw ("ENOENT: no such file or directory, open '" +:+ p +:+ "'"), w)
           end.

Definition statSync (p : string) : M FileNode :=
  fun w => match disk w !! p with
           | Some node => (Ok node, w)
           | None => (Throw ("ENOENT: no such file or directory, stat '" +:+ p +:+ "'"), w)
           end.

Definition existsSync (p : string) : M bool :=
  gets (fun w => bool_decide (is_Some (disk w !! p))).

(** [fs.writeFileSync(p, formatBlocklistJSON(j), 'utf-8')].  The formatter
    splits the result of [JSON.stringify], which is [undefined] for
    [undefined]. *)
Definition writeFileSync (env : Env) (p : string) (j : jsval) : M unit :=
  match j with
  | JUndefined => throw "Cannot read properties of undefined (reading 'split')"
  | _ =>
      fun w => if bool_decide (p ∈ readonly w)
               then (Throw ("EACCES: permission denied, open '" +:+ p +:+ "'"), w)
               else (Ok tt, with_disk <[p := {| data := Formatted j;
                                                mtimeMs := write_mtime env |}]> w)
  end.

(** What [JSON.parse] makes of a text. *)
Definition parsed (env : Env) (c : content) : res jsval :=
  match c with
  | Parsed j => Ok j
  | Unparsable err => Throw err
  | Blank => Throw "Unexpected end of JSON input"
  | Formatted j => reparse env j
  end.

(** [JSON.parse(data)]. *)
Definition JSON_parse (env : Env) (c : content) : M jsval := lift (parsed env c).

(** *** Paths

    [path.join] and [path.basename] as they act on the absolute, normalised
    directory and the plain file names the module hands them. *)

Definition path_join (dir name : string) : string := dir +:+ "/" +:+ name.

Fixpoint has_slash (s : string) : bool :=
  match s with
  | EmptyString => false
  | String c rest => Ascii.eqb c "/" || has_slash rest
  end.

Fixpoint path_basename (p : string) : string :=
  match p with
  | EmptyString => EmptyString
  | String _ rest => if has_slash p then path_basename rest else p
  end.

(** [path.basename(p, ext)]. *)
Definition path_basename_ext (p ext : string) : string :=
  let base := path_basename p in
  let n := (String.length base - String.length ext)%nat in
  if String.eqb (String.substring n (String.length ext) base) ext
     && negb (String.eqb base ext)
  then String.substring 0 n base
  else base.

Definition INTERNAL_BLOCKLIST_FILE (env : Env) : string :=
  path_join (BLOCKLIST_DIR env) "internal_blocklist.json".

(** [path.basename(INTERNAL_BLOCKLIST_FILE)]. *)
Definition INTERNAL_BLOCKLIST_NAME : string := "internal_blocklist.json".

(** ** Validation of identifiers, URLs and source files *)

(** [isValidTTH(id)].  When the pattern does not match, the diagnostic calls
    [id.split('')], which only strings have. *)
Definition isValidTTH (id : jsval) : M bool :=
  if negb (tthRegex_test_val id) then
    match id with
    | JStr s => console_warn (invalid_tth_message s) ;;; ret false
    | JUndefined => throw "Cannot read properties of undefined (reading 'split')"
    | JNull => throw "Cannot read properties of null (reading 'split')"
    | _ => throw "id.split is not a function"
    end
  else ret true.

(** [isValidBlocklistURL(url)]. *)
Definition isValidBlocklistURL (env : Env) (u : jsval) : bool :=
  if strict_eq u (JStr "Internal") then true
  else match parse_url env u with
       | Some parsed =>
           let isValidProtocol :=
             String.eqb (protocol parsed) "https:" || String.eqb (protocol parsed) "http:" in
           let isRawURL :=
             includes (hostname parsed) "raw.githubusercontent.com"
             || includes (pathname parsed) "/raw/" in
           isValidProtocol && isRawURL
       | None => false
       end.

(** The callback [item => item.tth && isValidTTH(item.tth)], as a
    condition. *)
Definition item_has_valid_tth (item : jsval) : M bool :=
  tth <- lift (get_prop item "tth") ;;
  if truthy tth then isValidTTH tth else ret false.

(** What [validateBlocklistFile] returns. *)
Record Validation := {
  valid : bool;
  v_url : jsval;
  v_version : jsval;
  v_updated_at : jsval;
  v_description : jsval
}.

(** The default content written over an empty or unreadable file. *)
Definition defaultBlocklist (env : Env) (filePath : string) : jsval :=
  let internal := String.eqb filePath (INTERNAL_BLOCKLIST_FILE env) in
  JObj [ ("url", if internal then JStr "Internal" else JNull);
         ("version", JStr (if internal then "Internal" else "1.0.0"));
         ("updated_at", JStr (iso_now env));
         ("description",
           JStr (if internal then "Internal" else path_basename_ext filePath ".json"));
         ("tths", JArr []) ].

(** [{ valid: true, url: d.url, version: d.version, updated_at: d.updated_at,
    description: d.description }] for the default content [d]. *)
Definition validation_of_default (d : jsval) : Validation :=
  let field k := match get_prop d k with Ok v => v | Throw _ => JUndefined end in
  {| valid := true; v_url := field "url"; v_version := field "version";
     v_updated_at := field "updated_at"; v_description := field "description" |}.

(** The elements visited by an array method [v.method(...)]; anything but
    an array has no such method. *)
Definition array_items (v : jsval) (method : string) : res (list jsval) :=
  match v with
  | JArr items => Ok items
  | JUndefined => Throw ("Cannot read properties of undefined (reading '" +:+ method +:+ "')")
  | JNull => Throw ("Cannot read properties of null (reading '" +:+ method +:+ "')")
  | _ => Throw ("tths." +:+ method +:+ " is not a function")
  end.

(** [validateBlocklistFile(filePath, socket)]. *)
Definition validateBlocklistFile (env : Env) (filePath : string) : M Validation :=
  try_catch
    (data <- readFileSync filePath ;;
     match data with
     | Blank =>
         let d := defaultBlocklist env filePath in
         writeFileSync env filePath d ;;;
         post {| severity := info;
                 text := "Blocklist " +:+ path_basename filePath
                         +:+ " was empty and has been initialized" |} ;;;
         ret (validation_of_default d)
     | _ =>
         blocklist <- JSON_parse env data ;;
         u <- lift (get_prop blocklist "url") ;;
         ver <- lift (get_prop blocklist "version") ;;
         upd <- lift (get_prop blocklist "updated_at") ;;
         descr <- lift (get_prop blocklist "description") ;;
         if negb (truthy u) || strict_eq u JNull || negb (isValidBlocklistURL env u) then
           ret {| valid := true; v_url := JNull;
                  v_version := js_or ver (JStr "1.0.0");
                  v_updated_at := js_or upd (JStr (iso_now env));
                  v_description := js_or descr (JStr (path_basename_ext filePath ".json")) |}
         else
           tths <- lift (get_prop blocklist "tths") ;;
           if negb (isArray tths) then
             post {| severity := error;
                     text := "Invalid format in blocklist " +:+ path_basename filePath
                             +:+ ": 'tths' is not an array" |} ;;;
             ret {| valid := false; v_url := u;
                    v_version := js_or ver (JStr "1.0.0");
                    v_updated_at := js_or upd (JStr (iso_now env));
                    v_description := js_or descr (JStr "") |}
           else
             items <- lift (array_items tths "some") ;;
             hasValidTTH <- some item_has_valid_tth items ;;
             if negb hasValidTTH && (0 <? Z.of_nat (length items)) then
               post {| severity := error;
                       text := "No valid TTHs found in blocklist "
                               +:+ path_basename filePath |} ;;;
               ret {| valid := false; v_url := u;
                      v_version := js_or ver (JStr "1.0.0");
                      v_updated_at := js_or upd (JStr (iso_now env));
                      v_description := js_or descr (JStr "") |}
             else
               ret {| valid := true; v_url := u;
                      v_version := js_or ver (JStr "1.0.0");
                      v_updated_at := js_or upd (JStr (iso_now env));
                      v_description := js_or descr (JStr (path_basename_ext filePath ".json")) |}
     end)
    (fun err =>
       post {| severity := error;
               text := "Failed to validate blocklist " +:+ path_basename filePath +:+ ": "
                       +:+ err +:+ ". Resetting to default" |} ;;;
       let d := defaultBlocklist env filePath in
       try_catch
         (writeFileSync env filePath d ;;;
          ret (validation_of_default d))
         (fun writeErr =>
            post {| severity := error;
                    text := "Failed to reset blocklist " +:+ path_basename filePath +:+ ": "
                            +:+ writeErr |} ;;;
            ret {| valid := false; v_url := JNull; v_version := JStr "1.0.0";
                   v_updated_at := JStr (iso_now env); v_description := JStr "" |})).

(** ** Settings *)

(** The settings object handed to the module: absent (or lacking a
    [getValue] function), or a manager whose [getValue] returns a value or
    throws for an unknown key. *)
Inductive Settings : Type :=
  | SettingsInvalid
  | SettingsManager (getValue : string -> res jsval).

(** [!settings || typeof settings.getValue !== 'function']. *)
Definition settings_invalid (settings : Settings) : bool :=
  match settings with SettingsInvalid => true | SettingsManager _ => false end.

(** [settings.getValue(key)]. *)
Definition settings_getValue (settings : Settings) (key : string) : res jsval :=
  match settings with
  | SettingsInvalid => Throw "settings.getValue is not a function"
  | SettingsManager getValue => getValue key
  end.

(** ** The membership cache *)

(** [set.add(v)]. *)
Definition set_add (v : jsval) (s : gset member) : gset member :=
  match as_member v with
  | Some m => {[m]} ∪ s
  | None => s
  end.

(** [new Set(); tths.forEach(item => { if (item.tth && isValidTTH(item.tth))
    { blockedTTHSet.add(item.tth); tthSet.add(item.tth); } })], started from
    the local [tthSet]; returns the local set. *)
Fixpoint load_tths (items : list jsval) (tthSet : gset member) : M (gset member) :=
  match items with
  | [] => ret tthSet
  | item :: rest =>
      ok <- item_has_valid_tth item ;;
      if ok then
        tth <- lift (get_prop item "tth") ;;
        modify (with_cache (set_blockedTTHSet (set_add tth))) ;;;
        load_tths rest (set_add tth tthSet)
      else load_tths rest tthSet
  end.

(** [blocklistData.version || blocklistData.updated_at || null]. *)
Definition version_token (blocklistData : jsval) : res jsval :=
  match get_prop blocklistData "version", get_prop blocklistData "updated_at" with
  | Ok ver, Ok upd => Ok (js_or (js_or ver upd) JNull)
  | Throw e, _ | _, Throw e => Throw e
  end.

(** The settings key of a source. *)
Definition settingKey_of (filename : string) : string :=
  if String.eqb filename INTERNAL_BLOCKLIST_NAME then "internal_block_list"
  else "blocklist_" +:+ filename.

(** [try { v = settings.getValue(key) } catch (err) { v = true }]. *)
Definition settingValue_or_enabled (settings : Settings) (key : string) : M jsval :=
  try_catch (lift (settings_getValue settings key)) (fun _ => ret (JBool true)).

(** The second half of [updateSingleBlocklist], entered once the
    modification time has been recorded: the identifiers attributed to
    [filename] are unloaded, and the file is loaded again when the source is
    enabled and valid. *)
Definition reload_source (env : Env) (settings : Settings) (filename filePath : string)
    : M bool :=
  oldTTHs <- gets (fun w => default ∅ (blocklistTTHMap (cache w) !! filename)) ;;
  modify (with_cache (set_blockedTTHSet (fun s => s ∖ oldTTHs))) ;;;
  modify (with_cache (set_blocklistTTHMap (delete filename))) ;;;
  settingValue <- settingValue_or_enabled settings (settingKey_of filename) ;;
  if truthy settingValue then
    v <- validateBlocklistFile env filePath ;;
    if valid v then
      try_catch
        (data <- readFileSync filePath ;;
         blocklistData <- JSON_parse env data ;;
         tths <- lift (get_prop blocklistData "tths") ;;
         items <- lift (array_items tths "forEach") ;;
         tthSet <- load_tths items ∅ ;;
         modify (with_cache (set_blocklistTTHMap <[filename := tthSet]>)) ;;;
         token <- lift (version_token blocklistData) ;;
         modify (with_cache (set_blocklistVersions <[filename := token]>)) ;;;
         ret true)
        (fun err =>
           post {| severity := error;
                   text := "Failed to reload blocklist " +:+ filename +:+ ": " +:+ err |} ;;;
           ret false)
    else ret false
  else ret false.

(** [updateSingleBlocklist(socket, settings, filename)].  The function is
    declared [async] but never awaits: it runs to completion in one step,
    and an exception it lets through rejects its promise. *)
Definition updateSingleBlocklist (env : Env) (settings : Settings) (filename : string)
    : M bool :=
  files <- gets (fun w => blocklistFiles (cache w)) ;;
  match List.find (fun b => String.eqb (file b) filename) files with
  | None => ret false
  | Some blocklist =>
      let filePath := path blocklist in
      stats <- statSync filePath ;;
      last <- gets (fun w => lastUpdateWriteTime (cache w) !! filename) ;;
      if bool_decide (last = Some (mtimeMs stats)) then ret false
      else
        modify (with_cache (set_lastUpdateWriteTime <[filename := mtimeMs stats]>)) ;;;
        reload_source env settings filename filePath
  end.

(** The default content written for the internal blocklist by
    [loadBlockedTTHs] and [addToBlocklist]. *)
Definition internalDefault (env : Env) : jsval :=
  JObj [ ("url", JStr "Internal"); ("version", JStr "Internal");
         ("updated_at", JStr (iso_now env)); ("description", JStr "Internal");
         ("tths", JArr []) ].

(** The part of [loadBlockedTTHs] that loads the internal blocklist. *)
Definition load_internal (env : Env) : M unit :=
  let internal := INTERNAL_BLOCKLIST_FILE env in
  try_catch
    (present <- existsSync internal ;;
     if present then
       data <- readFileSync internal ;;
       match data with
       | Blank =>
           writeFileSync env internal (internalDefault env) ;;;
           post {| severity := info;
                   text := "Internal blocklist was empty and has been initialized" |}
       | _ =>
           blocklist <- JSON_parse env data ;;
           u <- lift (get_prop blocklist "url") ;;
           tths <- lift (get_prop blocklist "tths") ;;
           if strict_eq u (JStr "Internal") && isArray tths then
             items <- lift (array_items tths "forEach") ;;
             tthSet <- load_tths items ∅ ;;
             modify (with_cache (set_blocklistTTHMap <[INTERNAL_BLOCKLIST_NAME := tthSet]>)) ;;;
             token <- lift (version_token blocklist) ;;
             modify (with_cache (set_blocklistVersions <[INTERNAL_BLOCKLIST_NAME := token]>))
           else
             writeFileSync env internal (internalDefault env) ;;;
             post {| severity := error;
                     text := "Invalid format in internal blocklist, reset to default" |}
       end
     else
       writeFileSync env internal (internalDefault env) ;;;
       post {| severity := info; text := "Internal blocklist not found, created default" |})
    (fun err =>
       post {| severity := error; text := "Failed to load internal blocklist: " +:+ err |}).

(** The callback that [loadBlockedTTHs] runs on every entry of
    [blocklistFiles]. *)
Definition load_one (env : Env) (settings : Settings) (blocklist : BlocklistInfo) : M unit :=
  if String.eqb (file blocklist) INTERNAL_BLOCKLIST_NAME then ret tt
  else
    settingValue <- settingValue_or_enabled settings ("blocklist_" +:+ file blocklist) ;;
    if truthy settingValue then
      try_catch
        (data <- readFileSync (path blocklist) ;;
         match data with
         | Blank => ret tt
         | _ =>
             blocklistData <- JSON_parse env data ;;
             tths <- lift (get_prop blocklistData "tths") ;;
             if isArray tths then
               items <- lift (array_items tths "forEach") ;;
               tthSet <- load_tths items ∅ ;;
               modify (with_cache (set_blocklistTTHMap <[file blocklist := tthSet]>)) ;;;
               token <- lift (version_token blocklistData) ;;
               modify (with_cache (set_blocklistVersions <[file blocklist := token]>))
             else
               post {| severity := error;
                       text := "Invalid format in blocklist " +:+ file blocklist
                               +:+ ": 'tths' is not an array" |}
         end)
        (fun err =>
           post {| severity := error;
                   text := "Failed to load blocklist " +:+ file blocklist +:+ ": " +:+ err |})
    else ret tt.

(** [loadBlockedTTHs(socket, settings)]. *)
Definition loadBlockedTTHs (env : Env) (settings : Settings) : M unit :=
  if settings_invalid settings then
    post {| severity := error; text := "Settings object is invalid, skipping blocklist load" |}
  else
    modify (with_cache (set_blockedTTHSet (fun _ => ∅))) ;;;
    modify (with_cache (set_blocklistTTHMap (fun _ => ∅))) ;;;
    modify (with_cache (set_blocklistVersions (fun _ => ∅))) ;;;
    internalOn <- lift (settings_getValue settings "internal_block_list") ;;
    (if truthy internalOn then load_internal env else ret tt) ;;;
    files <- gets (fun w => blocklistFiles (cache w)) ;;
    forEach (load_one env settings) files.

(** ** The remote synchronizer *)

(** The outcome of [await fetch(url, { headers })]: a rejection (network
    failure) or a response, of which the code reads the status line, two
    headers and the body text. *)
Record Response := {
  status : Z;
  statusText : string;
  content_type : option string;   (* response.headers.get('content-type') *)
  etag_header : option string;    (* response.headers.get('ETag') *)
  body : content                  (* await response.text(), as JSON.parse sees it *)
}.

Inductive FetchResult : Type :=
  | NetworkError (msg : string)
  | Responded (r : Response).

(** The remote end: what the n-th attempt is answered, given the
    [If-None-Match] header that was sent (if any). *)
Definition Remote : Type := nat -> option string -> FetchResult.

(** [response.ok]. *)
Definition response_ok (r : Response) : bool := (200 <=? status r) && (status r <=? 299).

(** [value || ''] for a header. *)
Definition header_or_empty (h : option string) : string := default "" h.

(** The body of the [try] block of one attempt. *)
Definition fetch_attempt (env : Env) (blocklist : BlocklistInfo) (remote : Remote)
    (attempt : nat) : M bool :=
  etag <- gets (fun w => blocklistETags (cache w) !! file blocklist) ;;
  match remote attempt etag with
  | NetworkError msg => throw msg
  | Responded response =>
      if status response =? 304 then ret false
      else if negb (response_ok response) then
        throw ("HTTP " +:+ pretty (status response) +:+ ": " +:+ statusText response)
      else
        let contentType := header_or_empty (content_type response) in
        if negb (includes contentType "application/json")
           && negb (includes contentType "text/plain") then
          throw ("Invalid content type: " +:+ contentType
                 +:+ ", expected application/json or text/plain")
        else
          data <- try_catch (JSON_parse env (body response))
                            (fun err => throw ("Invalid JSON: " +:+ err)) ;;
          tths <- lift (get_prop data "tths") ;;
          if negb (isArray tths) then throw "Invalid JSON format: tths not an array"
          else
            newVersion <- lift (version_token data) ;;
            oldVersion <- gets (fun w =>
                            default JUndefined (blocklistVersions (cache w) !! file blocklist)) ;;
            if truthy newVersion && strict_eq oldVersion newVersion then ret false
            else
              let etag := header_or_empty (etag_header response) in
              modify (with_cache (set_blocklistETags <[file blocklist := etag]>)) ;;;
              modify (with_cache (set_blocklistVersions <[file blocklist := newVersion]>)) ;;;
              modify (with_cache (set_lastUpdateWriteTime <[file blocklist := date_now env]>)) ;;;
              writeFileSync env (path blocklist) data ;;;
              _stats <- statSync (path blocklist) ;;
              items <- lift (array_items tths "length") ;;
              await_post env
                {| severity := info;
                   text := "Updated blocklist " +:+ file blocklist +:+ " from "
                           +:+ toString (url blocklist) +:+ " with "
                           +:+ pretty (Z.of_nat (length items)) +:+ " TTH(s) (version: "
                           +:+ toString (js_or newVersion (JStr "none")) +:+ ", size: "
                           +:+ pretty (format_size env data) +:+ " bytes)" |} ;;;
              ret true
  end.

(** The [for (attempt = 1; attempt <= retries; attempt++)] loop, with
    [remaining = retries - attempt + 1] iterations left.  [None] is the
    [undefined] returned when the loop ends without a [return]. *)
Fixpoint fetch_loop (env : Env) (blocklist : BlocklistInfo) (remote : Remote)
    (retries remaining : nat) : M (option bool) :=
  match remaining with
  | O => ret None
  | S remaining' =>
      let attempt := (retries - remaining')%nat in
      try_catch
        (updated <- fetch_attempt env blocklist remote attempt ;; ret (Some updated))
        (fun err =>
           if (attempt <? retries)%nat && negb (includes err "HTTP 304") then
             fetch_loop env blocklist remote retries remaining'
           else
             await_post env
               {| severity := error;
                  text := "Failed to update blocklist " +:+ file blocklist +:+ ": " +:+ err |} ;;;
             ret (Some false))
  end.

(** [fetchAndUpdateBlocklist(socket, settings, blocklist, retries)]; the
    delay between attempts is not observable here. *)
Definition fetchAndUpdateBlocklist (env : Env) (blocklist : BlocklistInfo) (remote : Remote)
    (retries : nat) : M (option bool) :=
  if strict_eq (url blocklist) (JStr "Internal") then ret (Some false)
  else if negb (isValidBlocklistURL env (url blocklist)) then
    await_post env
      {| severity := error;
         text := "Invalid URL for blocklist " +:+ file blocklist +:+ ": "
                 +:+ toString (url blocklist) |} ;;;
    ret (Some false)
  else fetch_loop env blocklist remote retries retries.

(** The default number of attempts. *)
Definition default_retries : nat := 3.

(** ** The admission hook *)

Inductive Decision : Type :=
  | Accept
  | Reject (id message : string).

(** [set.has(v)]. *)
Definition set_has (v : jsval) (s : gset member) : bool :=
  match as_member v with
  | Some m => bool_decide (m ∈ s)
  | None => false
  end.

(** The [try] block of [queueBundleFileAddHook]. *)
Definition queueBundleFileAddHook_try (env : Env) (settings : Settings) (data : jsval)
    : M Decision :=
  file_data <- lift (get_prop data "file_data") ;;
  let fileData := js_or file_data (JObj []) in
  name <- lift (get_prop fileData "name") ;;
  tth <- lift (get_prop fileData "tth") ;;
  if settings_invalid settings then ret Accept
  else
    blocked <- gets (fun w => set_has tth (blockedTTHSet (cache w))) ;;
    if truthy tth && blocked then
      await_post env
        {| severity := warning;
           text := "Blocked download for file '" +:+ toString (js_or name (JStr "unknown"))
                   +:+ "' (TTH: " +:+ toString tth +:+ ")" |} ;;;
      ret (Reject "blocked_tth" "Download skipped: TTH is blocked by extension")
    else ret Accept.

(** [queueBundleFileAddHook(data, accept, reject)]: the decision handed to
    the host through [accept()] or [reject(id, message)]. *)
Definition queueBundleFileAddHook (env : Env) (settings : Settings) (data : jsval)
    : M Decision :=
  try_catch (queueBundleFileAddHook_try env settings data) (fun _ => ret Accept).

(** ** The local editor *)

(** [results.find(r => r.id === resultId)]. *)
Fixpoint find_by_id (results : list jsval) (resultId : jsval) : res jsval :=
  match results with
  | [] => Ok JUndefined
  | r :: rest =>
      match get_prop r "id" with
      | Throw e => Throw e
      | Ok id => if strict_eq id resultId then Ok r else find_by_id rest resultId
      end
  end.

(** [addTTHFromSearch(socket, entityId, resultId)]. *)
Definition addTTHFromSearch (env : Env) (entityId resultId : jsval) : M jsval :=
  direct <- isValidTTH resultId ;;
  if direct then ret resultId
  else
    found <- try_catch
               (results <- lift (socket_get env ("search/instances/" +:+ toString entityId
                                                 +:+ "/results")) ;;
                items <- lift (array_items results "find") ;;
                result <- lift (find_by_id items resultId) ;;
                if truthy result then
                  type <- lift (get_prop result "type") ;;
                  tth <- lift (get_prop result "tth") ;;
                  if strict_eq type (JStr "file") && truthy tth then ret (Some tth)
                  else ret None
                else ret None)
               (fun _ => ret None) ;;
    ret (default JNull found).

(** [addTTHFromFilelist(socket, entityId, itemId)]. *)
Definition addTTHFromFilelist (env : Env) (entityId itemId : jsval) : M jsval :=
  filelistPath <-
    try_catch
      (filelistSession <- lift (socket_get env ("filelists/" +:+ toString entityId)) ;;
       location <- lift (get_prop filelistSession "location") ;;
       p <- (match location with
             | JUndefined | JNull => ret JUndefined
             | _ => lift (get_prop location "path")
             end) ;;
       ret (js_or p (JStr "unknown")))
      (fun _ => ret (JStr "unknown")) ;;
  try_catch
    (item <- lift (socket_get env ("filelists/" +:+ toString entityId +:+ "/items/"
                                   +:+ toString itemId)) ;;
     itemPath <- lift (get_prop item "path") ;;
     type <- lift (get_prop item "type") ;;
     typeId <- (if truthy item && truthy type then lift (get_prop type "id")
                else ret JUndefined) ;;
     tth <- lift (get_prop item "tth") ;;
     if truthy item && truthy type && strict_eq typeId (JStr "directory") then
       await_post env
         {| severity := warning;
            text := "Cannot add TTH for item " +:+ toString itemId +:+ " in filelist "
                    +:+ toString entityId +:+ " (path: "
                    +:+ toString (js_or itemPath filelistPath)
                    +:+ "): selected item is a directory" |} ;;;
       ret JNull
     else if truthy item && truthy type && strict_eq typeId (JStr "file") && truthy tth then
       ret tth
     else ret JUndefined)
    (fun _ =>
       await_post env
         {| severity := warning;
            text := "Failed to add TTH for item " +:+ toString itemId +:+ " in filelist "
                    +:+ toString entityId +:+ " (path: " +:+ toString filelistPath
                    +:+ "). Ensure you have navigated into the directory containing the file and it is fully loaded in the AirDC++ UI" |} ;;;
       ret JNull).

(** The entry pushed on [addedTTHs]. *)
Definition new_entry (env : Env) (tth : jsval) : jsval :=
  JObj [ ("tth", tth); ("comment", JStr ""); ("timestamp", JStr (iso_now env)) ].

(** The [for (const id of selectedIds)] loop of [addToBlocklist], with the
    local list [addedTTHs]. *)
Fixpoint resolve_selected (env : Env) (menuType : string) (entityId : jsval)
    (selectedIds : list jsval) (addedTTHs : list jsval) : M (list jsval) :=
  match selectedIds with
  | [] => ret addedTTHs
  | id :: rest =>
      tth <- (if String.eqb menuType "grouped_search_result" then
                addTTHFromSearch env entityId id
              else if String.eqb menuType "filelist_item" then
                addTTHFromFilelist env entityId id
              else ret JNull) ;;
      known <- gets (fun w => set_has tth (blockedTTHSet (cache w))) ;;
      if truthy tth && negb known then
        modify (with_cache (set_blockedTTHSet (set_add tth))) ;;;
        tthSet <- gets (fun w =>
                    default ∅ (blocklistTTHMap (cache w) !! INTERNAL_BLOCKLIST_NAME)) ;;
        modify (with_cache
                  (set_blocklistTTHMap <[INTERNAL_BLOCKLIST_NAME := set_add tth tthSet]>)) ;;;
        resolve_selected env menuType entityId rest (addedTTHs ++ [new_entry env tth])
      else resolve_selected env menuType entityId rest addedTTHs
  end.

(** [obj.k = v] on an object: an existing property keeps its place, a new
    one goes last. *)
Fixpoint set_assoc (k : string) (v : jsval) (fields : list (string * jsval))
    : list (string * jsval) :=
  match fields with
  | [] => [(k, v)]
  | (k', v') :: rest =>
      if String.eqb k k' then (k, v) :: rest else (k', v') :: set_assoc k v rest
  end.

(** The value written back by [addToBlocklist] for the parsed content
    [blocklist]: [tths] reset to an empty array when it is not one, the new
    entries pushed, [updated_at] refreshed.  Named properties set on an array
    are not serialised; a primitive takes no property (strict mode). *)
Definition with_new_entries (env : Env) (blocklist : jsval) (addedTTHs : list jsval)
    : res jsval :=
  match blocklist with
  | JObj fields =>
      let old := match assoc "tths" fields with JArr items => items | _ => [] end in
      Ok (JObj (set_assoc "updated_at" (JStr (iso_now env))
                  (set_assoc "tths" (JArr (old ++ addedTTHs)) fields)))
  | JArr items => Ok (JArr items)
  | JUndefined => Throw "Cannot read properties of undefined (reading 'tths')"
  | JNull => Throw "Cannot read properties of null (reading 'tths')"
  | _ => Throw "Cannot create property 'tths'"
  end.

(** [items.map(item => item.tth).join(', ')] over the new entries. *)
Fixpoint join_tths (entries : list jsval) : string :=
  let show e := match e with
                | JObj fields =>
                    match assoc "tth" fields with
                    | JUndefined | JNull => ""
                    | v => toString v
                    end
                | _ => ""
                end in
  match entries with
  | [] => ""
  | [e] => show e
  | e :: rest => show e +:+ ", " +:+ join_tths rest
  end.

(** The [try] block of [addToBlocklist] that writes the new entries to the
    internal blocklist. *)
Definition write_entries (env : Env) (addedTTHs : list jsval) : M unit :=
  let internal := INTERNAL_BLOCKLIST_FILE env in
  present <- existsSync internal ;;
  blocklist <- (if present then
                  data <- readFileSync internal ;;
                  match data with
                  | Blank => ret (internalDefault env)
                  | _ => JSON_parse env data
                  end
                else ret (internalDefault env)) ;;
  updated <- lift (with_new_entries env blocklist addedTTHs) ;;
  writeFileSync env internal updated ;;;
  modify (with_cache
            (set_lastUpdateWriteTime <[INTERNAL_BLOCKLIST_NAME := date_now env]>)) ;;;
  await_post env
    {| severity := info;
       text := "Added " +:+ pretty (Z.of_nat (length addedTTHs))
               +:+ " TTH(s) to internal blocklist: " +:+ join_tths addedTTHs |}.

(** [addToBlocklist(socket, settings, selectedIds, entityId, menuType)]. *)
Definition addToBlocklist (env : Env) (settings : Settings) (selectedIds : list jsval)
    (entityId : jsval) (menuType : string) : M unit :=
  if settings_invalid settings then
    await_post env {| severity := error;
                      text := "Cannot add TTHs to blocklist: settings are invalid" |}
  else
    enabled <- lift (settings_getValue settings "internal_block_list") ;;
    if negb (truthy enabled) then
      await_post env
        {| severity := warning;
           text := "Internal blocklist is disabled. Enable it in the extension settings to add TTHs" |}
    else
      addedTTHs <- resolve_selected env menuType entityId selectedIds [] ;;
      if (0 <? length addedTTHs)%nat then
        try_catch
          (write_entries env addedTTHs)
          (fun err =>
             await_post env
               {| severity := error;
                  text := "Failed to write to internal blocklist: " +:+ err |})
      else
        await_post env
          {| severity := warning;
             text := "No valid TTHs to add from "
                     +:+ (if String.eqb menuType "grouped_search_result"
                          then "search results" else "filelist")
                     +:+ ". Ensure selected items are files and fully loaded in the UI" |}.

(** * Vocabulary of the properties *)

(** [m] keeps every world inside the relation [R]. *)
Definition preserves (R : World -> World -> Prop) {A} (m : M A) : Prop :=
  forall w, R w (snd (m w)).

(** The cache is left alone. *)
Definition same_cache (w w' : World) : Prop := cache w' = cache w.

(** Only the notifications and the warnings may differ. *)
Definition same_store (w w' : World) : Prop :=
  cache w' = cache w /\ disk w' = disk w /\ readonly w' = readonly w.

(** Only the warnings may differ. *)
Definition quiet (w w' : World) : Prop :=
  same_store w w' /\ posted w' = posted w.

(** The registry of sources and the recorded modification times are left
    alone. *)
Definition keeps_registry (w w' : World) : Prop :=
  blocklistFiles (cache w') = blocklistFiles (cache w)
  /\ lastUpdateWriteTime (cache w') = lastUpdateWriteTime (cache w).

(** The 32 characters of the base-32 alphabet. *)
Definition base32_alphabet : list ascii :=
  String.list_ascii_of_string "ABCDEFGHIJKLMNOPQRSTUVWXYZ234567".

(** When the hook rejects. *)
Definition rejects (env : Env) (settings : Settings) (t : string) (w : World) : Prop :=
  settings_invalid settings = false
  /\ t <> ""
  /\ MStr t ∈ blockedTTHSet (cache w)
  /\ socket_error env = None.

(** [blocklist] is a source the synchronizer fetches. *)
Definition is_remote (env : Env) (blocklist : BlocklistInfo) : Prop :=
  strict_eq (url blocklist) (JStr "Internal") = false
  /\ isValidBlocklistURL env (url blocklist) = true.

(** [response.headers.get('content-type')] names JSON or plain text. *)
Definition acceptable_content_type (r : Response) : bool :=
  includes (header_or_empty (content_type r)) "application/json"
  || includes (header_or_empty (content_type r)) "text/plain".

(** The ways a fetch fails, with the message of the error raised: the
    request is rejected, the status is an error status, the content type is
    neither JSON nor plain text, the body is not JSON, or its [tths] is not
    an array. *)
Inductive fetch_fails : FetchResult -> string -> Prop :=
  | fails_network msg :
      fetch_fails (NetworkError msg) msg
  | fails_status r :
      status r <> 304 -> response_ok r = false ->
      fetch_fails (Responded r) ("HTTP " +:+ pretty (status r) +:+ ": " +:+ statusText r)
  | fails_content_type r :
      response_ok r = true -> acceptable_content_type r = false ->
      fetch_fails (Responded r)
        ("Invalid content type: " +:+ header_or_empty (content_type r)
         +:+ ", expected application/json or text/plain")
  | fails_unparsable r err :
      response_ok r = true -> acceptable_content_type r = true ->
      body r = Unparsable err ->
      fetch_fails (Responded r) ("Invalid JSON: " +:+ err)
  | fails_empty_body r :
      response_ok r = true -> acceptable_content_type r = true ->
      body r = Blank ->
      fetch_fails (Responded r) "Invalid JSON: Unexpected end of JSON input"
  | fails_no_object r data err :
      response_ok r = true -> acceptable_content_type r = true ->
      body r = Parsed data -> get_prop data "tths" = Throw err ->
      fetch_fails (Responded r) err
  | fails_shape r data tths :
      response_ok r = true -> acceptable_content_type r = true ->
      body r = Parsed data -> get_prop data "tths" = Ok tths -> isArray tths = false ->
      fetch_fails (Responded r) "Invalid JSON format: tths not an array".

(** The notification sent when the attempts are used up. *)
Definition update_failed (blocklist : BlocklistInfo) (msg : string) : Event :=
  {| severity := error;
     text := "Failed to update blocklist " +:+ file blocklist +:+ ": " +:+ msg |}.

(** The [If-None-Match] header sent from world [w]. *)
Definition sent_etag (blocklist : BlocklistInfo) (w : World) : option string :=
  blocklistETags (cache w) !! file blocklist.

(** Attempts [1..j] fail and are retried. *)
Definition retried (blocklist : BlocklistInfo) (remote : Remote) (j : nat) (w : World) : Prop :=
  forall i, (1 <= i <= j)%nat ->
    exists msg, fetch_fails (remote i (sent_etag blocklist w)) msg
                /\ includes msg "HTTP 304" = false.

(** A source is enabled when its setting is truthy, or cannot be read. *)
Definition source_enabled (settings : Settings) (filename : string) : bool :=
  match settings_getValue settings (settingKey_of filename) with
  | Ok v => truthy v
  | Throw _ => true
  end.

(** The union of the per-source sets of the enabled sources. *)
Definition union_of_enabled (settings : Settings) (c : Cache) : gset member :=
  ⋃ (map snd (filter (fun entry => source_enabled settings (fst entry) = true)
                     (map_to_list (blocklistTTHMap c)))).


(** An entry as the file format has it: an object whose [tth], if present,
    is a string. *)
Definition is_entry (item : jsval) : bool :=
  match item with
  | JObj fields =>
      match assoc "tth" fields with
      | JUndefined | JStr _ => true
      | _ => false
      end
  | _ => false
  end.

(** The identifier an entry carries. *)
Definition entry_tth (item : jsval) : option string :=
  match item with
  | JObj fields => match assoc "tth" fields with JStr s => Some s | _ => None end
  | _ => None
  end.

(** The entry carries a valid identifier. *)
Definition entry_is_valid (item : jsval) : bool :=
  match entry_tth item with
  | Some s => tthRegex_test s
  | None => false
  end.

(** The valid identifiers occurring in a list of entries. *)
Definition valid_ids (entries : list jsval) : gset member :=
  list_to_set (MStr <$> filter (fun s => tthRegex_test s = true) (omap entry_tth entries)).

(** [validateBlocklistFile] accepts the file at [p]. *)
Definition structurally_valid (env : Env) (p : string) (w : World) : Prop :=
  exists v w', validateBlocklistFile env p w = (Ok v, w') /\ valid v = true.

(** The value of an item's [tth]. *)
Definition tth_of (item : jsval) : jsval :=
  match get_prop item "tth" with
  | Ok v => v
  | Throw _ => JUndefined
  end.

(** The [tth] values listed in the [tths] array of a value. *)
Definition listed_tths (j : jsval) : list jsval :=
  match get_prop j "tths" with
  | Ok (JArr items) => map tth_of items
  | _ => []
  end.

(** The [tth] values that a reader finds listed in the file at [p]. *)
Definition listed_in_file (env : Env) (w : World) (p : string) : list jsval :=
  match disk w !! p with
  | Some node =>
      match parsed env (data node) with
      | Ok j => listed_tths j
      | Throw _ => []
      end
  | None => []
  end.

(** The file at [p] holds the text formatted from a value that lists
    [tths]. *)
Definition written_listing (w : World) (p : string) (tths : list jsval) : Prop :=
  exists updated m,
    disk w !! p = Some {| data := Formatted updated; mtimeMs := m |}
    /\ listed_tths updated = tths.

(** The per-source set of the internal blocklist. *)
Definition internal_set (w : World) : gset member :=
  default ∅ (blocklistTTHMap (cache w) !! INTERNAL_BLOCKLIST_NAME).



(** * Example worlds *)

(** Three well-formed identifiers. *)
Definition tth_A : string := "AAAAAAAAAAAAAAAAAAAAAAAAAAAAAAAAAAAAAAA".
Definition tth_B : string := "QDJ3QLGZWKAHVA6S44WKPHAGJJ7XY57X33RGQMQ".
Definition tth_C : string := "IQXFFB3Q4JT2VS7VKGUILA6TQYO2AJ6CI6UF37I".

(** Surroundings whose URL parser knows raw GitHub addresses.  The values
    written in the examples below have flat entries and strings without
    runs of white space: the formatter gives them back unchanged. *)
Definition example_parse_url (v : jsval) : option URLParts :=
  match v with
  | JStr s =>
      if String.prefix "https://raw.githubusercontent.com/" s then
        Some {| protocol := "https:"; hostname := "raw.githubusercontent.com";
                pathname := String.substring 33 (String.length s - 33) s |}
      else None
  | _ => None
  end.

Definition example_env : Env :=
  {| BLOCKLIST_DIR := "/ext/blocklists";
     date_now := 1756291959208;
     iso_now := "2025-08-27T10:52:39.208Z";
     write_mtime := 1756291959209;
     socket_error := None;
     parse_url := example_parse_url;
     format_size := fun _ => 512;
     reparse := Ok;
     socket_get := fun _ => Throw "404" |}.

(** The same with the host connection down. *)
Definition offline_env : Env :=
  {| BLOCKLIST_DIR := BLOCKLIST_DIR example_env;
     date_now := date_now example_env;
     iso_now := iso_now example_env;
     write_mtime := write_mtime example_env;
     socket_error := Some "Socket disconnected";
     parse_url := parse_url example_env;
     format_size := format_size example_env;
     reparse := reparse example_env;
     socket_get := socket_get example_env |}.

(** Nothing loaded, nothing on disk. *)
Definition empty_cache : Cache :=
  {| blockedTTHSet := ∅; blocklistFiles := []; blocklistTTHMap := ∅;
     blocklistETags := ∅; blocklistVersions := ∅; lastUpdateWriteTime := ∅ |}.

Definition empty_world : World :=
  {| cache := empty_cache; disk := ∅; readonly := ∅; posted := []; warnings := [] |}.

(** Every setting enabled. *)
Definition all_enabled : Settings := SettingsManager (fun _ => Ok (JBool true)).

(** The user switches [a.json] off. *)
Definition a_disabled : Settings :=
  SettingsManager (fun key => Ok (JBool (negb (String.eqb key "blocklist_a.json")))).

(** A world in which [tth_A] is blocked. *)
Definition world_blocking_A : World :=
  with_cache (set_blockedTTHSet (fun _ => {[MStr tth_A]})) empty_world.

(** The hook's argument for a file named [name] with identifier [tth]. *)
Definition queued_file (name tth : string) : jsval :=
  JObj [ ("file_data", JObj [ ("name", JStr name); ("tth", JStr tth) ]) ].

(** An entry of a blocklist file. *)
Definition entry (tth comment : string) : jsval :=
  JObj [ ("tth", JStr tth); ("comment", JStr comment);
         ("timestamp", JStr "2025-08-26T17:20:00Z") ].

(** A read-only local source and its content. *)
Definition local_source (name : string) : BlocklistInfo :=
  {| file := name; path := path_join (BLOCKLIST_DIR example_env) name;
     mtime := 1756280000000; url := JNull; version := JStr "1.0.0";
     updated_at := JStr "2025-08-27T10:00:00Z"; description := JStr name |}.

Definition local_content (entries : list jsval) : jsval :=
  JObj [ ("url", JNull); ("version", JStr "1.0.0");
         ("updated_at", JStr "2025-08-27T10:00:00Z"); ("tths", JArr entries) ].

(** A mirrored source, in sync with its origin at version 1.0.15. *)
Definition remote_source : BlocklistInfo :=
  {| file := "remote_blocklist.json";
     path := "/ext/blocklists/remote_blocklist.json";
     mtime := 1756290000000;
     url := JStr "https://raw.githubusercontent.com/AnneDane/tth-blocklists/main/blocklists/remote_blocklist.json";
     version := JStr "1.0.15";
     updated_at := JStr "2025-08-27T19:00:00Z";
     description := JStr "Curated by AnneDane" |}.

(** What the origin of [remote_source] serves. *)
Definition remote_content (ver stamp : string) (entries : list jsval) : jsval :=
  JObj [ ("url", url remote_source); ("version", JStr ver); ("updated_at", JStr stamp);
         ("description", JStr "Curated by AnneDane"); ("tths", JArr entries) ].

(** The mirror holds version 1.0.15, which blocks [tth_B]. *)
Definition world_synced : World :=
  {| cache :=
       {| blockedTTHSet := {[MStr tth_B]};
          blocklistFiles := [remote_source];
          blocklistTTHMap := {[ "remote_blocklist.json" := {[MStr tth_B]} ]};
          blocklistETags := {[ "remote_blocklist.json" := "W/1a2b" ]};
          blocklistVersions := {[ "remote_blocklist.json" := JStr "1.0.15" ]};
          lastUpdateWriteTime := {[ "remote_blocklist.json" := 1756290000000 ]} |};
     disk := {[ path remote_source :=
                  {| data := Parsed (remote_content "1.0.15" "2025-08-27T19:00:00Z"
                                       [entry tth_B "bogus filename"]);
                     mtimeMs := 1756290000000 |} ]};
     readonly := ∅; posted := []; warnings := [] |}.

(** Answers of the origin. *)
Definition server_error : Response :=
  {| status := 500; statusText := "Internal Server Error"; content_type := Some "text/html";
     etag_header := None; body := Unparsable "Unexpected token < in JSON at position 0" |}.

Definition not_modified : Response :=
  {| status := 304; statusText := "Not Modified"; content_type := None;
     etag_header := Some "W/1a2b"; body := Blank |}.

(** Same version, a reformatted timestamp and one more entry. *)
Definition same_version_response : Response :=
  {| status := 200; statusText := "OK"; content_type := Some "text/plain; charset=utf-8";
     etag_header := Some "W/3c4d";
     body := Parsed (remote_content "1.0.15" "2025-08-27T19:00:00.000Z"
                       [entry tth_B "bogus filename"; entry tth_A "Test file 1"]) |}.

(** The origin has moved on to version 1.0.16, which adds [tth_A]. *)
Definition new_version_response : Response :=
  {| status := 200; statusText := "OK"; content_type := Some "text/plain; charset=utf-8";
     etag_header := Some "W/3c4d";
     body := Parsed (remote_content "1.0.16" "2025-08-28T08:00:00Z"
                       [entry tth_B "bogus filename"; entry tth_A "Test file 1"]) |}.

(** The origin fails once, then answers [r]. *)
Definition fails_once_then (r : Response) : Remote :=
  fun attempt _ => if (attempt =? 1)%nat then Responded server_error else Responded r.

(** The origin is down. *)
Definition always_failing : Remote := fun _ _ => Responded server_error.

(** A mirrored source whose content carries neither [version] nor
    [updated_at]: the token stored for it is [null]. *)
Definition unversioned_content (entries : list jsval) : jsval :=
  JObj [ ("url", url remote_source); ("description", JStr "Curated by AnneDane");
         ("tths", JArr entries) ].

Definition world_unversioned : World :=
  {| cache :=
       {| blockedTTHSet := {[MStr tth_B]};
          blocklistFiles := [remote_source];
          blocklistTTHMap := {[ "remote_blocklist.json" := {[MStr tth_B]} ]};
          blocklistETags := ∅;
          blocklistVersions := {[ "remote_blocklist.json" := JNull ]};
          lastUpdateWriteTime := {[ "remote_blocklist.json" := 1756290000000 ]} |};
     disk := {[ path remote_source :=
                  {| data := Parsed (unversioned_content [entry tth_B "bogus filename"]);
                     mtimeMs := 1756290000000 |} ]};
     readonly := ∅; posted := []; warnings := [] |}.

(** The origin serves the very content the mirror holds. *)
Definition unversioned_response : Response :=
  {| status := 200; statusText := "OK"; content_type := Some "application/json";
     etag_header := None;
     body := Parsed (unversioned_content [entry tth_B "bogus filename"]) |}.

(** One tick of the timer for [remote_source]: fetch, and reconcile when
    the fetch reports an update. *)
Definition world_after_tick : World :=
  let fetched := fetchAndUpdateBlocklist example_env remote_source
                   (fun _ _ => Responded new_version_response) default_retries world_synced in
  match fst fetched with
  | Ok (Some true) =>
      snd (updateSingleBlocklist example_env all_enabled (file remote_source) (snd fetched))
  | _ => snd fetched
  end.

(** Two read-only sources on disk; both list [tth_A]. *)
Definition world_two_sources : World :=
  {| cache := {| blockedTTHSet := ∅;
                 blocklistFiles := [local_source "a.json"; local_source "b.json"];
                 blocklistTTHMap := ∅; blocklistETags := ∅; blocklistVersions := ∅;
                 lastUpdateWriteTime := ∅ |};
     disk := {[ path (local_source "a.json") :=
                  {| data := Parsed (local_content [entry tth_A "shared"; entry tth_B "only a"]);
                     mtimeMs := 1756280000000 |};
                path (local_source "b.json") :=
                  {| data := Parsed (local_content [entry tth_A "shared"]);
                     mtimeMs := 1756280000001 |} ]};
     readonly := ∅; posted := []; warnings := [] |}.

(** The cache after start-up with everything enabled. *)
Definition world_loaded : World :=
  snd (loadBlockedTTHs example_env all_enabled world_two_sources).

(** ... and after [a.json] has been switched off and reconciled. *)
Definition world_a_reconciled : World :=
  snd (updateSingleBlocklist example_env a_disabled "a.json" world_loaded).

(** Only the internal blocklist exists; it lists [tth_A]. *)
Definition world_internal_only : World :=
  {| cache := {| blockedTTHSet := ∅;
                 blocklistFiles :=
                   [ {| file := INTERNAL_BLOCKLIST_NAME;
                        path := INTERNAL_BLOCKLIST_FILE example_env;
                        mtime := 1756280000000; url := JStr "Internal";
                        version := JStr "Internal";
                        updated_at := JStr "2025-08-27T10:00:00Z";
                        description := JStr "Internal" |} ];
                 blocklistTTHMap := ∅; blocklistETags := ∅; blocklistVersions := ∅;
                 lastUpdateWriteTime := ∅ |};
     disk := {[ INTERNAL_BLOCKLIST_FILE example_env :=
                  {| data := Parsed (JObj [ ("url", JStr "Internal");
                                            ("version", JStr "Internal");
                                            ("updated_at", JStr "2025-08-27T10:00:00Z");
                                            ("description", JStr "Internal");
                                            ("tths", JArr [entry tth_A ""]) ]);
                     mtimeMs := 1756280000000 |} ]};
     readonly := ∅; posted := []; warnings := [] |}.


(** One valid identifier, one of 38 characters, one in lower case, and an
    entry without identifier. *)
Definition mixed_entries : list jsval :=
  [ entry tth_A "valid";
    entry "QDJ3QLGZWKAHVA6S44WKPHAGJJ7XY57X33RGQM" "38 characters";
    entry "qdj3qlgzwkahva6s44wkphagjj7xy57x33rgqmq" "lower case";
    JObj [ ("comment", JStr "no identifier") ] ].

(** A source whose file holds [mixed_entries]; it used to block [tth_B]. *)
Definition world_mixed : World :=
  {| cache := {| blockedTTHSet := {[MStr tth_B]}; blocklistFiles := [local_source "mixed.json"];
                 blocklistTTHMap := {[ "mixed.json" := {[MStr tth_B]} ]};
                 blocklistETags := ∅; blocklistVersions := ∅; lastUpdateWriteTime := ∅ |};
     disk := {[ path (local_source "mixed.json") :=
                  {| data := Parsed (local_content mixed_entries);
                     mtimeMs := 1756280000000 |} ]};
     readonly := ∅; posted := []; warnings := [] |}.

(** The user selects two search results: [tth_A], which the read-only
    sources already block, and [tth_C], which nothing blocks yet. *)
Definition world_after_add : World :=
  snd (addToBlocklist example_env all_enabled [JStr tth_A; JStr tth_C] (JNum 7)
         "grouped_search_result" world_loaded).

(** * Further functions of the module *)

(** ** The formatter of blocklist files *)

(** The text that the formatter works on: the UTF-16 code units of a
    JavaScript string, on which [split], [join], [trim], [replace] and [===]
    operate. *)
Definition utf16 : Type := list N.

(** The text of a literal whose characters are ASCII. *)
Definition units (s : string) : utf16 := N_of_ascii <$> String.list_ascii_of_string s.

(** White space, for [trim] and for the class [\s]: tab, line feed,
    vertical tab, form feed, carriage return, space, no-break space
    (U+00A0), U+1680, U+2000 to U+200A, the line and paragraph separators
    (U+2028, U+2029), U+202F, U+205F, U+3000 and the byte order mark
    (U+FEFF). *)
Definition is_white (c : N) : bool :=
  match c with
  | 9 | 10 | 11 | 12 | 13 | 32 | 160 | 5760 | 8232 | 8233 | 8239 | 8287 | 12288 | 65279 => true
  | _ => (8192 <=? c) && (c <=? 8202)
  end%N.

Fixpoint trim_start (s : utf16) : utf16 :=
  match s with
  | [] => []
  | c :: rest => if is_white c then trim_start rest else s
  end.

Fixpoint trim_end (s : utf16) : utf16 :=
  match s with
  | [] => []
  | c :: rest =>
      match trim_end rest with
      | [] => if is_white c then [] else [c]
      | kept => c :: kept
      end
  end.

(** [s.trim()]. *)
Definition trim (s : utf16) : utf16 := trim_end (trim_start s).

(** [s.replace(/\s+/g, ' ')]; [in_run] tells that the previous code unit
    was white space. *)
Fixpoint collapse_from (in_run : bool) (s : utf16) : utf16 :=
  match s with
  | [] => []
  | c :: rest =>
      if is_white c then
        if in_run then collapse_from true rest else 32%N :: collapse_from true rest
      else c :: collapse_from false rest
  end.

Definition collapse_white (s : utf16) : utf16 := collapse_from false s.

(** [s.startsWith(pat)]. *)
Fixpoint starts_with (pat s : utf16) : bool :=
  match pat, s with
  | [], _ => true
  | p :: pat', c :: rest => (p =? c)%N && starts_with pat' rest
  | _ :: _, [] => false
  end.

(** [s.replace(pat, rep)] for a string pattern: the first occurrence. *)
Fixpoint replace_first (pat rep s : utf16) : utf16 :=
  if starts_with pat s then rep ++ drop (length pat) s
  else match s with
       | [] => []
       | c :: rest => c :: replace_first pat rep rest
       end.

(** [lines.join(sep)]. *)
Fixpoint join_with (sep : utf16) (lines : list utf16) : utf16 :=
  match lines with
  | [] => []
  | [l] => l
  | l :: rest => l ++ sep ++ join_with sep rest
  end.

(** The line feed. *)
Definition newline : utf16 := [10%N].

(** [s.split('\n')]. *)
Fixpoint split_lines (s : utf16) : list utf16 :=
  match s with
  | [] => [[]]
  | c :: rest =>
      if (c =? 10)%N then [] :: split_lines rest
      else match split_lines rest with
           | [] => [[c]]
           | l :: ls => (c :: l) :: ls
           end
  end.

(** A text between double quotes. *)
Definition quoted (s : utf16) : utf16 := 34%N :: s ++ [34%N].

(** The line that opens the array: ["tths": [] with [tths] between double
    quotes. *)
Definition tths_opening : utf16 := quoted (units "tths") ++ units ": [".

(** The single line made of the lines of one element. *)
Definition single_line (tthObjectLines : list utf16) : utf16 :=
  units "    "
  ++ trim (replace_first (units "} ,") (units "},")
             (collapse_white (join_with (units " ") tthObjectLines))).

(** The loop of [formatBlocklistJSON] over the lines that remain, with its
    variables [inTTHsArray], [tthObjectLines] and [result]. *)
Fixpoint format_lines (prettyJSON : list utf16) (inTTHsArray : bool)
    (tthObjectLines result : list utf16) : list utf16 :=
  match prettyJSON with
  | [] => result
  | line :: rest =>
      if bool_decide (trim line = tths_opening) then
        format_lines rest true tthObjectLines (result ++ [line])
      else if inTTHsArray && bool_decide (trim line = units "]") then
        format_lines rest false tthObjectLines (result ++ [line])
      else if inTTHsArray then
        if bool_decide (trim line = units "},") || bool_decide (trim line = units "}") then
          format_lines rest true [] (result ++ [single_line (tthObjectLines ++ [line])])
        else format_lines rest true (tthObjectLines ++ [line]) result
      else format_lines rest false tthObjectLines (result ++ [line])
  end.

(** [formatBlocklistJSON(data)], as a function of the text
    [JSON.stringify(data, null, 2)]. *)
Definition formatBlocklistJSON (pretty : utf16) : utf16 :=
  join_with newline (format_lines (split_lines pretty) false [] []).

(** ** The registry of sources *)

(** [s.endsWith(suffix)]. *)
Definition endsWith (s suffix : string) : bool :=
  (String.length suffix <=? String.length s)%nat
  && String.eqb (String.substring (String.length s - String.length suffix)
                   (String.length suffix) s) suffix.

(** [files.map(file => ...).filter(b => b !== null)] of [getBlocklistFiles]:
    each file is validated, and described when it is valid. *)
Fixpoint describe_files (env : Env) (files : list string) : M (list BlocklistInfo) :=
  match files with
  | [] => ret []
  | file :: rest =>
      let filePath := path_join (BLOCKLIST_DIR env) file in
      v <- validateBlocklistFile env filePath ;;
      if valid v then
        stats <- statSync filePath ;;
        blocklists <- describe_files env rest ;;
        ret ({| file := file; path := filePath; mtime := mtimeMs stats; url := v_url v;
                version := v_version v; updated_at := v_updated_at v;
                description := v_description v |} :: blocklists)
      else describe_files env rest
  end.

(** [getBlocklistFiles(socket)], given what [fs.readdirSync(BLOCKLIST_DIR)]
    returns or throws. *)
Definition getBlocklistFiles (env : Env) (readdirSync : res (list string))
    : M (list BlocklistInfo) :=
  try_catch
    (names <- lift readdirSync ;;
     describe_files env (List.filter (fun file => endsWith file ".json") names))
    (fun err =>
       post {| severity := error;
               text := "Failed to read blocklist directory: " +:+ err |} ;;;
       ret []).

(** ** The scheduled update *)

(** [blocklist.url && blocklist.url !== 'Internal' &&
    isValidBlocklistURL(blocklist.url)]. *)
Definition has_remote_url (env : Env) (blocklist : BlocklistInfo) : bool :=
  truthy (url blocklist)
  && negb (strict_eq (url blocklist) (JStr "Internal"))
  && isValidBlocklistURL env (url blocklist).

(** The loop [for (const blocklist of blocklistFiles)] of the timer's
    callback, given the origin behind each source.  The call of
    [updateSingleBlocklist] is not awaited: it runs to its end, and an
    exception it lets through rejects a promise that nothing handles. *)
Fixpoint update_sources (env : Env) (settings : Settings)
    (origins : BlocklistInfo -> Remote) (blocklists : list BlocklistInfo) : M unit :=
  match blocklists with
  | [] => ret tt
  | blocklist :: rest =>
      (if has_remote_url env blocklist then
         updated <- fetchAndUpdateBlocklist env blocklist (origins blocklist) default_retries ;;
         match updated with
         | Some true =>
             try_catch (updateSingleBlocklist env settings (file blocklist) ;;; ret tt)
                       (fun _ => ret tt)
         | _ => ret tt
         end
       else ret tt) ;;;
      update_sources env settings origins rest
  end.

(** The callback that [scheduleBlocklistUpdates] hands to [setInterval]. *)
Definition scheduled_update (env : Env) (settings : Settings)
    (origins : BlocklistInfo -> Remote) : M unit :=
  blocklists <- gets (fun w => blocklistFiles (cache w)) ;;
  update_sources env settings origins blocklists.

(** * Vocabulary of the further properties *)

(** ** The formatter *)




(** ** Validation *)

(** The file that a reset writes at [p]. *)
Definition default_node (env : Env) (p : string) : FileNode :=
  {| data := Formatted (defaultBlocklist env p); mtimeMs := write_mtime env |}.

(** The cache and the write protections are left alone; the disk is left
    alone, or the file at [p] is replaced by the default. *)
Definition may_reset (env : Env) (p : string) (w w' : World) : Prop :=
  cache w' = cache w
  /\ readonly w' = readonly w
  /\ (disk w' = disk w \/ disk w' = <[p := default_node env p]> (disk w)).

(** Computations that never throw. *)
Definition returns {A} (m : M A) : Prop := forall w, exists a, fst (m w) = Ok a.

(** An item on which [item.tth && isValidTTH(item.tth)] throws: [null], or
    an item whose [tth] is neither falsy, nor a string, nor accepted by the
    pattern. *)
Definition malformed_item (item : jsval) : Prop :=
  item = JNull
  \/ exists t, get_prop item "tth" = Ok t /\ truthy t = true
               /\ tthRegex_test_val t = false /\ forall s, t <> JStr s.

(** ** The registry *)

(** A registry entry agrees with the file system: its path is the one of
    its name in the directory, its file exists with the recorded
    modification time, and its address is [null] or one that
    [isValidBlocklistURL] accepts. *)
Definition entry_on_disk (env : Env) (w : World) (b : BlocklistInfo) : Prop :=
  path b = path_join (BLOCKLIST_DIR env) (file b)
  /\ mtimeMs <$> disk w !! path b = Some (mtime b)
  /\ (url b = JNull \/ isValidBlocklistURL env (url b) = true).

(** ** The membership cache *)

(** Every identifier recorded for a source is in the aggregate set. *)
Definition covered (c : Cache) : Prop :=
  forall filename tthSet,
    blocklistTTHMap c !! filename = Some tthSet -> tthSet ⊆ blockedTTHSet c.

(** The aggregate set only grows, the per-source index is left alone. *)
Definition grows (w w' : World) : Prop :=
  blockedTTHSet (cache w) ⊆ blockedTTHSet (cache w')
  /\ blocklistTTHMap (cache w') = blocklistTTHMap (cache w).

(** A covered cache stays covered. *)
Definition keeps_covered (w w' : World) : Prop := covered (cache w) -> covered (cache w').

(** No per-source set is recorded for [filename] if none was. *)
Definition keeps_absent (filename : string) (w w' : World) : Prop :=
  blocklistTTHMap (cache w) !! filename = None ->
  blocklistTTHMap (cache w') !! filename = None.

(** What a load leaves alone: the registry, the entity tags, the recorded
    modification times and every file but the internal blocklist. *)
Definition load_frame (env : Env) (w w' : World) : Prop :=
  blocklistFiles (cache w') = blocklistFiles (cache w)
  /\ blocklistETags (cache w') = blocklistETags (cache w)
  /\ lastUpdateWriteTime (cache w') = lastUpdateWriteTime (cache w)
  /\ forall p, p <> INTERNAL_BLOCKLIST_FILE env -> disk w' !! p = disk w !! p.

(** What a reconciliation of [filename] leaves alone: the registry, the
    entity tags and what is recorded for the other sources. *)
Definition reconcile_frame (filename : string) (w w' : World) : Prop :=
  blocklistFiles (cache w') = blocklistFiles (cache w)
  /\ blocklistETags (cache w') = blocklistETags (cache w)
  /\ forall other, other <> filename ->
       blocklistTTHMap (cache w') !! other = blocklistTTHMap (cache w) !! other
       /\ blocklistVersions (cache w') !! other = blocklistVersions (cache w) !! other
       /\ lastUpdateWriteTime (cache w') !! other = lastUpdateWriteTime (cache w) !! other.

(** ** The remote synchronizer *)

(** The world once an attempt has recorded the entity tag, the version
    token and the time of the update it is about to write. *)
Definition recorded (env : Env) (blocklist : BlocklistInfo) (r : Response) (token : jsval)
    (w : World) : World :=
  with_cache (set_lastUpdateWriteTime <[file blocklist := date_now env]>)
    (with_cache (set_blocklistVersions <[file blocklist := token]>)
       (with_cache (set_blocklistETags <[file blocklist := header_or_empty (etag_header r)]>) w)).

(** The notification of an update. *)
Definition update_posted (env : Env) (blocklist : BlocklistInfo) (data : jsval)
    (items : list jsval) (token : jsval) : Event :=
  {| severity := info;
     text := "Updated blocklist " +:+ file blocklist +:+ " from "
             +:+ toString (url blocklist) +:+ " with "
             +:+ pretty (Z.of_nat (length items)) +:+ " TTH(s) (version: "
             +:+ toString (js_or token (JStr "none")) +:+ ", size: "
             +:+ pretty (format_size env data) +:+ " bytes)" |}.

(** An answer that carries a list under a token other than the stored one. *)
Definition new_version (blocklist : BlocklistInfo) (r : Response) (data : jsval)
    (items : list jsval) (token : jsval) (w : World) : Prop :=
  response_ok r = true
  /\ acceptable_content_type r = true
  /\ body r = Parsed data
  /\ get_prop data "tths" = Ok (JArr items)
  /\ version_token data = Ok token
  /\ truthy token
     && strict_eq (default JUndefined (blocklistVersions (cache w) !! file blocklist)) token
     = false.

(** The world a successful update ends in. *)
Definition updated_world (env : Env) (blocklist : BlocklistInfo) (r : Response)
    (data : jsval) (items : list jsval) (token : jsval) (w : World) : World :=
  with_posted (fun l => l ++ [update_posted env blocklist data items token])
    (with_disk <[path blocklist := {| data := Formatted data; mtimeMs := write_mtime env |}]>
       (recorded env blocklist r token w)).

(** A list of entries that [validateBlocklistFile] accepts whatever the
    address of the file: it is empty, or one of its entries carries a valid
    identifier. *)
Definition acceptable_entries (items : list jsval) : Prop :=
  items = [] \/ existsb entry_is_valid items = true.

(** ** The look-up of a selected item *)


(** ** The local editor *)

(** The primitive identifiers of a list of [tth] values. *)
Definition members (tths : list jsval) : list member := omap as_member tths.

(** The state of the loop of [addToBlocklist] that started in [w0], once it
    has collected the entries [addedTTHs]. *)
Definition collected (w0 : World) (addedTTHs : list jsval) (w : World) : Prop :=
  let new := members (map tth_of addedTTHs) in
  NoDup new
  /\ (forall m, m ∈ new -> m ∉ blockedTTHSet (cache w0))
  /\ blockedTTHSet (cache w) = blockedTTHSet (cache w0) ∪ list_to_set new
  /\ internal_set w = internal_set w0 ∪ list_to_set new
  /\ (forall other, other <> INTERNAL_BLOCKLIST_NAME ->
        blocklistTTHMap (cache w) !! other = blocklistTTHMap (cache w0) !! other)
  /\ disk w = disk w0.

(** * Further example worlds *)


Definition sample_elements : list (list utf16) :=
  [ [ units "    {";
      units "      " ++ quoted (units "tth") ++ units ": " ++ quoted (units tth_A)
      ++ units ",";
      units "      " ++ quoted (units "comment") ++ units ": "
      ++ quoted (units "Test  file 1");
      units "    }," ];
    [ units "    {";
      units "      " ++ quoted (units "tth") ++ units ": " ++ quoted (units tth_B)
      ++ units ",";
      units "      " ++ quoted (units "comment") ++ units ": "
      ++ quoted (units "bogus" ++ [160%N; 32%N] ++ units "filename");
      units "    }," ] ].


(** What the formatter makes of the two elements. *)
Definition sample_single_lines : list utf16 :=
  [ units "    { " ++ quoted (units "tth") ++ units ": " ++ quoted (units tth_A)
    ++ units ", " ++ quoted (units "comment") ++ units ": "
    ++ quoted (units "Test file 1") ++ units " },";
    units "    { " ++ quoted (units "tth") ++ units ": " ++ quoted (units tth_B)
    ++ units ", " ++ quoted (units "comment") ++ units ": "
    ++ quoted (units "bogus filename") ++ units " }," ].

(** The lines of a value without [tths]. *)
Definition plain_pretty : utf16 :=
  join_with newline
    [ units "{";
      units "  " ++ quoted (units "version") ++ units ": " ++ quoted (units "1.0.0");
      units "}" ].

(** A mirrored source whose file lists an entry without identifier, then an
    entry whose identifier is a number. *)
Definition malformed_entries : list jsval :=
  [ JObj [ ("comment", JStr "no identifier") ];
    JObj [ ("tth", JNum 5) ];
    entry tth_B "bogus filename" ].

Definition world_malformed : World :=
  {| cache := {| blockedTTHSet := ∅; blocklistFiles := [remote_source];
                 blocklistTTHMap := ∅; blocklistETags := ∅; blocklistVersions := ∅;
                 lastUpdateWriteTime := ∅ |};
     disk := {[ path remote_source :=
                  {| data := Parsed (remote_content "1.0.15" "2025-08-27T19:00:00Z"
                                       malformed_entries);
                     mtimeMs := 1756290000000 |} ]};
     readonly := ∅; posted := []; warnings := [] |}.

(** The names found in the directory of [world_two_sources]. *)
Definition directory_names : list string := [ "a.json"; "notes.txt"; "b.json" ].

(** [world_synced] with the mirror's file write-protected. *)
Definition world_synced_readonly : World :=
  {| cache := cache world_synced; disk := disk world_synced;
     readonly := {[ path remote_source ]}; posted := []; warnings := [] |}.

(** Surroundings in which a file written now gets the time that
    [Date.now()] returns. *)
Definition coarse_clock_env : Env :=
  {| BLOCKLIST_DIR := BLOCKLIST_DIR example_env;
     date_now := date_now example_env;
     iso_now := iso_now example_env;
     write_mtime := date_now example_env;
     socket_error := socket_error example_env;
     parse_url := parse_url example_env;
     format_size := format_size example_env;
     reparse := reparse example_env;
     socket_get := socket_get example_env |}.

(** An item of a file list, and surroundings in which the host serves it as
    item 12 of the list 7. *)
Definition listed_file : jsval :=
  JObj [ ("id", JNum 12); ("name", JStr "setup.exe"); ("path", JStr "/Software/setup.exe");
         ("type", JObj [ ("id", JStr "file"); ("str", JStr "exe") ]);
         ("tth", JStr tth_C) ].

Definition browsing_env : Env :=
  {| BLOCKLIST_DIR := BLOCKLIST_DIR example_env;
     date_now := date_now example_env;
     iso_now := iso_now example_env;
     write_mtime := write_mtime example_env;
     socket_error := socket_error example_env;
     parse_url := parse_url example_env;
     format_size := format_size example_env;
     reparse := reparse example_env;
     socket_get := fun address =>
       if String.eqb address "filelists/7/items/12" then Ok listed_file else Throw "404" |}.

(** * Properties *)

(** ** Reasoning about effects *)

Section Preserves.
Context (R : World -> World -> Prop) `{!Reflexive R} `{!Transitive R}.

Lemma preserves_ret {A} (a : A) : preserves R (ret a).
Proof. intros w. simpl. reflexivity. Qed.

Lemma preserves_throw {A} msg : preserves R (@throw A msg).
Proof. intros w. simpl. reflexivity. Qed.

Lemma preserves_lift {A} (r : res A) : preserves R (lift r).
Proof. intros w. simpl. reflexivity. Qed.

Lemma preserves_gets {A} (f : World -> A) : preserves R (gets f).
Proof. intros w. simpl. reflexivity. Qed.

Lemma preserves_modify f : (forall w, R w (f w)) -> preserves R (modify f).
Proof. intros H w. apply H. Qed.

Lemma preserves_bind {A B} (m : M A) (k : A -> M B) :
  preserves R m -> (forall a, preserves R (k a)) -> preserves R (bind m k).
Proof.
  intros Hm Hk w. unfold bind. specialize (Hm w).
  destruct (m w) as [[a|e] w1]; simpl in *; [|exact Hm].
  etransitivity; [exact Hm|apply Hk].
Qed.

Lemma preserves_try_catch {A} (m : M A) (h : string -> M A) :
  preserves R m -> (forall e, preserves R (h e)) -> preserves R (try_catch m h).
Proof.
  intros Hm Hh w. unfold try_catch. specialize (Hm w).
  destruct (m w) as [[a|e] w1]; simpl in *; [exact Hm|].
  etransitivity; [exact Hm|apply Hh].
Qed.

Lemma preserves_forEach {A} (f : A -> M unit) l :
  (forall a, preserves R (f a)) -> preserves R (forEach f l).
Proof.
  intros Hf. induction l as [|x l IH]; simpl.
  - apply preserves_ret.
  - apply preserves_bind; auto.
Qed.

Lemma preserves_some {A} (f : A -> M bool) l :
  (forall a, preserves R (f a)) -> preserves R (some f l).
Proof.
  intros Hf. induction l as [|x l IH]; simpl.
  - apply preserves_ret.
  - apply preserves_bind; [apply Hf|]. intros [|]; [apply preserves_ret|exact IH].
Qed.

Lemma preserves_JSON_parse env c : preserves R (JSON_parse env c).
Proof. apply preserves_lift. Qed.
End Preserves.

(** One step of a frame proof: split a sequence, a handler or a branch. *)
Ltac frame_step :=
  match goal with
  | |- preserves _ (bind _ _) => apply preserves_bind; [try typeclasses eauto ..| |intros ?]
  | |- preserves _ (try_catch _ _) =>
      apply preserves_try_catch; [try typeclasses eauto ..| |intros ?]
  | |- preserves _ (ret _) => apply preserves_ret; typeclasses eauto
  | |- preserves _ (throw _) => apply preserves_throw; typeclasses eauto
  | |- preserves _ (lift _) => apply preserves_lift; typeclasses eauto
  | |- preserves _ (gets _) => apply preserves_gets; typeclasses eauto
  | |- preserves _ (JSON_parse _ _) => apply preserves_JSON_parse; typeclasses eauto
  | |- preserves _ (some _ _) => apply preserves_some; [try typeclasses eauto ..|intros ?]
  | |- preserves _ (forEach _ _) => apply preserves_forEach; [try typeclasses eauto ..|intros ?]
  | |- preserves _ (if ?b then _ else _) => destruct b
  | |- preserves _ (match ?x with _ => _ end) => destruct x
  end.

#[local] Instance same_cache_refl : Reflexive same_cache.
Proof. intros w. reflexivity. Qed.
#[local] Instance same_cache_trans : Transitive same_cache.
Proof. intros a b c H1 H2. unfold same_cache in *. congruence. Qed.

Lemma post_same_cache e : preserves same_cache (post e).
Proof. intros w. reflexivity. Qed.

Lemma console_warn_same_cache line : preserves same_cache (console_warn line).
Proof. intros w. reflexivity. Qed.

Lemma readFileSync_same_cache p : preserves same_cache (readFileSync p).
Proof. intros w. unfold readFileSync. destruct (disk w !! p); reflexivity. Qed.

Lemma writeFileSync_same_cache env p j : preserves same_cache (writeFileSync env p j).
Proof. intros w. unfold writeFileSync. destruct j; try case_bool_decide; reflexivity. Qed.

Lemma isValidTTH_same_cache id : preserves same_cache (isValidTTH id).
Proof.
  unfold isValidTTH. repeat frame_step; try apply console_warn_same_cache.
Qed.

(** ** C3: the identifier validator *)

Lemma tth_class_alphabet c : tth_class c = bool_decide (c ∈ base32_alphabet).
Proof. destruct c as [[] [] [] [] [] [] [] []]; vm_compute; reflexivity. Qed.

Lemma match_exactly_spec cls n s :
  match_exactly cls n s = true <->
  String.length s = n /\ Forall (fun c => cls c = true) (String.list_ascii_of_string s).
Proof.
  revert s. induction n as [|n IH]; intros [|c s]; simpl.
  - split; [intros _; split; [reflexivity|constructor]|reflexivity].
  - split; [discriminate|intros [H _]; discriminate].
  - split; [discriminate|intros [H _]; discriminate].
  - rewrite andb_true_iff, IH. split.
    + intros [Hc [Hl Hf]]. split; [by f_equal|by constructor].
    + intros [Hl Hf]. inversion Hf; subst. repeat split; auto.
Qed.

(** C3. For every string [s], [isValidTTH(s)] returns (never throws), and
    returns true exactly when [s] has 39 characters, each an uppercase
    letter [A-Z] or a digit [2-7]; whatever it returns, the cache, the files
    and the posted notifications are as before the call. *)
Theorem isValidTTH_spec (s : string) (w : World) :
  (exists b, fst (isValidTTH (JStr s) w) = Ok b)
  /\ (fst (isValidTTH (JStr s) w) = Ok true <->
      String.length s = 39%nat
      /\ Forall (fun c => c ∈ base32_alphabet) (String.list_ascii_of_string s))
  /\ cache (snd (isValidTTH (JStr s) w)) = cache w
  /\ disk (snd (isValidTTH (JStr s) w)) = disk w
  /\ posted (snd (isValidTTH (JStr s) w)) = posted w.
Proof.
  assert (Hiff : tthRegex_test s = true <->
                 String.length s = 39%nat
                 /\ Forall (fun c => c ∈ base32_alphabet) (String.list_ascii_of_string s)).
  { unfold tthRegex_test. rewrite match_exactly_spec.
    split; intros [Hl Hf]; (split; [exact Hl|]);
      eapply Forall_impl; try exact Hf; intros c Hc; simpl in *.
    - rewrite tth_class_alphabet in Hc. by apply bool_decide_eq_true in Hc.
    - rewrite tth_class_alphabet. by apply bool_decide_eq_true. }
  unfold isValidTTH; cbn [tthRegex_test_val].
  destruct (tthRegex_test s) eqn:Ht; cbn.
  - split; [by exists true|]. split; [|done]. split; [intros _; by apply Hiff|done].
  - split; [by exists false|]. split; [|done].
    split; [discriminate|]. intros H. apply Hiff in H. discriminate.
Qed.

(** ** C9 and C2: the admission hook *)

Ltac run := unfold bind, try_catch, lift, gets, modify, ret, throw; cbn.

Lemma queueBundleFileAddHook_returns env settings data w :
  exists d, fst (queueBundleFileAddHook env settings data w) = Ok d.
Proof.
  unfold queueBundleFileAddHook, try_catch.
  destruct (queueBundleFileAddHook_try env settings data w) as [[d|e] w']; cbn; eauto.
Qed.

(** C9. Whenever an exception is raised inside the admission hook, or the
    settings object is invalid or unavailable, the hook lets nothing
    through to the host and accepts the file. *)
Theorem queueBundleFileAddHook_fails_open env settings data w :
  (settings_invalid settings = true
   \/ exists msg, fst (queueBundleFileAddHook_try env settings data w) = Throw msg) ->
  fst (queueBundleFileAddHook env settings data w) = Ok Accept.
Proof.
  intros [Hs | [msg Hthrow]].
  - unfold queueBundleFileAddHook, queueBundleFileAddHook_try. run.
    destruct (get_prop data "file_data") as [fd|]; cbn; [|reflexivity].
    destruct (get_prop (js_or fd (JObj [])) "name"); cbn; [|reflexivity].
    destruct (get_prop (js_or fd (JObj [])) "tth"); cbn; [|reflexivity].
    rewrite Hs. reflexivity.
  - unfold queueBundleFileAddHook, try_catch.
    destruct (queueBundleFileAddHook_try env settings data w) as [[d|e] w'];
      cbn in *; [discriminate|reflexivity].
Qed.

(** Three ways into the fail-open path: no settings object, an argument
    without data, and a host connection that rejects the notification. *)
Lemma queueBundleFileAddHook_fails_open_witness :
  fst (queueBundleFileAddHook example_env SettingsInvalid (queued_file "a.bin" tth_A)
         world_blocking_A) = Ok Accept
  /\ fst (queueBundleFileAddHook example_env all_enabled JNull world_blocking_A) = Ok Accept
  /\ fst (queueBundleFileAddHook offline_env all_enabled (queued_file "a.bin" tth_A)
            world_blocking_A) = Ok Accept.
Proof.
  split; [|split].
  - apply queueBundleFileAddHook_fails_open. left. reflexivity.
  - apply queueBundleFileAddHook_fails_open. right.
    exists "Cannot read properties of null (reading 'file_data')". reflexivity.
  - apply queueBundleFileAddHook_fails_open. right.
    exists "Socket disconnected". vm_compute. reflexivity.
Defined.

(** C2 does not hold as stated: a blocked identifier is accepted when the
    settings object is invalid, and when the host rejects the notification
    that precedes the rejection. *)
Lemma queueBundleFileAddHook_accepts_blocked :
  MStr tth_A ∈ blockedTTHSet (cache world_blocking_A)
  /\ fst (queueBundleFileAddHook example_env SettingsInvalid (queued_file "a.bin" tth_A)
            world_blocking_A) = Ok Accept
  /\ fst (queueBundleFileAddHook offline_env all_enabled (queued_file "a.bin" tth_A)
            world_blocking_A) = Ok Accept.
Proof.
  split; [|split].
  - cbn. set_solver.
  - vm_compute. reflexivity.
  - vm_compute. reflexivity.
Qed.

(** C2, amended. For a queued file whose TTH field holds the string [t],
    the hook rejects exactly when the settings object is valid, [t] is not
    empty and belongs to the aggregate set at the time of the call, and the
    notification of the blocked download is delivered; in every other case
    it accepts. *)
Theorem queueBundleFileAddHook_decision env settings data fileData t w :
  get_prop data "file_data" = Ok fileData ->
  truthy fileData = true ->
  get_prop fileData "tth" = Ok (JStr t) ->
  (rejects env settings t w ->
     fst (queueBundleFileAddHook env settings data w)
     = Ok (Reject "blocked_tth" "Download skipped: TTH is blocked by extension"))
  /\ (~ rejects env settings t w ->
     fst (queueBundleFileAddHook env settings data w) = Ok Accept).
Proof.
  intros Hfd Htruthy Htth.
  unfold queueBundleFileAddHook, queueBundleFileAddHook_try, rejects. run.
  rewrite Hfd; cbn. unfold js_or. rewrite Htruthy.
  assert (Hname : exists n, get_prop fileData "name" = Ok n).
  { destruct fileData; try discriminate; cbn; eauto. }
  destruct Hname as [n ->]; cbn. rewrite Htth; cbn.
  destruct (settings_invalid settings) eqn:Hs; cbn.
  { split; [intros [? _]; discriminate|reflexivity]. }
  destruct (String.eqb_spec t "") as [->|Hne]; cbn.
  { split; [intros (_ & ? & _); congruence|reflexivity]. }
  case_bool_decide as Hin; cbn.
  2:{ split; [intros (_ & _ & ? & _); contradiction|reflexivity]. }
  unfold await_post, post. run.
  destruct (socket_error env) eqn:Hsock; cbn.
  { split; [intros (_ & _ & _ & ?); discriminate|reflexivity]. }
  split; [reflexivity|]. intros Hnot. exfalso. apply Hnot. auto.
Qed.

Lemma queueBundleFileAddHook_decision_witness :
  fst (queueBundleFileAddHook example_env all_enabled (queued_file "a.bin" tth_A)
         world_blocking_A)
  = Ok (Reject "blocked_tth" "Download skipped: TTH is blocked by extension")
  /\ fst (queueBundleFileAddHook example_env all_enabled (queued_file "b.bin" tth_B)
            world_blocking_A) = Ok Accept.
Proof.
  split.
  - apply (queueBundleFileAddHook_decision example_env all_enabled
             (queued_file "a.bin" tth_A)
             (JObj [("name", JStr "a.bin"); ("tth", JStr tth_A)]) tth_A world_blocking_A);
      try reflexivity.
    unfold rejects. split; [reflexivity|]. split; [discriminate|].
    split; [cbn; set_solver|reflexivity].
  - apply (queueBundleFileAddHook_decision example_env all_enabled
             (queued_file "b.bin" tth_B)
             (JObj [("name", JStr "b.bin"); ("tth", JStr tth_B)]) tth_B world_blocking_A);
      try reflexivity.
    intros (_ & _ & Hin & _). cbn in Hin. apply elem_of_singleton in Hin. discriminate.
Defined.

(** ** C6, C7, C8: the remote synchronizer *)

Lemma response_ok_not_304 r : response_ok r = true -> (status r =? 304) = false.
Proof. unfold response_ok. intros H. apply andb_true_iff in H. lia. Qed.

Lemma acceptable_content_type_false r :
  acceptable_content_type r = false ->
  negb (includes (header_or_empty (content_type r)) "application/json")
  && negb (includes (header_or_empty (content_type r)) "text/plain") = true.
Proof. unfold acceptable_content_type. intros H. apply orb_false_iff in H as [-> ->]. done. Qed.

Lemma acceptable_content_type_true r :
  acceptable_content_type r = true ->
  negb (includes (header_or_empty (content_type r)) "application/json")
  && negb (includes (header_or_empty (content_type r)) "text/plain") = false.
Proof.
  unfold acceptable_content_type. intros H. apply orb_true_iff in H as [-> | ->]; cbn; [done|].
  apply andb_false_r.
Qed.

(** A failed fetch raises its error before anything is modified. *)
Lemma fetch_attempt_fails env blocklist remote attempt w msg :
  fetch_fails (remote attempt (sent_etag blocklist w)) msg ->
  fetch_attempt env blocklist remote attempt w = (Throw msg, w).
Proof.
  unfold fetch_attempt, sent_etag. run. intros H.
  inversion H as [m Heq|r Hs Hok Heq|r Hok Hct Heq|r err Hok Hct Hb Heq|r Hok Hct Hb Heq
                 |r data err Hok Hct Hb Hp Heq|r data tths Hok Hct Hb Hp Ha Heq]; subst;
    try reflexivity.
  - apply Z.eqb_neq in Hs. by rewrite Hs, Hok.
  - by rewrite (response_ok_not_304 _ Hok), Hok, (acceptable_content_type_false _ Hct).
  - by rewrite (response_ok_not_304 _ Hok), Hok, (acceptable_content_type_true _ Hct), Hb.
  - by rewrite (response_ok_not_304 _ Hok), Hok, (acceptable_content_type_true _ Hct), Hb.
  - rewrite (response_ok_not_304 _ Hok), Hok, (acceptable_content_type_true _ Hct), Hb; cbn.
    by rewrite Hp.
  - rewrite (response_ok_not_304 _ Hok), Hok, (acceptable_content_type_true _ Hct), Hb; cbn.
    by rewrite Hp, Ha.
Qed.

(** A failure that is not the last attempt moves on to the next one. *)
Lemma fetch_loop_retry env blocklist remote retries remaining w msg :
  fetch_fails (remote (retries - remaining)%nat (sent_etag blocklist w)) msg ->
  (retries - remaining < retries)%nat ->
  includes msg "HTTP 304" = false ->
  fetch_loop env blocklist remote retries (S remaining) w
  = fetch_loop env blocklist remote retries remaining w.
Proof.
  intros Hf Hlt H304. cbn [fetch_loop]. unfold try_catch, bind at 1.
  rewrite (fetch_attempt_fails _ _ _ _ _ _ Hf).
  apply Nat.ltb_lt in Hlt. by rewrite Hlt, H304.
Qed.

Lemma fetch_loop_skip env blocklist remote retries j w :
  (j < retries)%nat ->
  retried blocklist remote j w ->
  fetch_loop env blocklist remote retries retries w
  = fetch_loop env blocklist remote retries (retries - j) w.
Proof.
  intros Hj Hr. induction j as [|j IH].
  - by rewrite Nat.sub_0_r.
  - rewrite IH; [|lia|intros i Hi; apply Hr; lia].
    destruct (Hr (S j)) as (msg & Hf & H304); [lia|].
    replace (retries - j)%nat with (S (retries - S j)) by lia.
    apply (fetch_loop_retry _ _ _ _ _ _ msg); [|lia|done].
    by replace (retries - (retries - S j))%nat with (S j) by lia.
Qed.

(** C7. When a fetch is answered 304 Not Modified (after any number of
    failed attempts that were retried), the synchronizer returns false on
    that answer, without a further attempt, and the world is exactly as it
    was: the stored entity tag and version token, the files, the aggregate
    and per-source sets, and the notifications. *)
Theorem fetchAndUpdateBlocklist_not_modified env blocklist remote retries j r w :
  is_remote env blocklist ->
  (j < retries)%nat ->
  retried blocklist remote j w ->
  remote (S j) (sent_etag blocklist w) = Responded r ->
  status r = 304 ->
  fetchAndUpdateBlocklist env blocklist remote retries w = (Ok (Some false), w).
Proof.
  intros [Hint Hurl] Hj Hretried Hresp H304.
  unfold fetchAndUpdateBlocklist. rewrite Hint, Hurl; cbn.
  rewrite (fetch_loop_skip _ _ _ _ j) by done.
  replace (retries - j)%nat with (S (retries - S j)) by lia.
  cbn [fetch_loop]. replace (retries - (retries - S j))%nat with (S j) by lia.
  unfold try_catch, bind at 1, fetch_attempt. run.
  unfold sent_etag in Hresp. rewrite Hresp, H304. reflexivity.
Qed.

(** The synchronizer at work: a new version is written to the mirror file
    and recorded, and the reconciliation that follows blocks the new
    identifier. *)
Example synchronizer_updates :
  fst (fetchAndUpdateBlocklist example_env remote_source
         (fun _ _ => Responded new_version_response) default_retries world_synced)
    = Ok (Some true)
  /\ blocklistVersions (cache world_after_tick) !! "remote_blocklist.json"
     = Some (JStr "1.0.16")
  /\ blocklistETags (cache world_after_tick) !! "remote_blocklist.json" = Some "W/3c4d"
  /\ listed_in_file example_env world_after_tick (path remote_source)
     = [JStr tth_B; JStr tth_A]
  /\ blockedTTHSet (cache world_after_tick) = {[MStr tth_A; MStr tth_B]}.
Proof. repeat split; vm_compute; reflexivity. Qed.

(** The test compares tokens, and a body without [version] and [updated_at]
    carries none: for a source that has no token either ([null] is stored),
    every 200 answer is taken as an update, the file is written again and the
    entity tag replaced, even when the content is the one already held. *)
Example fetchAndUpdateBlocklist_rewrites_unversioned :
  let out := fetchAndUpdateBlocklist example_env remote_source
               (fun _ _ => Responded unversioned_response) default_retries
               world_unversioned in
  version_token (unversioned_content [entry tth_B "bogus filename"]) = Ok JNull
  /\ blocklistVersions (cache world_unversioned) !! file remote_source = Some JNull
  /\ strict_eq JNull JNull = true
  /\ fst out = Ok (Some true)
  /\ mtimeMs <$> disk world_unversioned !! path remote_source = Some 1756290000000
  /\ mtimeMs <$> disk (snd out) !! path remote_source = Some (write_mtime example_env)
  /\ blocklistETags (cache world_unversioned) !! file remote_source = None
  /\ blocklistETags (cache (snd out)) !! file remote_source = Some "".
Proof. repeat split; vm_compute; reflexivity. Qed.

(** C6. A fetch answered 200 with a body that carries a version token (its
    [version], else its [updated_at]) equal to the stored one changes
    nothing, whatever else the body holds and however it differs from the
    file: no file is written, and the entity tags, version tokens, aggregate
    and per-source sets stay as they were.  When the answer is otherwise
    well-formed (and earlier attempts, if any, failed and were retried), the
    synchronizer returns false on it. *)
Theorem fetchAndUpdateBlocklist_same_version env blocklist remote retries j r data
    token old w :
  remote (S j) (sent_etag blocklist w) = Responded r ->
  status r = 200 ->
  body r = Parsed data ->
  version_token data = Ok token ->
  truthy token = true ->
  blocklistVersions (cache w) !! file blocklist = Some old ->
  strict_eq old token = true ->
  snd (fetch_attempt env blocklist remote (S j) w) = w
  /\ (is_remote env blocklist ->
      (j < retries)%nat ->
      retried blocklist remote j w ->
      acceptable_content_type r = true ->
      (exists items, get_prop data "tths" = Ok (JArr items)) ->
      fetchAndUpdateBlocklist env blocklist remote retries w = (Ok (Some false), w)).
Proof.
  intros Hresp H200 Hbody Htoken Htruthy Hold Heq.
  assert (Hattempt :
    forall items, acceptable_content_type r = true -> get_prop data "tths" = Ok (JArr items) ->
      fetch_attempt env blocklist remote (S j) w = (Ok false, w)).
  { intros items Hct Htths. unfold fetch_attempt. run.
    unfold sent_etag in Hresp. rewrite Hresp, H200; cbn.
    unfold response_ok. rewrite H200; cbn.
    rewrite (acceptable_content_type_true _ Hct), Hbody; cbn.
    rewrite Htths; cbn. rewrite Htoken; cbn. rewrite Hold; cbn.
    by rewrite Htruthy, Heq. }
  split.
  - unfold fetch_attempt. run.
    unfold sent_etag in Hresp. rewrite Hresp, H200; cbn.
    unfold response_ok. rewrite H200; cbn.
    destruct (negb _ && negb _); [reflexivity|].
    rewrite Hbody; cbn.
    destruct (get_prop data "tths") as [tths|]; cbn; [|reflexivity].
    destruct (isArray tths); cbn; [|reflexivity].
    rewrite Htoken; cbn. rewrite Hold; cbn. by rewrite Htruthy, Heq.
  - intros [Hint Hurl] Hj Hretried Hct [items Htths].
    unfold fetchAndUpdateBlocklist. rewrite Hint, Hurl; cbn.
    rewrite (fetch_loop_skip _ _ _ _ j) by done.
    replace (retries - j)%nat with (S (retries - S j)) by lia.
    cbn [fetch_loop]. replace (retries - (retries - S j))%nat with (S j) by lia.
    unfold try_catch, bind at 1. by rewrite (Hattempt items).
Qed.

Lemma fetch_loop_exhausted env blocklist remote retries remaining w :
  (1 <= remaining <= retries)%nat ->
  (forall i, exists msg, fetch_fails (remote i (sent_etag blocklist w)) msg) ->
  exists msg,
    fetch_loop env blocklist remote retries remaining w
    = (bind (await_post env (update_failed blocklist msg)) (fun _ => ret (Some false))) w.
Proof.
  intros Hrange Hfail. induction remaining as [|remaining IH]; [lia|].
  destruct (Hfail (retries - remaining)%nat) as [msg Hf].
  cbn [fetch_loop]. unfold try_catch at 1, bind at 1.
  rewrite (fetch_attempt_fails _ _ _ _ _ _ Hf).
  destruct ((retries - remaining <? retries)%nat && negb (includes msg "HTTP 304")) eqn:Hc.
  - apply andb_true_iff in Hc as [Hlt _]. apply Nat.ltb_lt in Hlt.
    apply IH. lia.
  - exists msg. reflexivity.
Qed.

(** C8. When every attempt of a call fails (network error, error status,
    wrong content type, body that is not JSON or has no [tths] array), the
    synchronizer posts exactly one notification, an error naming the source,
    and leaves the cache (per-source sets, aggregate set, entity tags,
    version tokens) and the files as they were; it returns false once the
    host has taken the notification. *)
Theorem fetchAndUpdateBlocklist_exhausted env blocklist remote retries w :
  is_remote env blocklist ->
  (1 <= retries)%nat ->
  (forall i, exists msg, fetch_fails (remote i (sent_etag blocklist w)) msg) ->
  let out := fetchAndUpdateBlocklist env blocklist remote retries w in
  cache (snd out) = cache w
  /\ disk (snd out) = disk w
  /\ (exists msg, posted (snd out) = posted w ++ [update_failed blocklist msg])
  /\ (socket_error env = None -> fst out = Ok (Some false)).
Proof.
  intros [Hint Hurl] Hretries Hfail. cbn zeta.
  unfold fetchAndUpdateBlocklist. rewrite Hint, Hurl; cbn.
  destruct (fetch_loop_exhausted env blocklist remote retries retries w) as [msg ->];
    [lia|done|].
  unfold await_post, post. run.
  destruct (socket_error env); cbn; repeat split; eauto; discriminate.
Qed.

(** The origin answered the first attempt with [server_error]. *)
Ltac first_attempt_failed :=
  let i := fresh "i" in
  let Hi := fresh "Hi" in
  intros i Hi; assert (i = 1%nat) as -> by lia;
  exists "HTTP 500: Internal Server Error";
  split; [apply (fails_status server_error); [discriminate|reflexivity]|reflexivity].

Lemma fetchAndUpdateBlocklist_not_modified_witness :
  fetchAndUpdateBlocklist example_env remote_source (fails_once_then not_modified)
    default_retries world_synced
  = (Ok (Some false), world_synced).
Proof.
  apply (fetchAndUpdateBlocklist_not_modified _ _ _ _ 1%nat not_modified).
  - split; reflexivity.
  - unfold default_retries. lia.
  - first_attempt_failed.
  - reflexivity.
  - reflexivity.
Defined.

Lemma fetchAndUpdateBlocklist_same_version_witness :
  snd (fetch_attempt example_env remote_source (fails_once_then same_version_response)
         2 world_synced) = world_synced
  /\ fetchAndUpdateBlocklist example_env remote_source (fails_once_then same_version_response)
       default_retries world_synced
     = (Ok (Some false), world_synced).
Proof.
  destruct (fetchAndUpdateBlocklist_same_version example_env remote_source
              (fails_once_then same_version_response) default_retries 1%nat
              same_version_response
              (remote_content "1.0.15" "2025-08-27T19:00:00.000Z"
                 [entry tth_B "bogus filename"; entry tth_A "Test file 1"])
              (JStr "1.0.15") (JStr "1.0.15") world_synced) as [Hquiet Hfalse];
    try reflexivity.
  split; [exact Hquiet|].
  apply Hfalse.
  - split; reflexivity.
  - unfold default_retries. lia.
  - first_attempt_failed.
  - reflexivity.
  - eexists. reflexivity.
Defined.

Lemma fetchAndUpdateBlocklist_exhausted_witness :
  let out := fetchAndUpdateBlocklist example_env remote_source always_failing
               default_retries world_synced in
  cache (snd out) = cache world_synced
  /\ disk (snd out) = disk world_synced
  /\ (exists msg, posted (snd out) = posted world_synced ++ [update_failed remote_source msg])
  /\ (socket_error example_env = None -> fst out = Ok (Some false)).
Proof.
  apply fetchAndUpdateBlocklist_exhausted.
  - split; reflexivity.
  - unfold default_retries. lia.
  - intros i. exists "HTTP 500: Internal Server Error".
    apply (fails_status server_error); [discriminate|reflexivity].
Defined.

(** ** C1: the aggregate set after a reconciliation *)

(** Start-up with the internal blocklist alone: its identifier is denied,
    any other is allowed. *)
Example loadBlockedTTHs_internal_only :
  let w := snd (loadBlockedTTHs example_env all_enabled world_internal_only) in
  blockedTTHSet (cache w) = {[MStr tth_A]}
  /\ blocklistTTHMap (cache w) !! INTERNAL_BLOCKLIST_NAME = Some {[MStr tth_A]}
  /\ blocklistVersions (cache w) !! INTERNAL_BLOCKLIST_NAME = Some (JStr "Internal")
  /\ posted w = []
  /\ fst (queueBundleFileAddHook example_env all_enabled (queued_file "a.bin" tth_A) w)
     = Ok (Reject "blocked_tth" "Download skipped: TTH is blocked by extension")
  /\ fst (queueBundleFileAddHook example_env all_enabled (queued_file "b.bin" tth_B) w)
     = Ok Accept.
Proof. repeat split; vm_compute; reflexivity. Qed.

Example world_loaded_blocks :
  blockedTTHSet (cache world_loaded) = {[MStr tth_A; MStr tth_B]}
  /\ blocklistTTHMap (cache world_loaded) !! "a.json" = Some {[MStr tth_A; MStr tth_B]}
  /\ blocklistTTHMap (cache world_loaded) !! "b.json" = Some {[MStr tth_A]}.
Proof. repeat split; vm_compute; reflexivity. Qed.

(** C1 fails on the code. Start-up loads [a.json] and [b.json], which both
    list [tth_A]. After [a.json] is disabled and reconciled, [b.json] is
    still enabled and its per-source set still holds [tth_A], yet the
    aggregate set is empty and the admission hook accepts [tth_A]:
    unloading a source deletes each of its identifiers from the aggregate
    set without looking at the other sources. *)
Theorem updateSingleBlocklist_drops_shared_identifier :
  fst (updateSingleBlocklist example_env a_disabled "a.json" world_loaded) = Ok false
  /\ source_enabled a_disabled "b.json" = true
  /\ blocklistTTHMap (cache world_a_reconciled) !! "b.json" = Some {[MStr tth_A]}
  /\ union_of_enabled a_disabled (cache world_a_reconciled) = {[MStr tth_A]}
  /\ blockedTTHSet (cache world_a_reconciled) = ∅
  /\ fst (queueBundleFileAddHook example_env a_disabled (queued_file "shared.bin" tth_A)
            world_a_reconciled) = Ok Accept.
Proof. repeat split; vm_compute; reflexivity. Qed.

(** ** C4: reconciling twice *)

#[local] Instance keeps_registry_refl : Reflexive keeps_registry.
Proof. intros w. split; reflexivity. Qed.
#[local] Instance keeps_registry_trans : Transitive keeps_registry.
Proof. intros a b c [H1 H2] [H3 H4]. split; congruence. Qed.

Lemma same_cache_keeps_registry {A} (m : M A) : preserves same_cache m -> preserves keeps_registry m.
Proof. intros H w. specialize (H w). unfold same_cache in H. split; by rewrite H. Qed.

Create HintDb frame.
#[local] Hint Resolve post_same_cache console_warn_same_cache readFileSync_same_cache
  writeFileSync_same_cache isValidTTH_same_cache : frame.
#[local] Hint Resolve same_cache_keeps_registry : frame.

Ltac frame := repeat first [ frame_step | solve [eauto with frame] ].

Lemma item_has_valid_tth_same_cache item : preserves same_cache (item_has_valid_tth item).
Proof. unfold item_has_valid_tth. frame. Qed.
#[local] Hint Resolve item_has_valid_tth_same_cache : frame.

Lemma validateBlocklistFile_same_cache env p : preserves same_cache (validateBlocklistFile env p).
Proof.
  unfold validateBlocklistFile. frame.
Qed.
#[local] Hint Resolve validateBlocklistFile_same_cache : frame.

Lemma modify_blockedTTHSet_keeps_registry f :
  preserves keeps_registry (modify (with_cache (set_blockedTTHSet f))).
Proof. intros w. split; reflexivity. Qed.
Lemma modify_blocklistTTHMap_keeps_registry f :
  preserves keeps_registry (modify (with_cache (set_blocklistTTHMap f))).
Proof. intros w. split; reflexivity. Qed.
Lemma modify_blocklistVersions_keeps_registry f :
  preserves keeps_registry (modify (with_cache (set_blocklistVersions f))).
Proof. intros w. split; reflexivity. Qed.
#[local] Hint Resolve modify_blockedTTHSet_keeps_registry modify_blocklistTTHMap_keeps_registry
  modify_blocklistVersions_keeps_registry : frame.

Lemma load_tths_keeps_registry items tthSet : preserves keeps_registry (load_tths items tthSet).
Proof.
  revert tthSet. induction items as [|item items IH]; intros tthSet; cbn [load_tths].
  - frame.
  - frame; apply IH.
Qed.
#[local] Hint Resolve load_tths_keeps_registry : frame.

Lemma reload_source_keeps_registry env settings filename filePath :
  preserves keeps_registry (reload_source env settings filename filePath).
Proof. unfold reload_source, settingValue_or_enabled. frame. Qed.

(** [updateSingleBlocklist] up to its test of the modification time. *)
Lemma updateSingleBlocklist_mtime_check env settings filename w :
  updateSingleBlocklist env settings filename w
  = match List.find (fun b => String.eqb (file b) filename) (blocklistFiles (cache w)) with
    | None => (Ok false, w)
    | Some blocklist =>
        match disk w !! path blocklist with
        | None =>
            (Throw ("ENOENT: no such file or directory, stat '" +:+ path blocklist +:+ "'"), w)
        | Some node =>
            if bool_decide (lastUpdateWriteTime (cache w) !! filename = Some (mtimeMs node))
            then (Ok false, w)
            else reload_source env settings filename (path blocklist)
                   (with_cache (set_lastUpdateWriteTime <[filename := mtimeMs node]>) w)
        end
    end.
Proof.
  unfold updateSingleBlocklist, bind, gets, statSync, ret, modify.
  destruct (List.find _ _) as [blocklist|]; [|reflexivity].
  destruct (disk w !! path blocklist) as [node|]; [|reflexivity].
  by case_bool_decide.
Qed.



(** ** C5: what a reload keeps of a file's entries *)

#[local] Instance same_store_refl : Reflexive same_store.
Proof. intros w. repeat split. Qed.
#[local] Instance same_store_trans : Transitive same_store.
Proof. intros a b c (?&?&?) (?&?&?). repeat split; congruence. Qed.

Lemma quiet_refl w : quiet w w.
Proof. repeat split. Qed.

Lemma quiet_trans w1 w2 w3 : quiet w1 w2 -> quiet w2 w3 -> quiet w1 w3.
Proof. intros [(?&?&?) ?] [(?&?&?) ?]. repeat split; congruence. Qed.

Lemma item_has_valid_tth_entry item w :
  is_entry item = true ->
  exists w', item_has_valid_tth item w = (Ok (entry_is_valid item), w') /\ quiet w w'.
Proof.
  unfold is_entry, item_has_valid_tth, entry_is_valid, entry_tth.
  destruct item as [| | | | |?|fields]; try discriminate.
  unfold bind, lift; cbn [get_prop].
  destruct (assoc "tth" fields) as [| | | |s| |] eqn:Htth; try discriminate; intros _.
  - exists w. split; [reflexivity|apply quiet_refl].
  - cbn [truthy]. destruct (String.eqb_spec s "") as [->|Hne]; cbn [negb].
    + exists w. split; [reflexivity|apply quiet_refl].
    + unfold isValidTTH. cbn [tthRegex_test_val].
      destruct (tthRegex_test s); cbn [negb].
      * exists w. split; [reflexivity|apply quiet_refl].
      * eexists. split; [reflexivity|repeat split].
Qed.

Lemma some_entries items :
  Forall (fun item => is_entry item = true) items ->
  forall w, exists w',
    some item_has_valid_tth items w = (Ok (existsb entry_is_valid items), w')
    /\ quiet w w'.
Proof.
  induction 1 as [|item items Hitem _ IH]; intros w; cbn [some existsb].
  - exists w. split; [reflexivity|apply quiet_refl].
  - destruct (item_has_valid_tth_entry item w Hitem) as (w1 & Hrun & Hquiet).
    unfold bind. rewrite Hrun. destruct (entry_is_valid item); cbn [orb].
    + exists w1. split; [reflexivity|exact Hquiet].
    + destruct (IH w1) as (w2 & Hrest & Hquiet2).
      exists w2. split; [exact Hrest|]. by eapply quiet_trans.
Qed.

Lemma valid_ids_cons item items :
  valid_ids (item :: items)
  = match entry_tth item with
    | Some s => if tthRegex_test s then {[MStr s]} ∪ valid_ids items else valid_ids items
    | None => valid_ids items
    end.
Proof.
  unfold valid_ids.
  change (omap entry_tth (item :: items))
    with (match entry_tth item with
          | Some s => s :: omap entry_tth items
          | None => omap entry_tth items
          end).
  destruct (entry_tth item) as [s|]; [|reflexivity].
  rewrite filter_cons. destruct (tthRegex_test s) eqn:Hs.
  - rewrite decide_True by done. reflexivity.
  - rewrite decide_False by discriminate. reflexivity.
Qed.

Lemma entry_tth_get_prop item s : entry_tth item = Some s -> get_prop item "tth" = Ok (JStr s).
Proof.
  unfold entry_tth. destruct item as [| | | | | |fields]; try discriminate.
  cbn [get_prop]. destruct (assoc "tth" fields); try discriminate. congruence.
Qed.

(** Loading a list of entries adds their valid identifiers, and nothing
    else, to the aggregate set and to the local set. *)
Lemma load_tths_entries items :
  Forall (fun item => is_entry item = true) items ->
  forall tthSet w, exists w',
    load_tths items tthSet w = (Ok (valid_ids items ∪ tthSet), w')
    /\ blockedTTHSet (cache w') = valid_ids items ∪ blockedTTHSet (cache w)
    /\ disk w' = disk w
    /\ posted w' = posted w.
Proof.
  induction 1 as [|item items Hitem _ IH]; intros tthSet w; cbn [load_tths].
  - exists w. unfold valid_ids; cbn. split; [|split; [|done]].
    + unfold ret. f_equal. f_equal. set_solver.
    + set_solver.
  - destruct (item_has_valid_tth_entry item w Hitem) as (w1 & Hrun & (Hc & Hd & _) & Hp).
    unfold bind at 1. rewrite Hrun. rewrite valid_ids_cons. unfold entry_is_valid.
    destruct (entry_tth item) as [s|] eqn:Hs; [destruct (tthRegex_test s)|].
    + unfold bind at 1, lift at 1. rewrite (entry_tth_get_prop _ _ Hs).
      unfold bind at 1, modify at 1.
      destruct (IH (set_add (JStr s) tthSet)
                   (with_cache (set_blockedTTHSet (set_add (JStr s))) w1))
        as (w2 & Hrest & Hset & Hdisk & Hposted).
      exists w2. rewrite Hrest. cbn in Hset, Hdisk, Hposted |- *.
      rewrite Hset, Hdisk, Hposted, Hc, Hd, Hp.
      split; [f_equal; f_equal; set_solver|]. split; [set_solver|done].
    + destruct (IH tthSet w1) as (w2 & Hrest & Hset & Hdisk & Hposted).
      exists w2. rewrite Hrest, Hset, Hdisk, Hposted, Hc, Hd, Hp. done.
    + destruct (IH tthSet w1) as (w2 & Hrest & Hset & Hdisk & Hposted).
      exists w2. rewrite Hrest, Hset, Hdisk, Hposted, Hc, Hd, Hp. done.
Qed.

(** Reading a file whose text parses. *)
Lemma read_parsed env p node j w {A} (blank : M A) (k : jsval -> M A) :
  disk w !! p = Some node ->
  parsed env (data node) = Ok j ->
  bind (readFileSync p)
    (fun data => match data with
                 | Blank => blank
                 | _ => bind (JSON_parse env data) k
                 end) w
  = k j w.
Proof.
  intros Hw Hp. unfold bind at 1, readFileSync. rewrite Hw.
  destruct (data node); try discriminate; unfold bind, JSON_parse, lift; by rewrite Hp.
Qed.

(** Validation of a file of entries reads it without touching it, and
    notifies the host only when it rejects the file. *)
Lemma validateBlocklistFile_entries env p node fields items :
  parsed env (data node) = Ok (JObj fields) ->
  assoc "tths" fields = JArr items ->
  Forall (fun item => is_entry item = true) items ->
  exists v, forall w, disk w !! p = Some node ->
    exists w', validateBlocklistFile env p w = (Ok v, w')
               /\ same_store w w'
               /\ (valid v = true -> posted w' = posted w).
Proof.
  intros Hdata Htths Hentries.
  destruct (negb (truthy (assoc "url" fields)) || strict_eq (assoc "url" fields) JNull
            || negb (isValidBlocklistURL env (assoc "url" fields))) eqn:Hlocal.
  - eexists. intros w Hw.
    unfold validateBlocklistFile, try_catch.
    rewrite (read_parsed env p node (JObj fields)) by done.
    unfold bind, lift, ret. cbn [get_prop]. rewrite Hlocal.
    eexists. split; [reflexivity|repeat split].
  - destruct (negb (existsb entry_is_valid items) && (0 <? Z.of_nat (length items)))
      eqn:Hnone; eexists; intros w Hw;
      unfold validateBlocklistFile, try_catch;
      rewrite (read_parsed env p node (JObj fields)) by done;
      unfold bind, lift, ret; cbn [get_prop]; rewrite Hlocal, Htths;
      cbn [isArray negb array_items];
      destruct (some_entries items Hentries w) as (w1 & -> & Hquiet);
      rewrite Hnone; unfold post, modify;
      (eexists; split; [reflexivity|]);
      destruct Hquiet as ((Hc & Hd & Hr) & Hp); repeat split; cbn; try assumption;
      intros; first [discriminate | assumption].
Qed.

(** C5. Let a registered source be enabled and accepted by
    [validateBlocklistFile], let its file hold a [tths] array of entries
    [items], and let the file's modification time differ from the one last
    processed. Then [updateSingleBlocklist] reloads it and returns true; the
    per-source set is exactly the set of valid identifiers occurring in
    [items] (invalid ones are dropped, the others all kept), these
    identifiers replace the source's former ones in the aggregate set, and
    no notification is posted. *)
Theorem updateSingleBlocklist_roundtrip env settings filename blocklist node j items w :
  List.find (fun b => String.eqb (file b) filename) (blocklistFiles (cache w))
    = Some blocklist ->
  disk w !! path blocklist = Some node ->
  parsed env (data node) = Ok j ->
  get_prop j "tths" = Ok (JArr items) ->
  Forall (fun item => is_entry item = true) items ->
  lastUpdateWriteTime (cache w) !! filename <> Some (mtimeMs node) ->
  source_enabled settings filename = true ->
  structurally_valid env (path blocklist) w ->
  exists w',
    updateSingleBlocklist env settings filename w = (Ok true, w')
    /\ blocklistTTHMap (cache w') !! filename = Some (valid_ids items)
    /\ blockedTTHSet (cache w')
       = valid_ids items
         ∪ (blockedTTHSet (cache w) ∖ default ∅ (blocklistTTHMap (cache w) !! filename))
    /\ posted w' = posted w.
Proof.
  intros Hfind Hdisk Hdata Htths Hentries Hmtime Henabled (v & wv & Hvalidate & Hvalid).
  destruct j as [| | | | | |fields]; try discriminate.
  cbn [get_prop] in Htths. injection Htths as Htths.
  destruct (validateBlocklistFile_entries env (path blocklist) node fields items
              Hdata Htths Hentries) as (v0 & Hall).
  destruct (Hall w Hdisk) as (wv' & Hvalidate' & _).
  rewrite Hvalidate in Hvalidate'. injection Hvalidate' as <- _.
  rewrite updateSingleBlocklist_mtime_check, Hfind, Hdisk.
  rewrite bool_decide_eq_false_2 by exact Hmtime.
  unfold reload_source, settingValue_or_enabled.
  unfold bind at 1, gets at 1. unfold bind at 1, modify at 1.
  unfold bind at 1, modify at 1. unfold bind at 1, try_catch at 1, lift at 1.
  set (w0 := with_cache (set_blocklistTTHMap (delete filename))
               (with_cache (set_blockedTTHSet
                  (fun s => s ∖ default ∅ (blocklistTTHMap (cache w) !! filename)))
                  (with_cache (set_lastUpdateWriteTime <[filename := mtimeMs node]>) w))).
  assert (Hsetting : exists sv,
    match settings_getValue settings (settingKey_of filename) with
    | Ok a => (Ok a, w0)
    | Throw e => ret (JBool true) w0
    end = (Ok sv, w0) /\ truthy sv = true).
  { unfold source_enabled in Henabled.
    destruct (settings_getValue settings (settingKey_of filename)) as [sv|];
      eexists; (split; [reflexivity|]); [exact Henabled|reflexivity]. }
  destruct Hsetting as (sv & Hsv & Htruthy).
  change (cache (with_cache (set_lastUpdateWriteTime <[filename := mtimeMs node]>) w))
    with (set_lastUpdateWriteTime <[filename := mtimeMs node]> (cache w)).
  cbn [blocklistTTHMap set_lastUpdateWriteTime]. fold w0. rewrite Hsv, Htruthy.
  unfold bind at 1.
  destruct (Hall w0) as (w3 & Hrun & (Hc & Hd & _) & Hp); [exact Hdisk|].
  rewrite Hrun, Hvalid.
  unfold try_catch, bind at 1, readFileSync. rewrite Hd.
  change (disk w0) with (disk w). rewrite Hdisk.
  unfold bind at 1, JSON_parse, lift at 1. rewrite Hdata.
  unfold bind at 1, lift at 1; cbn [get_prop]. rewrite Htths.
  unfold bind at 1, lift at 1; cbn [array_items].
  destruct (load_tths_entries items Hentries ∅ w3) as (w4 & Hload & Hset & _ & Hposted).
  unfold bind at 1. rewrite Hload.
  unfold bind at 1, modify at 1.
  assert (Htoken : exists token, version_token (JObj fields) = Ok token).
  { unfold version_token; cbn [get_prop]. eauto. }
  destruct Htoken as [token Htoken].
  unfold bind at 1, lift at 1. rewrite Htoken.
  unfold bind at 1, modify at 1, ret.
  eexists. split; [reflexivity|].
  cbn [cache with_cache blocklistTTHMap blockedTTHSet set_blocklistTTHMap
       set_blocklistVersions posted].
  split; [|split].
  - rewrite lookup_insert_eq. f_equal. set_solver.
  - rewrite Hset, Hc. reflexivity.
  - rewrite Hposted, (Hp Hvalid). reflexivity.
Qed.

Example valid_ids_mixed : valid_ids mixed_entries = {[MStr tth_A]}.
Proof. vm_compute. reflexivity. Qed.

Lemma updateSingleBlocklist_roundtrip_witness :
  exists w',
    updateSingleBlocklist example_env all_enabled "mixed.json" world_mixed = (Ok true, w')
    /\ blocklistTTHMap (cache w') !! "mixed.json" = Some (valid_ids mixed_entries)
    /\ blockedTTHSet (cache w')
       = valid_ids mixed_entries
         ∪ (blockedTTHSet (cache world_mixed)
            ∖ default ∅ (blocklistTTHMap (cache world_mixed) !! "mixed.json"))
    /\ posted w' = posted world_mixed.
Proof.
  apply (updateSingleBlocklist_roundtrip example_env all_enabled "mixed.json"
           (local_source "mixed.json")
           {| data := Parsed (local_content mixed_entries); mtimeMs := 1756280000000 |}
           (local_content mixed_entries) mixed_entries world_mixed).
  - reflexivity.
  - reflexivity.
  - reflexivity.
  - reflexivity.
  - repeat constructor.
  - vm_compute. discriminate.
  - reflexivity.
  - eexists. eexists. split; reflexivity.
Defined.

(** ** C4, amended: reconciling twice a source that needs no repair *)




(** ** C10: the duplicate check of the local editor *)

Lemma post_same_store e : preserves same_store (post e).
Proof. intros w. repeat split. Qed.
Lemma console_warn_same_store line : preserves same_store (console_warn line).
Proof. intros w. repeat split. Qed.
#[local] Hint Resolve post_same_store console_warn_same_store : frame.

Lemma await_post_same_store env e : preserves same_store (await_post env e).
Proof. unfold await_post. frame. Qed.
#[local] Hint Resolve await_post_same_store : frame.

Lemma isValidTTH_same_store id : preserves same_store (isValidTTH id).
Proof. unfold isValidTTH. frame. Qed.
#[local] Hint Resolve isValidTTH_same_store : frame.

Lemma addTTHFromSearch_same_store env entityId resultId :
  preserves same_store (addTTHFromSearch env entityId resultId).
Proof. unfold addTTHFromSearch. frame. Qed.

Lemma addTTHFromFilelist_same_store env entityId itemId :
  preserves same_store (addTTHFromFilelist env entityId itemId).
Proof. unfold addTTHFromFilelist. frame. Qed.
#[local] Hint Resolve addTTHFromSearch_same_store addTTHFromFilelist_same_store : frame.

Lemma set_has_true t s : MStr t ∈ s -> set_has (JStr t) s = true.
Proof. intros Ht. cbn. by apply bool_decide_eq_true. Qed.

Lemma set_add_elem v s t : MStr t ∈ set_add v s <-> v = JStr t \/ MStr t ∈ s.
Proof.
  unfold set_add.
  destruct v; cbn [as_member]; rewrite ?elem_of_union, ?elem_of_singleton;
    (split; [intros H; try destruct H as [H|H]|intros [H|H]]);
    auto; try discriminate; left; congruence.
Qed.

(** The loop of [addToBlocklist] never resolves to an identifier that was
    already in the aggregate set. *)
Lemma resolve_selected_skips env menuType entityId t selectedIds :
  forall addedTTHs w r w',
    MStr t ∈ blockedTTHSet (cache w) ->
    Forall (fun e => tth_of e <> JStr t) addedTTHs ->
    resolve_selected env menuType entityId selectedIds addedTTHs w = (r, w') ->
    disk w' = disk w
    /\ MStr t ∈ blockedTTHSet (cache w')
    /\ (MStr t ∈ internal_set w' -> MStr t ∈ internal_set w)
    /\ match r with
       | Ok added => Forall (fun e => tth_of e <> JStr t) added
       | Throw _ => True
       end.
Proof.
  induction selectedIds as [|id rest IH]; intros addedTTHs w r w' Hin Hnot; cbn [resolve_selected].
  { intros [= <- <-]. auto. }
  unfold bind at 1.
  set (resolve := if String.eqb menuType "grouped_search_result"
                  then addTTHFromSearch env entityId id
                  else if String.eqb menuType "filelist_item"
                       then addTTHFromFilelist env entityId id
                       else ret JNull).
  assert (Hframe : preserves same_store resolve) by (unfold resolve; frame).
  specialize (Hframe w). destruct (resolve w) as [[tth|e] w1]; cbn [snd] in Hframe.
  2:{ intros [= <- <-]. destruct Hframe as (Hc & Hd & _). unfold internal_set.
      rewrite Hc. auto. }
  destruct Hframe as (Hc & Hd & _).
  unfold bind at 1, gets at 1.
  destruct (truthy tth && negb (set_has tth (blockedTTHSet (cache w1)))) eqn:Hnew.
  - unfold bind at 1, modify at 1. unfold bind at 1, gets at 1. unfold bind at 1, modify at 1.
    intros Hrest. apply IH in Hrest as (Hd' & Hin' & Hint' & Hr').
    + cbn in Hd'. rewrite Hd', Hd. split; [done|]. split; [done|]. split; [|done].
      intros Hi. apply Hint' in Hi. unfold internal_set in Hi |- *. cbn in Hi.
      rewrite lookup_insert_eq in Hi. cbn [default] in Hi.
      apply set_add_elem in Hi as [->|Hi]; [|by rewrite <- Hc].
      apply andb_true_iff in Hnew as [_ Hnew]. rewrite Hc in Hnew.
      by rewrite (set_has_true _ _ Hin) in Hnew.
    + cbn. apply set_add_elem. right. by rewrite Hc.
    + apply Forall_app. split; [done|]. constructor; [|constructor].
      cbn. intros ->. apply andb_true_iff in Hnew as [_ Hnew]. rewrite Hc in Hnew.
      by rewrite (set_has_true _ _ Hin) in Hnew.
  - intros Hrest. apply IH in Hrest as (Hd' & Hin' & Hint' & Hr').
    + rewrite Hd', Hd. split; [done|]. split; [done|]. split; [|done].
      intros Hi. apply Hint' in Hi. unfold internal_set in *. by rewrite <- Hc.
    + by rewrite Hc.
    + done.
Qed.

Lemma assoc_set_assoc_eq k v fields : assoc k (set_assoc k v fields) = v.
Proof.
  induction fields as [|[k' v'] fields IH]; cbn.
  - by rewrite String.eqb_refl.
  - destruct (String.eqb k k') eqn:Hk; cbn; rewrite ?String.eqb_refl, ?Hk; done.
Qed.

Lemma assoc_set_assoc_ne k k' v fields :
  k <> k' -> assoc k (set_assoc k' v fields) = assoc k fields.
Proof.
  intros Hne. apply String.eqb_neq in Hne.
  induction fields as [|[k0 v0] fields IH]; cbn.
  - by rewrite Hne.
  - destruct (String.eqb_spec k' k0) as [<-|Hk0]; cbn.
    + by rewrite Hne.
    + destruct (String.eqb k k0); [done|exact IH].
Qed.

(** The value written back lists what the value read listed, followed by
    the identifiers of the new entries. *)
Lemma listed_with_new_entries env blocklist addedTTHs updated t :
  with_new_entries env blocklist addedTTHs = Ok updated ->
  Forall (fun e => tth_of e <> JStr t) addedTTHs ->
  updated <> JUndefined
  /\ exists added,
       (JStr t ∉ added) /\ listed_tths updated = listed_tths blocklist ++ added.
Proof.
  intros Hnew Hnot. destruct blocklist as [| | | | |items|fields]; try discriminate.
  - injection Hnew as <-. split; [discriminate|]. exists [].
    split; [apply not_elem_of_nil|by rewrite app_nil_r].
  - injection Hnew as <-. split; [discriminate|]. exists (map tth_of addedTTHs). split.
    + intros Hin. apply list_elem_of_fmap in Hin as (e & He & Hin).
      rewrite Forall_forall in Hnot. by destruct (Hnot e Hin).
    + unfold listed_tths; cbn [get_prop].
      rewrite assoc_set_assoc_ne by discriminate. rewrite assoc_set_assoc_eq.
      rewrite map_app. by destruct (assoc "tths" fields).
Qed.

Lemma writeFileSync_defined env p j w :
  j <> JUndefined ->
  writeFileSync env p j w
  = if bool_decide (p ∈ readonly w)
    then (Throw ("EACCES: permission denied, open '" +:+ p +:+ "'"), w)
    else (Ok tt, with_disk <[p := {| data := Formatted j; mtimeMs := write_mtime env |}]> w).
Proof. destruct j; [congruence|reflexivity..]. Qed.

(** Writing the new entries leaves the file alone or replaces it by the
    text of a value that lists what a reader found there, followed by
    identifiers other than [t]. *)
Lemma write_entries_listing env addedTTHs t w r w' :
  Forall (fun e => tth_of e <> JStr t) addedTTHs ->
  write_entries env addedTTHs w = (r, w') ->
  blockedTTHSet (cache w') = blockedTTHSet (cache w)
  /\ blocklistTTHMap (cache w') = blocklistTTHMap (cache w)
  /\ (disk w' = disk w
      \/ exists added,
           (JStr t ∉ added)
           /\ written_listing w' (INTERNAL_BLOCKLIST_FILE env)
                (listed_in_file env w (INTERNAL_BLOCKLIST_FILE env) ++ added)).
Proof.
  intros Hnot. unfold write_entries.
  set (internal := INTERNAL_BLOCKLIST_FILE env).
  assert (Hwrite : forall blocklist,
    listed_tths blocklist = listed_in_file env w internal ->
    forall r w',
      (updated <- lift (with_new_entries env blocklist addedTTHs) ;;
       writeFileSync env internal updated ;;;
       modify (with_cache
                 (set_lastUpdateWriteTime <[INTERNAL_BLOCKLIST_NAME := date_now env]>)) ;;;
       await_post env
         {| severity := info;
            text := "Added " +:+ pretty (Z.of_nat (length addedTTHs))
                    +:+ " TTH(s) to internal blocklist: " +:+ join_tths addedTTHs |}) w
      = (r, w') ->
      blockedTTHSet (cache w') = blockedTTHSet (cache w)
      /\ blocklistTTHMap (cache w') = blocklistTTHMap (cache w)
      /\ (disk w' = disk w
          \/ exists added,
               (JStr t ∉ added)
               /\ written_listing w' internal (listed_in_file env w internal ++ added))).
  { intros blocklist Hlisted r0 w0. unfold bind at 1, lift at 1.
    destruct (with_new_entries env blocklist addedTTHs) as [updated|e] eqn:Hnew.
    2:{ intros [= <- <-]. auto. }
    destruct (listed_with_new_entries _ _ _ _ t Hnew Hnot) as (Hdef & added & Hadded & Hlist).
    unfold bind at 1. rewrite (writeFileSync_defined _ _ _ _ Hdef). case_bool_decide.
    { intros [= <- <-]. auto. }
    unfold bind at 1, modify at 1, await_post, post. unfold bind, modify.
    assert (Hfinal : forall w2,
              disk w2 = <[internal := {| data := Formatted updated;
                                         mtimeMs := write_mtime env |}]> (disk w) ->
              written_listing w2 internal (listed_in_file env w internal ++ added)).
    { intros w2 Hd. exists updated, (write_mtime env).
      rewrite Hd, lookup_insert_eq, Hlist, Hlisted. done. }
    destruct (socket_error env); intros [= <- <-]; cbn [cache with_cache with_posted
      blockedTTHSet blocklistTTHMap set_lastUpdateWriteTime];
      (split; [done|]); (split; [done|]); right; exists added;
      (split; [done|]); apply Hfinal; reflexivity. }
  unfold bind at 1, existsSync, gets at 1.
  destruct (disk w !! internal) as [node|] eqn:Hnode.
  - rewrite bool_decide_eq_true_2 by eauto.
    unfold bind at 1. unfold bind at 1, readFileSync at 1. rewrite Hnode.
    assert (Hread : listed_in_file env w internal
                    = match parsed env (data node) with Ok j => listed_tths j | Throw _ => [] end).
    { unfold listed_in_file. by rewrite Hnode. }
    destruct (data node) as [|err|j|j] eqn:Hdata.
    + unfold ret at 1. apply Hwrite. by rewrite Hread.
    + unfold JSON_parse, lift at 1; cbn [parsed]. intros [= <- <-]. auto.
    + unfold JSON_parse, lift at 1; cbn [parsed]. apply Hwrite. by rewrite Hread.
    + unfold JSON_parse, lift at 1. destruct (parsed env (Formatted j)) as [j'|e] eqn:Hp.
      * apply Hwrite. by rewrite Hread.
      * intros [= <- <-]. auto.
  - rewrite bool_decide_eq_false_2 by (intros [? ?]; discriminate).
    unfold bind at 1, ret at 1. apply Hwrite.
    unfold listed_in_file. by rewrite Hnode.
Qed.

Lemma written_listing_disk w w' p tths :
  disk w' = disk w -> written_listing w p tths -> written_listing w' p tths.
Proof. intros Hd (updated & m & Hnode & Hl). exists updated, m. by rewrite Hd. Qed.

(** C10. An identifier that is in the aggregate set when [addToBlocklist]
    is called is skipped whichever source contributed it, and whether or not
    the internal blocklist lists it: the call leaves the files alone, or
    replaces the internal blocklist file by the text of a value that lists
    what a reader found there before, followed by identifiers other than
    this one. The identifier does not enter the internal per-source set
    either, and it stays in the aggregate set. *)
Theorem addToBlocklist_skips_known env settings selectedIds entityId menuType t w :
  MStr t ∈ blockedTTHSet (cache w) ->
  let w' := snd (addToBlocklist env settings selectedIds entityId menuType w) in
  let internal := INTERNAL_BLOCKLIST_FILE env in
  (disk w' = disk w
   \/ exists added,
        (JStr t ∉ added)
        /\ written_listing w' internal (listed_in_file env w internal ++ added))
  /\ (MStr t ∉ internal_set w -> MStr t ∉ internal_set w')
  /\ MStr t ∈ blockedTTHSet (cache w').
Proof.
  intros Hin. cbn zeta.
  set (internal := INTERNAL_BLOCKLIST_FILE env).
  set (Q := fun w0 : World =>
    (disk w0 = disk w
     \/ exists added,
          (JStr t ∉ added)
          /\ written_listing w0 internal (listed_in_file env w internal ++ added))
    /\ (MStr t ∈ internal_set w0 -> MStr t ∈ internal_set w)
    /\ MStr t ∈ blockedTTHSet (cache w0)).
  assert (Hdone : forall w0, Q w0 ->
    (disk w0 = disk w
     \/ exists added,
          (JStr t ∉ added)
          /\ written_listing w0 internal (listed_in_file env w internal ++ added))
    /\ (MStr t ∉ internal_set w -> MStr t ∉ internal_set w0)
    /\ MStr t ∈ blockedTTHSet (cache w0)).
  { intros w0 (Hf & Hi & Hb). tauto. }
  assert (Hsame : forall w0 w1, same_store w0 w1 -> Q w0 -> Q w1).
  { intros w0 w1 (Hc & Hd & _) (Hf & Hi & Hb). unfold Q, internal_set in *.
    rewrite Hc, Hd. split; [|done].
    destruct Hf as [Hf|(added & Hadded & Hf)]; [by left|right].
    exists added. split; [done|]. by apply (written_listing_disk w0). }
  assert (Hposted : forall e w0 out, await_post env e w0 = out -> Q w0 -> Q (snd out)).
  { intros e w0 out <-. apply Hsame. apply await_post_same_store. }
  assert (Hstart : Q w) by (unfold Q; auto).
  apply Hdone.
  destruct (addToBlocklist env settings selectedIds entityId menuType w) as [r w'] eqn:Hrun.
  cbn [snd]. revert Hrun. unfold addToBlocklist.
  destruct (settings_invalid settings).
  { intros Hrun. by apply Hposted in Hrun. }
  unfold bind at 1, lift at 1.
  destruct (settings_getValue settings "internal_block_list") as [enabled|e];
    [|by intros [= <- <-]].
  destruct (negb (truthy enabled)).
  { intros Hrun. by apply Hposted in Hrun. }
  unfold bind at 1.
  destruct (resolve_selected env menuType entityId selectedIds [] w) as [[added|e] w1] eqn:Hres;
    apply (resolve_selected_skips _ _ _ t) in Hres as (Hd & Hb & Hi & Hadded);
    try done; try by constructor.
  2:{ intros [= <- <-]. unfold Q. auto. }
  assert (Hw1 : Q w1) by (unfold Q; auto).
  destruct (0 <? length added)%nat.
  2:{ intros Hrun. by apply Hposted in Hrun. }
  unfold try_catch.
  destruct (write_entries env added w1) as [[u|e] w2] eqn:Hwrite;
    apply (write_entries_listing _ _ t) in Hwrite as (Hb2 & Hm2 & Hl2); try done.
  - intros [= <- <-]. unfold Q, internal_set in *. rewrite Hb2, Hm2.
    split; [|done].
    destruct Hl2 as [Hl2|(added' & Hadded' & Hl2)]; [left; congruence|right].
    exists added'. split; [done|].
    unfold listed_in_file in Hl2 |- *. by rewrite Hd in Hl2.
  - intros Hrun. apply Hposted in Hrun; [exact Hrun|].
    unfold Q, internal_set in *. rewrite Hb2, Hm2.
    split; [|done].
    destruct Hl2 as [Hl2|(added' & Hadded' & Hl2)]; [left; congruence|right].
    exists added'. split; [done|].
    unfold listed_in_file in Hl2 |- *. by rewrite Hd in Hl2.
Qed.

(** The selection of [world_after_add]: only [tth_C] is appended to the
    internal blocklist, which is created for it. *)
Example addToBlocklist_appends_only_new :
  listed_in_file example_env world_loaded (INTERNAL_BLOCKLIST_FILE example_env) = []
  /\ listed_in_file example_env world_after_add (INTERNAL_BLOCKLIST_FILE example_env)
     = [JStr tth_C]
  /\ internal_set world_after_add = {[MStr tth_C]}
  /\ blockedTTHSet (cache world_after_add) = {[MStr tth_A; MStr tth_B; MStr tth_C]}.
Proof. repeat split; vm_compute; reflexivity. Qed.

Lemma addToBlocklist_skips_known_witness :
  (disk world_after_add = disk world_loaded
   \/ exists added,
        (JStr tth_A ∉ added)
        /\ written_listing world_after_add (INTERNAL_BLOCKLIST_FILE example_env)
             (listed_in_file example_env world_loaded (INTERNAL_BLOCKLIST_FILE example_env)
              ++ added))
  /\ (MStr tth_A ∉ internal_set world_loaded -> MStr tth_A ∉ internal_set world_after_add)
  /\ MStr tth_A ∈ blockedTTHSet (cache world_after_add).
Proof.
  apply (addToBlocklist_skips_known example_env all_enabled [JStr tth_A; JStr tth_C]
           (JNum 7) "grouped_search_result" tth_A world_loaded).
  apply (bool_decide_unpack _). vm_compute. exact I.
Defined.

(** * Further properties *)

(** ** The formatter of blocklist files *)

Lemma join_split s : join_with newline (split_lines s) = s.
Proof.
  assert (Hne : forall s, split_lines s <> []).
  { intros [|c r]; cbn; [done|]. destruct (c =? 10)%N; [done|].
    by destruct (split_lines r). }
  induction s as [|c s IH]; [reflexivity|].
  cbn [split_lines]. destruct (N.eqb_spec c 10) as [->|Hc].
  - destruct (split_lines s) as [|l ls] eqn:Hs; [by destruct (Hne s)|].
    change (join_with newline ([] :: l :: ls)) with (newline ++ join_with newline (l :: ls)).
    by rewrite IH.
  - destruct (split_lines s) as [|l ls] eqn:Hs; [by destruct (Hne s)|].
    rewrite <- IH. destruct ls; reflexivity.
Qed.

Lemma format_lines_outside lines : forall pending result,
  Forall (fun line => trim line <> tths_opening) lines ->
  format_lines lines false pending result = result ++ lines.
Proof.
  induction lines as [|line rest IH]; intros pending result Hl; cbn [format_lines].
  - by rewrite app_nil_r.
  - inversion Hl as [|? ? Hline Hrest]; subst.
    rewrite bool_decide_eq_false_2 by done. cbn [andb].
    rewrite IH by done. by rewrite <- app_assoc.
Qed.






(** Closes the goals that tell lines apart. *)
Ltac lines_differ :=
  repeat constructor; try (intros Heq; vm_compute in Heq; discriminate).



(** The single lines of the sample: the runs of white space of the comments,
    the no-break space among them, have become one space each. *)
Example single_line_sample : map single_line sample_elements = sample_single_lines.
Proof. vm_compute. reflexivity. Qed.

(** X2. [formatBlocklistJSON] returns a text none of whose lines opens a
    [tths] array as it is. *)
Theorem formatBlocklistJSON_without_tths pretty :
  Forall (fun line => trim line <> tths_opening) (split_lines pretty) ->
  formatBlocklistJSON pretty = pretty.
Proof.
  intros Hl. unfold formatBlocklistJSON.
  rewrite format_lines_outside by done. cbn [app]. apply join_split.
Qed.

Lemma formatBlocklistJSON_without_tths_witness : formatBlocklistJSON plain_pretty = plain_pretty.
Proof.
  apply formatBlocklistJSON_without_tths.
  let lines := eval vm_compute in (split_lines plain_pretty) in
  change (split_lines plain_pretty) with lines.
  lines_differ.
Defined.

(** ** The identifier validator on other values *)



(** ** Validation of a source file *)

#[local] Instance may_reset_refl env p : Reflexive (may_reset env p).
Proof. intros w. repeat split. by left. Qed.
#[local] Instance may_reset_trans env p : Transitive (may_reset env p).
Proof.
  intros a b c (Hc1 & Hr1 & Hd1) (Hc2 & Hr2 & Hd2). split; [congruence|]. split; [congruence|].
  destruct Hd1 as [Hd1|Hd1], Hd2 as [Hd2|Hd2]; rewrite Hd2, Hd1; auto.
  right. by rewrite insert_insert_eq.
Qed.

Lemma same_store_may_reset env p {A} (m : M A) :
  preserves same_store m -> preserves (may_reset env p) m.
Proof. intros H w. destruct (H w) as (Hc & Hd & Hr). repeat split; auto. Qed.

Lemma readFileSync_same_store p : preserves same_store (readFileSync p).
Proof. intros w. unfold readFileSync. destruct (disk w !! p); repeat split. Qed.
#[local] Hint Resolve readFileSync_same_store : frame.

Lemma item_has_valid_tth_same_store item : preserves same_store (item_has_valid_tth item).
Proof. unfold item_has_valid_tth. frame. Qed.
#[local] Hint Resolve item_has_valid_tth_same_store : frame.

Lemma defaultBlocklist_defined env p : defaultBlocklist env p <> JUndefined.
Proof. discriminate. Qed.

Lemma writeFileSync_default_may_reset env p :
  preserves (may_reset env p) (writeFileSync env p (defaultBlocklist env p)).
Proof.
  intros w. rewrite writeFileSync_defined by discriminate.
  case_bool_decide; cbn; repeat split; auto.
Qed.

Lemma validateBlocklistFile_may_reset env p w :
  may_reset env p w (snd (validateBlocklistFile env p w)).
Proof.
  revert w. change (preserves (may_reset env p) (validateBlocklistFile env p)).
  unfold validateBlocklistFile. cbv zeta.
  repeat first
    [ apply writeFileSync_default_may_reset
    | apply same_store_may_reset; solve [frame]
    | frame_step ].
Qed.

Lemma returns_ret {A} (a : A) : returns (ret a).
Proof. intros w. by exists a. Qed.

Lemma returns_bind {A B} (m : M A) (k : A -> M B) :
  returns m -> (forall a, returns (k a)) -> returns (bind m k).
Proof.
  intros Hm Hk w. unfold bind. destruct (Hm w) as [a Ha].
  destruct (m w) as [[a'|e] w1]; cbn in Ha; [|discriminate]. apply Hk.
Qed.

Lemma returns_try_catch {A} (m : M A) (h : string -> M A) :
  (forall e, returns (h e)) -> returns (try_catch m h).
Proof.
  intros Hh w. unfold try_catch. destruct (m w) as [[a|e] w1]; [by exists a|apply Hh].
Qed.

Lemma returns_post e : returns (post e).
Proof. intros w. by exists tt. Qed.

Lemma validateBlocklistFile_returns env p w :
  exists v, fst (validateBlocklistFile env p w) = Ok v.
Proof.
  revert w. change (returns (validateBlocklistFile env p)).
  unfold validateBlocklistFile. apply returns_try_catch. intros e.
  apply returns_bind; [apply returns_post|intros _]. cbv zeta.
  apply returns_try_catch. intros e'.
  apply returns_bind; [apply returns_post|intros _]. apply returns_ret.
Qed.

(** What [validateBlocklistFile] reports as the url. *)
Lemma validateBlocklistFile_url env p w v w' :
  validateBlocklistFile env p w = (Ok v, w') ->
  v_url v = JNull \/ isValidBlocklistURL env (v_url v) = true.
Proof.
  assert (Hdefault : forall q,
            v_url (validation_of_default (defaultBlocklist env q)) = JNull
            \/ isValidBlocklistURL env (v_url (validation_of_default (defaultBlocklist env q)))
               = true).
  { intros q. unfold validation_of_default, defaultBlocklist. cbn.
    destruct (String.eqb q (INTERNAL_BLOCKLIST_FILE env)); [right|left]; reflexivity. }
  unfold validateBlocklistFile, try_catch.
  match goal with
  | |- context [match ?body w with _ => _ end] => destruct (body w) as [[v0|e] w1] eqn:Hbody
  end.
  - intros [= <- <-]. revert Hbody.
    unfold bind at 1, readFileSync. destruct (disk w !! p) as [node|]; [|discriminate].
    destruct (data node) as [|err|j|j].
    + cbv zeta. unfold bind at 1.
      destruct (writeFileSync env p (defaultBlocklist env p) w) as [[[]|e] w2]; [|discriminate].
      unfold bind, post, modify, ret. intros [= <- <-]. apply Hdefault.
    + discriminate.
    + unfold JSON_parse, bind, lift, ret. cbn [parsed].
      destruct (get_prop j "url") as [u|]; [|discriminate].
      destruct (get_prop j "version") as [ver|]; [|discriminate].
      destruct (get_prop j "updated_at") as [upd|]; [|discriminate].
      destruct (get_prop j "description") as [descr|]; [|discriminate].
      destruct (negb (truthy u) || strict_eq u JNull || negb (isValidBlocklistURL env u)) eqn:Hu.
      { intros [= <- <-]. by left. }
      apply orb_false_iff in Hu as [_ Hu]. apply negb_false_iff in Hu.
      destruct (get_prop j "tths") as [tths|]; [|discriminate].
      destruct (negb (isArray tths)).
      { unfold post, modify. intros [= <- <-]. by right. }
      destruct (array_items tths "some") as [items|]; [|discriminate].
      destruct (some item_has_valid_tth items w) as [[b|] w2]; [|discriminate].
      destruct (negb b && (0 <? Z.of_nat (length items))); unfold post, modify;
        intros [= <- <-]; by right.
    + unfold JSON_parse, bind, lift, ret. cbn [parsed].
      destruct (reparse env j) as [j'|]; [|discriminate].
      destruct (get_prop j' "url") as [u|]; [|discriminate].
      destruct (get_prop j' "version") as [ver|]; [|discriminate].
      destruct (get_prop j' "updated_at") as [upd|]; [|discriminate].
      destruct (get_prop j' "description") as [descr|]; [|discriminate].
      destruct (negb (truthy u) || strict_eq u JNull || negb (isValidBlocklistURL env u)) eqn:Hu.
      { intros [= <- <-]. by left. }
      apply orb_false_iff in Hu as [_ Hu]. apply negb_false_iff in Hu.
      destruct (get_prop j' "tths") as [tths|]; [|discriminate].
      destruct (negb (isArray tths)).
      { unfold post, modify. intros [= <- <-]. by right. }
      destruct (array_items tths "some") as [items|]; [|discriminate].
      destruct (some item_has_valid_tth items w) as [[b|] w2]; [|discriminate].
      destruct (negb b && (0 <? Z.of_nat (length items))); unfold post, modify;
        intros [= <- <-]; by right.
  - clear Hbody. cbv zeta. unfold bind at 1, post at 1, modify at 1, try_catch.
    unfold bind at 1.
    destruct (writeFileSync env p (defaultBlocklist env p) _) as [[[]|e'] w2].
    + unfold ret. intros [= <- <-]. apply Hdefault.
    + unfold bind, post, modify, ret. intros [= <- <-]. by left.
Qed.

Lemma validateBlocklistFile_handler_spec env p w e v w' :
  (post {| severity := error;
           text := "Failed to validate blocklist " +:+ path_basename p +:+ ": "
                   +:+ e +:+ ". Resetting to default" |} ;;;
   let d := defaultBlocklist env p in
   try_catch
     (writeFileSync env p d ;;;
      ret (validation_of_default d))
     (fun writeErr =>
        post {| severity := error;
                text := "Failed to reset blocklist " +:+ path_basename p +:+ ": "
                        +:+ writeErr |} ;;;
        ret {| valid := false; v_url := JNull; v_version := JStr "1.0.0";
               v_updated_at := JStr (iso_now env); v_description := JStr "" |})) w
  = (Ok v, w') ->
  ((p ∉ readonly w) /\ v = validation_of_default (defaultBlocklist env p)
   /\ disk w' = <[p := default_node env p]> (disk w)
   /\ posted w' = posted w
        ++ [{| severity := error;
               text := "Failed to validate blocklist " +:+ path_basename p +:+ ": "
                       +:+ e +:+ ". Resetting to default" |}])
  \/ (p ∈ readonly w /\ valid v = false /\ disk w' = disk w).
Proof.
  cbv zeta. unfold bind at 1, post at 1, modify at 1, try_catch, bind at 1.
  rewrite writeFileSync_defined by discriminate. cbn [readonly with_posted].
  case_bool_decide as Hro.
  - unfold bind, post, modify, ret. intros [= <- <-]. right. auto.
  - unfold ret. intros [= <- <-]. left. auto.
Qed.

(** A file that validation accepts exists, and is not blank. *)
Lemma validateBlocklistFile_valid_file env p w v w' :
  validateBlocklistFile env p w = (Ok v, w') ->
  valid v = true ->
  exists node, disk w' !! p = Some node /\ data node <> Blank.
Proof.
  unfold validateBlocklistFile, try_catch.
  match goal with
  | |- context [match ?body w with _ => _ end] =>
      destruct (body w) as [[v0|e] w1] eqn:Hbody
  end.
  - intros [= <- <-] Hvalid. revert Hbody.
    unfold bind at 1, readFileSync. destruct (disk w !! p) as [node|] eqn:Hnode; [|discriminate].
    destruct (data node) as [|err|j|j] eqn:Hdata.
    + cbv zeta. unfold bind at 1. rewrite writeFileSync_defined by discriminate.
      case_bool_decide; [discriminate|].
      unfold bind, post, modify, ret. intros [= <- <-]. cbn.
      rewrite lookup_insert_eq. eexists. split; [reflexivity|discriminate].
    + discriminate.
    + intros Hrest.
      match type of Hrest with
      | ?m w = _ => assert (Hframe : preserves same_store m) by frame
      end.
      destruct (Hframe w) as (_ & Hd & _). rewrite Hrest in Hd. cbn in Hd.
      exists node. rewrite Hd, Hnode, Hdata. split; [reflexivity|discriminate].
    + intros Hrest.
      match type of Hrest with
      | ?m w = _ => assert (Hframe : preserves same_store m) by frame
      end.
      destruct (Hframe w) as (_ & Hd & _). rewrite Hrest in Hd. cbn in Hd.
      exists node. rewrite Hd, Hnode, Hdata. split; [reflexivity|discriminate].
  - intros Hh Hvalid.
    destruct (validateBlocklistFile_handler_spec env p w1 e v w' Hh)
      as [(_ & _ & Hd & _)|(_ & Hv & _)]; [|congruence].
    rewrite Hd, lookup_insert_eq. eexists. split; [reflexivity|discriminate].
Qed.

(** X4. [validateBlocklistFile] never throws. It leaves the cache alone, and
    the disk too unless it replaces the file it validates by the default
    blocklist. The address it reports is [null] or one that
    [isValidBlocklistURL] accepts, and a file it reports as valid exists
    afterwards and is not blank. *)
Theorem validateBlocklistFile_outcome env p w :
  exists v w',
    validateBlocklistFile env p w = (Ok v, w')
    /\ may_reset env p w w'
    /\ (v_url v = JNull \/ isValidBlocklistURL env (v_url v) = true)
    /\ (valid v = true -> exists node, disk w' !! p = Some node /\ data node <> Blank).
Proof.
  destruct (validateBlocklistFile_returns env p w) as [v Hv].
  pose proof (validateBlocklistFile_may_reset env p w) as Hreset.
  destruct (validateBlocklistFile env p w) as [r w'] eqn:Hrun. cbn in Hv, Hreset. subst r.
  exists v, w'. split; [reflexivity|]. split; [exact Hreset|]. split.
  - by eapply validateBlocklistFile_url.
  - intros Hvalid. by eapply validateBlocklistFile_valid_file.
Qed.

Lemma malformed_item_throws item w :
  malformed_item item -> exists msg, item_has_valid_tth item w = (Throw msg, w).
Proof.
  intros [->|(t & Ht & Htruthy & Hre & Hstr)]; unfold item_has_valid_tth, bind, lift.
  - cbn. eauto.
  - rewrite Ht, Htruthy. unfold isValidTTH. rewrite Hre. cbn [negb].
    destruct t; try discriminate; unfold throw; eauto. by destruct (Hstr s).
Qed.

Lemma some_app_false {A} (f : A -> M bool) l1 l2 w w1 :
  some f l1 w = (Ok false, w1) -> some f (l1 ++ l2) w = some f l2 w1.
Proof.
  revert w. induction l1 as [|x l1 IH]; intros w; cbn [some app].
  - unfold ret. by intros [= <-].
  - unfold bind. destruct (f x w) as [[[|]|e] w2]; [discriminate|apply IH|discriminate].
Qed.

Lemma truthy_not_null u : truthy u = true -> strict_eq u JNull = false.
Proof. by destruct u. Qed.

(** X5. Let a writable file with an accepted remote address list entries
    without valid identifier and then an item on which the test of its
    identifier throws ([null], or an item whose [tth] is truthy, not a
    string and not accepted by the pattern). Then [validateBlocklistFile]
    replaces the file by the default blocklist, whatever else it listed,
    reports the default as valid and posts one error notification; the
    cache is unchanged. *)
Theorem validateBlocklistFile_resets_on_malformed env p node fields before item after w :
  disk w !! p = Some node ->
  parsed env (data node) = Ok (JObj fields) ->
  truthy (assoc "url" fields) = true ->
  isValidBlocklistURL env (assoc "url" fields) = true ->
  assoc "tths" fields = JArr (before ++ item :: after) ->
  Forall (fun e => is_entry e = true) before ->
  existsb entry_is_valid before = false ->
  malformed_item item ->
  p ∉ readonly w ->
  exists w' msg,
    validateBlocklistFile env p w
    = (Ok (validation_of_default (defaultBlocklist env p)), w')
    /\ disk w' = <[p := default_node env p]> (disk w)
    /\ cache w' = cache w
    /\ posted w' = posted w
         ++ [{| severity := error;
                text := "Failed to validate blocklist " +:+ path_basename p +:+ ": "
                        +:+ msg +:+ ". Resetting to default" |}].
Proof.
  intros Hnode Hparsed Htruthy Hurl Htths Hbefore Hnone Hitem Hrw.
  destruct (some_entries before Hbefore w) as (w1 & Hsome & (Hc & Hd & Hr) & Hp).
  rewrite Hnone in Hsome.
  destruct (malformed_item_throws item w1 Hitem) as [msg Hthrow].
  exists (with_disk <[p := default_node env p]>
            (with_posted (fun l => l ++ [{| severity := error;
                text := "Failed to validate blocklist " +:+ path_basename p +:+ ": "
                        +:+ msg +:+ ". Resetting to default" |}]) w1)), msg.
  split; [|cbn; by rewrite Hc, Hd, Hp].
  unfold validateBlocklistFile, try_catch.
  rewrite (read_parsed env p node (JObj fields)) by done.
  unfold bind at 1, lift at 1; cbn [get_prop].
  unfold bind at 1, lift at 1. unfold bind at 1, lift at 1. unfold bind at 1, lift at 1.
  rewrite Htruthy, (truthy_not_null _ Htruthy), Hurl. cbn [negb orb].
  unfold bind at 1, lift at 1. rewrite Htths. cbn [isArray negb array_items].
  unfold bind at 1, lift at 1. unfold bind at 1.
  rewrite (some_app_false _ _ _ _ _ Hsome). cbn [some]. unfold bind at 1. rewrite Hthrow.
  cbv zeta. unfold bind at 1, post at 1, modify at 1. unfold bind at 1.
  rewrite writeFileSync_defined by discriminate. cbn [readonly with_posted].
  rewrite Hr. rewrite bool_decide_eq_false_2 by done. reflexivity.
Qed.

Lemma validateBlocklistFile_resets_on_malformed_witness :
  exists w' msg,
    validateBlocklistFile example_env (path remote_source) world_malformed
    = (Ok (validation_of_default (defaultBlocklist example_env (path remote_source))), w')
    /\ disk w' = <[path remote_source := default_node example_env (path remote_source)]>
                   (disk world_malformed)
    /\ cache w' = cache world_malformed
    /\ posted w' = posted world_malformed
         ++ [{| severity := error;
                text := "Failed to validate blocklist " +:+ path_basename (path remote_source)
                        +:+ ": " +:+ msg +:+ ". Resetting to default" |}].
Proof.
  apply (validateBlocklistFile_resets_on_malformed example_env (path remote_source)
           {| data := Parsed (remote_content "1.0.15" "2025-08-27T19:00:00Z" malformed_entries);
              mtimeMs := 1756290000000 |}
           [ ("url", url remote_source); ("version", JStr "1.0.15");
             ("updated_at", JStr "2025-08-27T19:00:00Z");
             ("description", JStr "Curated by AnneDane"); ("tths", JArr malformed_entries) ]
           [JObj [("comment", JStr "no identifier")]] (JObj [("tth", JNum 5)])
           [entry tth_B "bogus filename"]).
  - reflexivity.
  - reflexivity.
  - reflexivity.
  - reflexivity.
  - reflexivity.
  - repeat constructor.
  - reflexivity.
  - right. exists (JNum 5). repeat split; try reflexivity. discriminate.
  - set_solver.
Defined.

(** ** The registry of sources *)

Lemma path_join_inj dir a b : path_join dir a = path_join dir b -> a = b.
Proof.
  unfold path_join. intros H. apply (inj (String.app dir)) in H.
  by apply (inj (String.app "/")) in H.
Qed.

Lemma describe_files_spec env files : forall w,
  NoDup files ->
  exists blocklists w',
    describe_files env files w = (Ok blocklists, w')
    /\ sublist (map file blocklists) files
    /\ Forall (entry_on_disk env w') blocklists
    /\ cache w' = cache w
    /\ forall q, (forall f, f ∈ files -> path_join (BLOCKLIST_DIR env) f <> q) ->
                 disk w' !! q = disk w !! q.
Proof.
  induction files as [|f files IH]; intros w Hnd; cbn [describe_files].
  - exists [], w. repeat split; auto.
  - apply NoDup_cons in Hnd as [Hf Hnd]. cbv zeta. unfold bind at 1.
    set (p := path_join (BLOCKLIST_DIR env) f).
    destruct (validateBlocklistFile_returns env p w) as [v Hv].
    pose proof (validateBlocklistFile_may_reset env p w) as (Hc & _ & Hd).
    destruct (validateBlocklistFile env p w) as [r w1] eqn:Hrun. cbn in Hv, Hc, Hd. subst r.
    assert (Hout : forall q, p <> q -> disk w1 !! q = disk w !! q).
    { intros q Hq. destruct Hd as [->| ->]; [done|]. by rewrite lookup_insert_ne. }
    destruct (valid v) eqn:Hvalid.
    + destruct (validateBlocklistFile_valid_file env p w v w1 Hrun Hvalid) as (node & Hnode & _).
      unfold bind at 1, statSync at 1. rewrite Hnode.
      destruct (IH w1 Hnd) as (bs & w2 & Hrest & Hsub & Hall & Hc2 & Hd2).
      unfold bind at 1. rewrite Hrest. unfold ret.
      eexists _, w2. split; [reflexivity|]. cbn [map file].
      split; [by constructor|]. split; [|split; [congruence|]].
      * constructor; [|done]. unfold entry_on_disk. cbn [path file mtime url].
        split; [done|]. split.
        -- fold p. rewrite Hd2, Hnode; [done|].
           intros f' Hf' Heq. apply path_join_inj in Heq. by subst.
        -- eapply validateBlocklistFile_url; eauto.
      * intros q Hq. rewrite Hd2, Hout; [done| |].
        -- apply Hq. by left.
        -- intros f' Hf'. apply Hq. by right.
    + destruct (IH w1 Hnd) as (bs & w2 & Hrest & Hsub & Hall & Hc2 & Hd2).
      rewrite Hrest. eexists bs, w2. split; [reflexivity|].
      split; [by constructor|]. split; [done|]. split; [congruence|].
      intros q Hq. rewrite Hd2, Hout; [done| |].
      * apply Hq. by left.
      * intros f' Hf'. apply Hq. by right.
Qed.

Lemma NoDup_filter_list {A} (f : A -> bool) l : NoDup l -> NoDup (List.filter f l).
Proof.
  induction 1 as [|x l Hx Hl IH]; cbn; [constructor|].
  destruct (f x); [|done]. constructor; [|done].
  intros Hin. apply Hx. apply list_elem_of_In in Hin. apply filter_In in Hin as [Hin _].
  by apply list_elem_of_In.
Qed.

Lemma sublist_filter_list {A} (f : A -> bool) l : sublist (List.filter f l) l.
Proof.
  induction l as [|x l IH]; cbn; [constructor|].
  destruct (f x); by constructor.
Qed.

(** X6. When the directory lists distinct names, [getBlocklistFiles]
    returns a registry without throwing: the names of its entries are among
    the listed names that end in [.json], in the order of the listing; each
    entry has the path of its name in the directory, the modification time
    its file has afterwards, and an address that is [null] or accepted by
    [isValidBlocklistURL]. The cache is unchanged. *)
Theorem getBlocklistFiles_registry env names w :
  NoDup names ->
  exists blocklists w',
    getBlocklistFiles env (Ok names) w = (Ok blocklists, w')
    /\ sublist (map file blocklists) (List.filter (fun f => endsWith f ".json") names)
    /\ Forall (entry_on_disk env w') blocklists
    /\ cache w' = cache w.
Proof.
  intros Hnd. unfold getBlocklistFiles, try_catch, bind at 1, lift at 1.
  destruct (describe_files_spec env (List.filter (fun f => endsWith f ".json") names) w)
    as (bs & w' & Hrun & Hsub & Hall & Hc & _); [by apply NoDup_filter_list|].
  rewrite Hrun. by exists bs, w'.
Qed.

Lemma getBlocklistFiles_registry_witness :
  exists blocklists w',
    getBlocklistFiles example_env (Ok directory_names) world_two_sources = (Ok blocklists, w')
    /\ sublist (map file blocklists)
         (List.filter (fun f => endsWith f ".json") directory_names)
    /\ Forall (entry_on_disk example_env w') blocklists
    /\ cache w' = cache world_two_sources.
Proof.
  apply getBlocklistFiles_registry. by apply (bool_decide_unpack _).
Defined.

(** X7. [getBlocklistFiles] neither creates nor changes a file of the
    directory whose name does not end in [.json]. *)
Theorem getBlocklistFiles_other_files env names name w :
  NoDup names ->
  endsWith name ".json" = false ->
  disk (snd (getBlocklistFiles env (Ok names) w)) !! path_join (BLOCKLIST_DIR env) name
  = disk w !! path_join (BLOCKLIST_DIR env) name.
Proof.
  intros Hnd Hname. unfold getBlocklistFiles, try_catch, bind at 1, lift at 1.
  destruct (describe_files_spec env (List.filter (fun f => endsWith f ".json") names) w)
    as (bs & w' & Hrun & _ & _ & _ & Hd); [by apply NoDup_filter_list|].
  rewrite Hrun. cbn [snd]. apply Hd.
  intros f Hf Heq. apply path_join_inj in Heq. subst.
  apply list_elem_of_In, filter_In in Hf as [_ Hf]. congruence.
Qed.

Lemma getBlocklistFiles_other_files_witness :
  disk (snd (getBlocklistFiles example_env (Ok directory_names) world_two_sources))
    !! path_join (BLOCKLIST_DIR example_env) "notes.txt"
  = disk world_two_sources !! path_join (BLOCKLIST_DIR example_env) "notes.txt".
Proof.
  apply getBlocklistFiles_other_files; [by apply (bool_decide_unpack _)|reflexivity].
Defined.

(** ** The start-up load *)

#[local] Instance grows_refl : Reflexive grows.
Proof. intros w. split; set_solver. Qed.
#[local] Instance grows_trans : Transitive grows.
Proof. intros a b c [H1 H2] [H3 H4]. split; [set_solver|congruence]. Qed.

Lemma same_cache_grows {A} (m : M A) : preserves same_cache m -> preserves grows m.
Proof. intros H w. specialize (H w). unfold same_cache in H. split; by rewrite H. Qed.

Lemma grows_same w w1 : cache w1 = cache w -> grows w w1.
Proof. intros H. split; by rewrite H. Qed.

Lemma load_tths_grows items : forall tthSet w r w',
  load_tths items tthSet w = (r, w') ->
  tthSet ⊆ blockedTTHSet (cache w) ->
  grows w w'
  /\ match r with
     | Ok s => s ⊆ blockedTTHSet (cache w')
     | Throw _ => True
     end.
Proof.
  induction items as [|item items IH]; intros tthSet w r w'; cbn [load_tths].
  - intros [= <- <-] Hsub. split; [reflexivity|done].
  - unfold bind at 1.
    pose proof (item_has_valid_tth_same_cache item w) as Hc. unfold same_cache in Hc.
    destruct (item_has_valid_tth item w) as [[[|]|e] w1]; cbn [snd] in Hc.
    + unfold bind at 1, lift at 1.
      destruct (get_prop item "tth") as [tth|e].
      2:{ intros [= <- <-] _. split; [by apply grows_same|done]. }
      unfold bind at 1, modify at 1.
      set (w2 := with_cache (set_blockedTTHSet (set_add tth)) w1).
      assert (Hadd : forall s : gset member, s ⊆ set_add tth s).
      { intros s. unfold set_add. destruct (as_member tth); set_solver. }
      assert (Hmono : forall s s' : gset member, s ⊆ s' -> set_add tth s ⊆ set_add tth s').
      { intros s s' Hs. unfold set_add. destruct (as_member tth); set_solver. }
      intros Hrest Hsub. apply IH in Hrest as [[Hg1 Hg2] Hres].
      2:{ cbn. rewrite Hc. by apply Hmono. }
      split; [|exact Hres].
      split; [|by rewrite Hg2; cbn; rewrite Hc].
      etrans; [|exact Hg1]. cbn. rewrite Hc. apply Hadd.
    + intros Hrest Hsub. apply IH in Hrest as [[Hg1 Hg2] Hres]; [|by rewrite Hc].
      split; [|exact Hres]. split; [by rewrite <- Hc|by rewrite Hg2, Hc].
    + intros [= <- <-] _. split; [by apply grows_same|done].
Qed.

(** Recording a freshly loaded set keeps the index covered. *)
Lemma record_source_covered (filename : string) blocklistData items w r w' :
  (tthSet <- load_tths items ∅ ;;
   modify (with_cache (set_blocklistTTHMap <[filename := tthSet]>)) ;;;
   token <- lift (version_token blocklistData) ;;
   modify (with_cache (set_blocklistVersions <[filename := token]>))) w = (r, w') ->
  covered (cache w) ->
  covered (cache w')
  /\ blockedTTHSet (cache w) ⊆ blockedTTHSet (cache w')
  /\ forall other, other <> filename ->
        blocklistTTHMap (cache w') !! other = blocklistTTHMap (cache w) !! other.
Proof.
  unfold bind at 1.
  destruct (load_tths items ∅ w) as [[tthSet|e] w1] eqn:Hload;
    apply load_tths_grows in Hload as [[Hg1 Hg2] Hres]; try set_solver.
  2:{ intros [= <- <-] Hcov. split; [|split; [done|by rewrite Hg2]].
      intros k s Hk. rewrite Hg2 in Hk. etrans; [by eapply Hcov|done]. }
  unfold bind at 1, modify at 1. unfold bind at 1, lift at 1.
  intros Hrun Hcov.
  assert (Hcov2 : covered (cache (with_cache (set_blocklistTTHMap <[filename := tthSet]>) w1))).
  { intros k s. cbn. destruct (decide (k = filename)) as [->|Hne].
    - rewrite lookup_insert_eq. by intros [= <-].
    - rewrite lookup_insert_ne by done. rewrite Hg2. intros Hk.
      etrans; [by eapply Hcov|done]. }
  assert (Hother : forall other, other <> filename ->
            blocklistTTHMap (cache (with_cache (set_blocklistTTHMap <[filename := tthSet]>) w1))
              !! other = blocklistTTHMap (cache w) !! other).
  { intros other Hne. cbn. by rewrite lookup_insert_ne, Hg2. }
  destruct (version_token blocklistData); injection Hrun as <- <-; cbn; auto.
Qed.

#[local] Instance keeps_covered_refl : Reflexive keeps_covered.
Proof. intros w H. exact H. Qed.
#[local] Instance keeps_covered_trans : Transitive keeps_covered.
Proof. intros a b c H1 H2 H. apply H2, H1, H. Qed.

Lemma same_cache_keeps_covered {A} (m : M A) : preserves same_cache m -> preserves keeps_covered m.
Proof. intros H w. specialize (H w). unfold same_cache in H. unfold keeps_covered. by rewrite H. Qed.

Lemma record_source_keeps_covered (filename : string) blocklistData items :
  preserves keeps_covered
    (tthSet <- load_tths items ∅ ;;
     modify (with_cache (set_blocklistTTHMap <[filename := tthSet]>)) ;;;
     token <- lift (version_token blocklistData) ;;
     modify (with_cache (set_blocklistVersions <[filename := token]>))).
Proof.
  intros w Hcov.
  match goal with |- context [snd (?m w)] => destruct (m w) as [r w'] eqn:Hrun end.
  by destruct (record_source_covered _ _ _ _ _ _ Hrun Hcov).
Qed.

#[local] Instance keeps_absent_refl filename : Reflexive (keeps_absent filename).
Proof. intros w H. exact H. Qed.
#[local] Instance keeps_absent_trans filename : Transitive (keeps_absent filename).
Proof. intros a b c H1 H2 H. apply H2, H1, H. Qed.

Lemma same_cache_keeps_absent filename {A} (m : M A) :
  preserves same_cache m -> preserves (keeps_absent filename) m.
Proof. intros H w. specialize (H w). unfold same_cache in H. unfold keeps_absent. by rewrite H. Qed.

Lemma record_source_keeps_absent (filename other : string) blocklistData items :
  other <> filename ->
  preserves (keeps_absent other)
    (tthSet <- load_tths items ∅ ;;
     modify (with_cache (set_blocklistTTHMap <[filename := tthSet]>)) ;;;
     token <- lift (version_token blocklistData) ;;
     modify (with_cache (set_blocklistVersions <[filename := token]>))).
Proof.
  intros Hne w Habs.
  match goal with |- context [snd (?m w)] => destruct (m w) as [r w'] eqn:Hrun end.
  cbn [snd]. unfold bind at 1 in Hrun.
  destruct (load_tths items ∅ w) as [[tthSet|e] w1] eqn:Hload;
    apply load_tths_grows in Hload as [[Hg1 Hg2] Hres]; try set_solver.
  2:{ injection Hrun as <- <-. by rewrite Hg2. }
  unfold bind at 1, modify at 1 in Hrun. unfold bind at 1, lift at 1 in Hrun.
  destruct (version_token blocklistData); injection Hrun as <- <-; cbn;
    by rewrite lookup_insert_ne, Hg2.
Qed.

Lemma existsSync_same_cache p : preserves same_cache (existsSync p).
Proof. intros w. reflexivity. Qed.
#[local] Hint Resolve existsSync_same_cache : frame.

Lemma load_internal_keeps_covered env : preserves keeps_covered (load_internal env).
Proof.
  unfold load_internal. cbv zeta.
  repeat first
    [ apply record_source_keeps_covered
    | apply same_cache_keeps_covered; solve [frame]
    | frame_step ].
Qed.

Lemma load_one_keeps_covered env settings blocklist :
  preserves keeps_covered (load_one env settings blocklist).
Proof.
  unfold load_one, settingValue_or_enabled.
  repeat first
    [ apply record_source_keeps_covered
    | apply same_cache_keeps_covered; solve [frame]
    | frame_step ].
Qed.

(** X8. After [loadBlockedTTHs], run with a usable settings manager,
    every identifier recorded for a source is in the aggregate set, whatever
    the cache held before and whether or not the load threw. *)
Theorem loadBlockedTTHs_covered env settings w :
  settings_invalid settings = false ->
  covered (cache (snd (loadBlockedTTHs env settings w))).
Proof.
  intros Hs. unfold loadBlockedTTHs. rewrite Hs.
  unfold bind at 1, modify at 1. unfold bind at 1, modify at 1. unfold bind at 1, modify at 1.
  match goal with
  | |- context [snd (?m ?w0)] =>
      assert (Hrest : preserves keeps_covered m); [|apply (Hrest w0)]
  end.
  - repeat first
      [ apply load_internal_keeps_covered
      | apply load_one_keeps_covered
      | apply same_cache_keeps_covered; solve [frame]
      | frame_step ].
  - intros filename tthSet. cbn. by rewrite lookup_empty.
Qed.

Lemma loadBlockedTTHs_covered_witness :
  covered (cache (snd (loadBlockedTTHs example_env all_enabled world_two_sources))).
Proof. apply loadBlockedTTHs_covered. reflexivity. Defined.

Lemma load_internal_keeps_absent env other :
  other <> INTERNAL_BLOCKLIST_NAME ->
  preserves (keeps_absent other) (load_internal env).
Proof.
  intros Hne. unfold load_internal. cbv zeta.
  repeat first
    [ apply record_source_keeps_absent; assumption
    | apply same_cache_keeps_absent; solve [frame]
    | frame_step ].
Qed.

Lemma load_one_keeps_absent env settings blocklist other :
  source_enabled settings other = false ->
  preserves (keeps_absent other) (load_one env settings blocklist).
Proof.
  intros Hoff. unfold load_one.
  destruct (String.eqb (file blocklist) INTERNAL_BLOCKLIST_NAME) eqn:Hint.
  { intros w H. exact H. }
  destruct (String.eqb_spec (file blocklist) other) as [Heq|Hne].
  - subst other. unfold source_enabled, settingKey_of in Hoff. rewrite Hint in Hoff.
    unfold settingValue_or_enabled, bind, try_catch, lift.
    destruct (settings_getValue settings ("blocklist_" +:+ file blocklist)) as [v|];
      [|discriminate].
    rewrite Hoff. intros w H. exact H.
  - unfold settingValue_or_enabled.
    repeat first
      [ apply record_source_keeps_absent; congruence
      | apply same_cache_keeps_absent; solve [frame]
      | frame_step ].
Qed.

(** X9. After [loadBlockedTTHs], run with a usable settings manager, no
    set of identifiers is recorded for a source whose setting is off. *)
Theorem loadBlockedTTHs_skips_disabled env settings filename w :
  settings_invalid settings = false ->
  source_enabled settings filename = false ->
  blocklistTTHMap (cache (snd (loadBlockedTTHs env settings w))) !! filename = None.
Proof.
  intros Hs Hoff. unfold loadBlockedTTHs. rewrite Hs.
  unfold bind at 1, modify at 1. unfold bind at 1, modify at 1. unfold bind at 1, modify at 1.
  match goal with
  | |- context [snd (?m ?w0)] =>
      assert (Hrest : preserves (keeps_absent filename) m); [|apply (Hrest w0)]
  end.
  2:{ cbn. apply lookup_empty. }
  unfold bind at 1. intros w0 Habs. unfold lift at 1.
  destruct (settings_getValue settings "internal_block_list") as [internalOn|e] eqn:Hint;
    [|exact Habs].
  revert w0 Habs.
  match goal with
  | |- forall w0, _ -> blocklistTTHMap (cache (snd (?m w0))) !! _ = None =>
      change (preserves (keeps_absent filename) m)
  end.
  apply preserves_bind; [typeclasses eauto..| |intros _].
  - destruct (truthy internalOn) eqn:Hon; [|apply preserves_ret; typeclasses eauto].
    apply load_internal_keeps_absent. intros ->.
    unfold source_enabled, settingKey_of in Hoff. cbn in Hoff. rewrite Hint in Hoff. congruence.
  - apply preserves_bind; [typeclasses eauto..| |intros files].
    + apply preserves_gets; typeclasses eauto.
    + apply preserves_forEach; [typeclasses eauto..|]. intros b.
      by apply load_one_keeps_absent.
Qed.

Lemma loadBlockedTTHs_skips_disabled_witness :
  blocklistTTHMap (cache (snd (loadBlockedTTHs example_env a_disabled world_two_sources)))
    !! "a.json" = None.
Proof. apply loadBlockedTTHs_skips_disabled; reflexivity. Defined.

#[local] Instance load_frame_refl env : Reflexive (load_frame env).
Proof. intros w. repeat split. Qed.
#[local] Instance load_frame_trans env : Transitive (load_frame env).
Proof.
  intros a b c (H1 & H2 & H3 & H4) (H5 & H6 & H7 & H8).
  split; [congruence|]. split; [congruence|]. split; [congruence|].
  intros p Hp. by rewrite H8, H4.
Qed.

Lemma same_store_load_frame env {A} (m : M A) :
  preserves same_store m -> preserves (load_frame env) m.
Proof. intros H w. destruct (H w) as (Hc & Hd & _). unfold load_frame. by rewrite Hc, Hd. Qed.

Lemma modify_sets_load_frame env f :
  preserves (load_frame env) (modify (with_cache (set_blockedTTHSet f))).
Proof. intros w. repeat split. Qed.
Lemma modify_index_load_frame env f :
  preserves (load_frame env) (modify (with_cache (set_blocklistTTHMap f))).
Proof. intros w. repeat split. Qed.
Lemma modify_versions_load_frame env f :
  preserves (load_frame env) (modify (with_cache (set_blocklistVersions f))).
Proof. intros w. repeat split. Qed.

Lemma write_internal_load_frame env j :
  preserves (load_frame env) (writeFileSync env (INTERNAL_BLOCKLIST_FILE env) j).
Proof.
  intros w. unfold writeFileSync. destruct j; try reflexivity;
    case_bool_decide; try reflexivity; cbn;
    (split; [done|]); (split; [done|]); (split; [done|]);
    intros p Hp; cbn; by rewrite lookup_insert_ne.
Qed.

Lemma existsSync_same_store p : preserves same_store (existsSync p).
Proof. intros w. repeat split. Qed.

Ltac load_frame_tac :=
  repeat first
    [ apply modify_sets_load_frame
    | apply modify_index_load_frame
    | apply modify_versions_load_frame
    | apply write_internal_load_frame
    | apply same_store_load_frame;
      solve [ apply existsSync_same_store | apply readFileSync_same_store
            | apply item_has_valid_tth_same_store | frame ]
    | frame_step ].

Lemma load_tths_load_frame env items : forall tthSet,
  preserves (load_frame env) (load_tths items tthSet).
Proof.
  induction items as [|item items IH]; intros tthSet; cbn [load_tths].
  - apply preserves_ret; typeclasses eauto.
  - repeat first [ apply IH | progress load_frame_tac ].
Qed.

(** X10. [loadBlockedTTHs] leaves the registry, the entity tags and the
    recorded modification times alone, and writes no file but the internal
    blocklist. *)
Theorem loadBlockedTTHs_frame env settings w :
  load_frame env w (snd (loadBlockedTTHs env settings w)).
Proof.
  revert w. change (preserves (load_frame env) (loadBlockedTTHs env settings)).
  unfold loadBlockedTTHs, load_internal, load_one, settingValue_or_enabled. cbv zeta.
  repeat first [ apply load_tths_load_frame | progress load_frame_tac ].
Qed.

(** ** The reconciliation of one source *)

#[local] Instance reconcile_frame_refl filename : Reflexive (reconcile_frame filename).
Proof. intros w. repeat split. Qed.
#[local] Instance reconcile_frame_trans filename : Transitive (reconcile_frame filename).
Proof.
  intros a b c (H1 & H2 & H3) (H4 & H5 & H6).
  split; [congruence|]. split; [congruence|].
  intros other Hne. destruct (H3 other Hne) as (? & ? & ?), (H6 other Hne) as (? & ? & ?).
  repeat split; congruence.
Qed.

Lemma same_cache_reconcile_frame filename {A} (m : M A) :
  preserves same_cache m -> preserves (reconcile_frame filename) m.
Proof.
  intros H w. specialize (H w). unfold same_cache in H. unfold reconcile_frame.
  by rewrite H.
Qed.

Lemma modify_sets_reconcile_frame filename f :
  preserves (reconcile_frame filename) (modify (with_cache (set_blockedTTHSet f))).
Proof. intros w. repeat split. Qed.
Lemma delete_index_reconcile_frame filename :
  preserves (reconcile_frame filename)
    (modify (with_cache (set_blocklistTTHMap (delete filename)))).
Proof. intros w. repeat split; cbn; by rewrite ?lookup_delete_ne. Qed.
Lemma insert_index_reconcile_frame filename s :
  preserves (reconcile_frame filename)
    (modify (with_cache (set_blocklistTTHMap <[filename := s]>))).
Proof. intros w. repeat split; cbn; by rewrite ?lookup_insert_ne. Qed.
Lemma insert_version_reconcile_frame filename t :
  preserves (reconcile_frame filename)
    (modify (with_cache (set_blocklistVersions <[filename := t]>))).
Proof. intros w. repeat split; cbn; by rewrite ?lookup_insert_ne. Qed.
Lemma insert_time_reconcile_frame filename t :
  preserves (reconcile_frame filename)
    (modify (with_cache (set_lastUpdateWriteTime <[filename := t]>))).
Proof. intros w. repeat split; cbn; by rewrite ?lookup_insert_ne. Qed.

Lemma statSync_same_cache p : preserves same_cache (statSync p).
Proof. intros w. unfold statSync. destruct (disk w !! p); reflexivity. Qed.

Ltac reconcile_frame_tac :=
  repeat first
    [ apply modify_sets_reconcile_frame
    | apply delete_index_reconcile_frame
    | apply insert_index_reconcile_frame
    | apply insert_version_reconcile_frame
    | apply insert_time_reconcile_frame
    | apply same_cache_reconcile_frame;
      solve [ apply statSync_same_cache | frame ]
    | frame_step ].

Lemma load_tths_reconcile_frame filename items : forall tthSet,
  preserves (reconcile_frame filename) (load_tths items tthSet).
Proof.
  induction items as [|item items IH]; intros tthSet; cbn [load_tths].
  - apply preserves_ret; typeclasses eauto.
  - repeat first [ apply IH | progress reconcile_frame_tac ].
Qed.

(** X11. [updateSingleBlocklist] leaves the registry and the entity tags
    alone, as well as the set of identifiers, the version token and the
    modification time recorded for every other source. *)
Theorem updateSingleBlocklist_other_sources env settings filename w :
  reconcile_frame filename w (snd (updateSingleBlocklist env settings filename w)).
Proof.
  revert w. change (preserves (reconcile_frame filename)
                      (updateSingleBlocklist env settings filename)).
  unfold updateSingleBlocklist, reload_source, settingValue_or_enabled. cbv zeta.
  repeat first [ apply load_tths_reconcile_frame | progress reconcile_frame_tac ].
Qed.

Lemma version_token_defined j tths : get_prop j "tths" = Ok tths -> exists token, version_token j = Ok token.
Proof.
  unfold version_token. destruct j; try discriminate; cbn; eauto.
Qed.

Lemma reload_source_result env settings filename filePath w :
  exists b w',
    reload_source env settings filename filePath w = (Ok b, w')
    /\ (b = true <-> is_Some (blocklistTTHMap (cache w') !! filename))
    /\ forall tthSet, blocklistTTHMap (cache w') !! filename = Some tthSet ->
                      tthSet ⊆ blockedTTHSet (cache w').
Proof.
  unfold reload_source.
  unfold bind at 1, gets at 1. unfold bind at 1, modify at 1. unfold bind at 1, modify at 1.
  set (w1 := with_cache (set_blocklistTTHMap (delete filename)) _).
  assert (Hnone : blocklistTTHMap (cache w1) !! filename = None).
  { subst w1. cbn. apply lookup_delete_eq. }
  assert (Hfalse : forall wx, blocklistTTHMap (cache wx) = blocklistTTHMap (cache w1) ->
            (false = true <-> is_Some (blocklistTTHMap (cache wx) !! filename))
            /\ forall tthSet, blocklistTTHMap (cache wx) !! filename = Some tthSet ->
                              tthSet ⊆ blockedTTHSet (cache wx)).
  { intros wx ->. rewrite Hnone. split; [|discriminate].
    split; [discriminate|]. by intros [? ?]. }
  clearbody w1.
  unfold bind at 1, settingValue_or_enabled, try_catch at 1, lift at 1.
  assert (Hsv : exists sv,
    match settings_getValue settings (settingKey_of filename) with
    | Ok a => (Ok a, w1)
    | Throw e => ret (JBool true) w1
    end = (Ok sv, w1)).
  { destruct (settings_getValue settings (settingKey_of filename)); eauto. }
  destruct Hsv as [sv ->].
  destruct (truthy sv); [|exists false, w1; split; [reflexivity|by apply Hfalse]].
  unfold bind at 1.
  destruct (validateBlocklistFile_returns env filePath w1) as [v Hv].
  pose proof (validateBlocklistFile_same_cache env filePath w1) as Hc. unfold same_cache in Hc.
  destruct (validateBlocklistFile env filePath w1) as [rv w2]. cbn in Hv, Hc. subst rv.
  destruct (valid v); [|exists false, w2; split; [reflexivity|apply Hfalse; by rewrite Hc]].
  assert (Hcatch : forall wx e, blocklistTTHMap (cache wx) = blocklistTTHMap (cache w1) ->
    exists b w',
      (post {| severity := error;
               text := "Failed to reload blocklist " +:+ filename +:+ ": " +:+ e |} ;;;
       ret false) wx = (Ok b, w')
      /\ (b = true <-> is_Some (blocklistTTHMap (cache w') !! filename))
      /\ forall tthSet, blocklistTTHMap (cache w') !! filename = Some tthSet ->
                        tthSet ⊆ blockedTTHSet (cache w')).
  { intros wx e Hx. eexists false, _. split; [reflexivity|]. by apply Hfalse. }
  unfold try_catch, bind at 1, readFileSync.
  destruct (disk w2 !! filePath) as [node|]; [|apply Hcatch; by rewrite Hc].
  unfold bind at 1, JSON_parse, lift at 1.
  destruct (parsed env (data node)) as [blocklistData|]; [|apply Hcatch; by rewrite Hc].
  unfold bind at 1, lift at 1.
  destruct (get_prop blocklistData "tths") as [tths|] eqn:Htths; [|apply Hcatch; by rewrite Hc].
  unfold bind at 1, lift at 1.
  destruct (array_items tths "forEach") as [items|]; [|apply Hcatch; by rewrite Hc].
  unfold bind at 1.
  destruct (load_tths items ∅ w2) as [[tthSet|e] w3] eqn:Hload;
    (apply load_tths_grows in Hload as [[Hg1 Hg2] Hres]; [|apply empty_subseteq]).
  2:{ apply Hcatch. by rewrite Hg2, Hc. }
  unfold bind at 1, modify at 1. unfold bind at 1, lift at 1.
  destruct (version_token_defined _ _ Htths) as [token ->].
  unfold bind at 1, modify at 1, ret.
  eexists true, _. split; [reflexivity|]. cbn. rewrite lookup_insert_eq.
  split; [split; eauto|]. by intros s [= <-].
Qed.

(** X12. For a registered source whose file exists,
    [updateSingleBlocklist] returns without throwing. When the file's
    modification time is not the one last processed, it returns true exactly
    when a set of identifiers is recorded for the source afterwards, and
    that set is then included in the aggregate set. *)
Theorem updateSingleBlocklist_result env settings filename blocklist node w :
  List.find (fun b => String.eqb (file b) filename) (blocklistFiles (cache w))
    = Some blocklist ->
  disk w !! path blocklist = Some node ->
  exists b w',
    updateSingleBlocklist env settings filename w = (Ok b, w')
    /\ (lastUpdateWriteTime (cache w) !! filename <> Some (mtimeMs node) ->
        (b = true <-> is_Some (blocklistTTHMap (cache w') !! filename))
        /\ forall tthSet, blocklistTTHMap (cache w') !! filename = Some tthSet ->
                          tthSet ⊆ blockedTTHSet (cache w')).
Proof.
  intros Hfind Hnode. rewrite updateSingleBlocklist_mtime_check, Hfind, Hnode.
  case_bool_decide as Hlast.
  - exists false, w. split; [reflexivity|]. intros Hne. by destruct Hne.
  - destruct (reload_source_result env settings filename (path blocklist)
                (with_cache (set_lastUpdateWriteTime <[filename := mtimeMs node]>) w))
      as (b & w' & Hrun & Hres).
    exists b, w'. split; [exact Hrun|]. intros _. exact Hres.
Qed.

Lemma updateSingleBlocklist_result_witness :
  exists b w',
    updateSingleBlocklist example_env all_enabled "mixed.json" world_mixed = (Ok b, w')
    /\ (lastUpdateWriteTime (cache world_mixed) !! "mixed.json" <> Some 1756280000000 ->
        (b = true <-> is_Some (blocklistTTHMap (cache w') !! "mixed.json"))
        /\ forall tthSet, blocklistTTHMap (cache w') !! "mixed.json" = Some tthSet ->
                          tthSet ⊆ blockedTTHSet (cache w')).
Proof.
  apply (updateSingleBlocklist_result example_env all_enabled "mixed.json"
           (local_source "mixed.json")
           {| data := Parsed (local_content mixed_entries); mtimeMs := 1756280000000 |}
           world_mixed); reflexivity.
Defined.

(** ** The update of a mirrored source *)

Lemma fetch_attempt_new_version env blocklist remote attempt r data items token w :
  remote attempt (sent_etag blocklist w) = Responded r ->
  new_version blocklist r data items token w ->
  fetch_attempt env blocklist remote attempt w
  = (writeFileSync env (path blocklist) data ;;;
     _stats <- statSync (path blocklist) ;;
     await_post env (update_posted env blocklist data items token) ;;;
     ret true) (recorded env blocklist r token w).
Proof.
  intros Hresp (Hok & Hct & Hbody & Htths & Htoken & Hnew).
  unfold fetch_attempt, sent_etag in *.
  unfold bind at 1, gets at 1. rewrite Hresp.
  rewrite (response_ok_not_304 _ Hok), Hok. cbn [negb].
  rewrite (acceptable_content_type_true _ Hct).
  unfold bind at 1, try_catch, JSON_parse, lift at 1. rewrite Hbody. cbn [parsed].
  unfold bind at 1, lift at 1. rewrite Htths. cbn [isArray negb].
  unfold bind at 1, lift at 1. rewrite Htoken.
  unfold bind at 1, gets at 1. rewrite Hnew.
  unfold bind at 1, modify at 1. unfold bind at 1, modify at 1. unfold bind at 1, modify at 1.
  reflexivity.
Qed.

Lemma tths_defined data tths : get_prop data "tths" = Ok tths -> data <> JUndefined.
Proof. by intros H ->. Qed.

(** X13. Let the attempts before attempt [j+1] fail and be retried, and let
    attempt [j+1] be answered with a list under a version token other than
    the stored one, the file being writable and the host connected. Then
    [fetchAndUpdateBlocklist] returns true: the file holds the text formatted
    from the list, with the modification time of the write; the token, the
    entity tag of the answer and the time of the update are recorded; one
    notification of the update is posted; the aggregate set and the
    per-source sets are not touched. *)
Theorem fetchAndUpdateBlocklist_updates env blocklist remote retries j r data items token w :
  is_remote env blocklist ->
  (j < retries)%nat ->
  retried blocklist remote j w ->
  remote (S j) (sent_etag blocklist w) = Responded r ->
  new_version blocklist r data items token w ->
  path blocklist ∉ readonly w ->
  socket_error env = None ->
  exists w',
    fetchAndUpdateBlocklist env blocklist remote retries w = (Ok (Some true), w')
    /\ disk w' = <[path blocklist := {| data := Formatted data; mtimeMs := write_mtime env |}]>
                   (disk w)
    /\ blocklistVersions (cache w') !! file blocklist = Some token
    /\ blocklistETags (cache w') !! file blocklist = Some (header_or_empty (etag_header r))
    /\ lastUpdateWriteTime (cache w') !! file blocklist = Some (date_now env)
    /\ blockedTTHSet (cache w') = blockedTTHSet (cache w)
    /\ blocklistTTHMap (cache w') = blocklistTTHMap (cache w)
    /\ posted w' = posted w ++ [update_posted env blocklist data items token].
Proof.
  intros [Hint Hurl] Hj Hretried Hresp Hnew Hrw Hsock.
  unfold fetchAndUpdateBlocklist. rewrite Hint, Hurl; cbn [negb].
  rewrite (fetch_loop_skip _ _ _ _ j) by done.
  replace (retries - j)%nat with (S (retries - S j)) by lia.
  cbn [fetch_loop]. replace (retries - (retries - S j))%nat with (S j) by lia.
  unfold try_catch, bind at 1.
  rewrite (fetch_attempt_new_version _ _ _ _ _ _ _ _ _ Hresp Hnew).
  destruct Hnew as (_ & _ & _ & Htths & _).
  unfold bind at 1. rewrite writeFileSync_defined by (by eapply tths_defined).
  rewrite bool_decide_eq_false_2 by done.
  unfold bind at 1, statSync. cbn [disk with_disk]. rewrite lookup_insert_eq.
  unfold await_post, bind, post, modify, ret. rewrite Hsock.
  eexists. split; [reflexivity|]. cbn.
  rewrite !lookup_insert_eq. repeat split; reflexivity.
Qed.

Lemma fetchAndUpdateBlocklist_updates_witness :
  exists w',
    fetchAndUpdateBlocklist example_env remote_source (fails_once_then new_version_response)
      default_retries world_synced = (Ok (Some true), w')
    /\ disk w' = <[path remote_source :=
                     {| data := Formatted (remote_content "1.0.16" "2025-08-28T08:00:00Z"
                                  [entry tth_B "bogus filename"; entry tth_A "Test file 1"]);
                        mtimeMs := write_mtime example_env |}]> (disk world_synced)
    /\ blocklistVersions (cache w') !! file remote_source = Some (JStr "1.0.16")
    /\ blocklistETags (cache w') !! file remote_source
       = Some (header_or_empty (etag_header new_version_response))
    /\ lastUpdateWriteTime (cache w') !! file remote_source = Some (date_now example_env)
    /\ blockedTTHSet (cache w') = blockedTTHSet (cache world_synced)
    /\ blocklistTTHMap (cache w') = blocklistTTHMap (cache world_synced)
    /\ posted w' = posted world_synced
         ++ [update_posted example_env remote_source
               (remote_content "1.0.16" "2025-08-28T08:00:00Z"
                  [entry tth_B "bogus filename"; entry tth_A "Test file 1"])
               [entry tth_B "bogus filename"; entry tth_A "Test file 1"] (JStr "1.0.16")].
Proof.
  apply (fetchAndUpdateBlocklist_updates example_env remote_source
           (fails_once_then new_version_response) default_retries 1%nat new_version_response).
  - split; reflexivity.
  - unfold default_retries. lia.
  - first_attempt_failed.
  - reflexivity.
  - repeat split; reflexivity.
  - set_solver.
  - reflexivity.
Defined.

(** X14. Let the file of a mirrored source be write-protected, and let the
    origin answer the first two attempts with the same list under a new,
    truthy version token. Then [fetchAndUpdateBlocklist] returns false
    without any notification and without changing the disk, yet the new
    token and entity tag stay recorded: the first attempt records them before
    the write fails, and the second attempt takes the list for the version
    already held. *)
Theorem fetchAndUpdateBlocklist_unwritable env blocklist remote retries r data items token w :
  is_remote env blocklist ->
  (2 <= retries)%nat ->
  remote 1%nat (sent_etag blocklist w) = Responded r ->
  remote 2%nat (Some (header_or_empty (etag_header r))) = Responded r ->
  new_version blocklist r data items token w ->
  truthy token = true ->
  strict_eq token token = true ->
  path blocklist ∈ readonly w ->
  includes ("EACCES: permission denied, open '" +:+ path blocklist +:+ "'") "HTTP 304" = false ->
  exists w',
    fetchAndUpdateBlocklist env blocklist remote retries w = (Ok (Some false), w')
    /\ disk w' = disk w
    /\ posted w' = posted w
    /\ blocklistVersions (cache w') !! file blocklist = Some token
    /\ blocklistETags (cache w') !! file blocklist = Some (header_or_empty (etag_header r)).
Proof.
  intros [Hint Hurl] Hretries Hfirst Hsecond Hnew Htruthy Hrefl Hro H304.
  unfold fetchAndUpdateBlocklist. rewrite Hint, Hurl; cbn [negb].
  rewrite (fetch_loop_skip _ _ _ _ 0%nat); [|lia|intros i Hi; lia].
  replace (retries - 0)%nat with (S (retries - 1)) by lia.
  cbn [fetch_loop]. replace (retries - (retries - 1))%nat with 1%nat by lia.
  unfold try_catch at 1, bind at 1.
  rewrite (fetch_attempt_new_version _ _ _ _ _ _ _ _ _ Hfirst Hnew).
  pose proof Hnew as (Hok & Hct & Hbody & Htths & Htoken & _).
  unfold bind at 1. rewrite writeFileSync_defined by (by eapply tths_defined).
  rewrite bool_decide_eq_true_2 by done.
  assert (Hlt : (1 <? retries)%nat = true) by (apply Nat.ltb_lt; lia).
  rewrite Hlt, H304. cbn [andb negb].
  replace (retries - 1)%nat with (S (retries - 2)) by lia.
  cbn [fetch_loop]. replace (retries - (retries - 2))%nat with 2%nat by lia.
  unfold try_catch, bind at 1, fetch_attempt.
  unfold bind at 1, gets at 1. unfold recorded.
  cbn [cache with_cache blocklistETags blocklistVersions set_blocklistETags
    set_blocklistVersions set_lastUpdateWriteTime].
  rewrite lookup_insert_eq, Hsecond.
  rewrite (response_ok_not_304 _ Hok), Hok. cbn [negb].
  rewrite (acceptable_content_type_true _ Hct).
  unfold bind at 1, try_catch, JSON_parse, lift at 1. rewrite Hbody. cbn [parsed].
  unfold bind at 1, lift at 1. rewrite Htths. cbn [isArray negb].
  unfold bind at 1, lift at 1. rewrite Htoken.
  unfold bind at 1, gets at 1.
  cbn [cache with_cache blocklistETags blocklistVersions set_blocklistETags
    set_blocklistVersions set_lastUpdateWriteTime].
  rewrite lookup_insert_eq. cbn [from_option id]. rewrite Htruthy, Hrefl. cbn [andb].
  unfold ret. eexists. split; [reflexivity|]. cbn.
  rewrite !lookup_insert_eq. repeat split; reflexivity.
Qed.

Lemma fetchAndUpdateBlocklist_unwritable_witness :
  exists w',
    fetchAndUpdateBlocklist example_env remote_source
      (fun _ _ => Responded new_version_response) default_retries world_synced_readonly
    = (Ok (Some false), w')
    /\ disk w' = disk world_synced_readonly
    /\ posted w' = posted world_synced_readonly
    /\ blocklistVersions (cache w') !! file remote_source = Some (JStr "1.0.16")
    /\ blocklistETags (cache w') !! file remote_source
       = Some (header_or_empty (etag_header new_version_response)).
Proof.
  apply (fetchAndUpdateBlocklist_unwritable example_env remote_source
           (fun _ _ => Responded new_version_response) default_retries new_version_response
           (remote_content "1.0.16" "2025-08-28T08:00:00Z"
              [entry tth_B "bogus filename"; entry tth_A "Test file 1"])
           [entry tth_B "bogus filename"; entry tth_A "Test file 1"] (JStr "1.0.16")).
  - split; reflexivity.
  - unfold default_retries. lia.
  - reflexivity.
  - reflexivity.
  - repeat split; reflexivity.
  - reflexivity.
  - reflexivity.
  - set_solver.
  - reflexivity.
Defined.

Lemma fetch_first_not_modified env blocklist remote retries r w :
  is_remote env blocklist ->
  (1 <= retries)%nat ->
  remote 1%nat (sent_etag blocklist w) = Responded r ->
  status r = 304 ->
  fetchAndUpdateBlocklist env blocklist remote retries w = (Ok (Some false), w).
Proof.
  intros [Hint Hurl] Hretries Hresp H304.
  unfold fetchAndUpdateBlocklist. rewrite Hint, Hurl; cbn [negb].
  rewrite (fetch_loop_skip _ _ _ _ 0%nat); [|lia|intros i Hi; lia].
  replace (retries - 0)%nat with (S (retries - 1)) by lia.
  cbn [fetch_loop]. replace (retries - (retries - 1))%nat with 1%nat by lia.
  unfold try_catch, bind at 1, fetch_attempt, bind at 1, gets at 1.
  unfold sent_etag in Hresp. rewrite Hresp, H304. reflexivity.
Qed.

Lemma has_remote_url_is_remote env blocklist :
  has_remote_url env blocklist = true -> is_remote env blocklist.
Proof.
  unfold has_remote_url, is_remote. intros H.
  apply andb_true_iff in H as [H Hurl]. apply andb_true_iff in H as [_ Hint].
  apply negb_true_iff in Hint. done.
Qed.

(** X15. When every registered source with a remote address is answered
    304 on the first attempt, a round of the scheduled update changes
    nothing and posts nothing. *)
Theorem scheduled_update_not_modified env settings origins w :
  (forall blocklist,
     blocklist ∈ blocklistFiles (cache w) ->
     has_remote_url env blocklist = true ->
     exists r, origins blocklist 1%nat (sent_etag blocklist w) = Responded r
               /\ status r = 304) ->
  scheduled_update env settings origins w = (Ok tt, w).
Proof.
  unfold scheduled_update, bind at 1, gets at 1.
  generalize (blocklistFiles (cache w)) as blocklists.
  induction blocklists as [|blocklist rest IH]; intros Hall; cbn [update_sources].
  - reflexivity.
  - unfold bind at 1.
    destruct (has_remote_url env blocklist) eqn:Hremote.
    + destruct (Hall blocklist) as (r & Hresp & H304); [by left|done|].
      unfold bind at 1.
      rewrite (fetch_first_not_modified env blocklist _ _ r w);
        [|by apply has_remote_url_is_remote|unfold default_retries; lia|done|done].
      unfold ret at 1. apply IH. intros b Hb. apply Hall. by right.
    + unfold ret at 1. apply IH. intros b Hb. apply Hall. by right.
Qed.

Lemma scheduled_update_not_modified_witness :
  scheduled_update example_env all_enabled (fun _ _ _ => Responded not_modified) world_synced
  = (Ok tt, world_synced).
Proof.
  apply scheduled_update_not_modified.
  intros blocklist _ _. exists not_modified. split; reflexivity.
Defined.

(** ** An update followed by its reconciliation *)

Lemma fetch_update_world env blocklist remote retries j r data items token w :
  is_remote env blocklist ->
  (j < retries)%nat ->
  retried blocklist remote j w ->
  remote (S j) (sent_etag blocklist w) = Responded r ->
  new_version blocklist r data items token w ->
  path blocklist ∉ readonly w ->
  socket_error env = None ->
  fetchAndUpdateBlocklist env blocklist remote retries w
  = (Ok (Some true), updated_world env blocklist r data items token w).
Proof.
  intros [Hint Hurl] Hj Hretried Hresp Hnew Hrw Hsock.
  unfold fetchAndUpdateBlocklist. rewrite Hint, Hurl; cbn [negb].
  rewrite (fetch_loop_skip _ _ _ _ j) by done.
  replace (retries - j)%nat with (S (retries - S j)) by lia.
  cbn [fetch_loop]. replace (retries - (retries - S j))%nat with (S j) by lia.
  unfold try_catch, bind at 1.
  rewrite (fetch_attempt_new_version _ _ _ _ _ _ _ _ _ Hresp Hnew).
  destruct Hnew as (_ & _ & _ & Htths & _).
  unfold bind at 1. rewrite writeFileSync_defined by (by eapply tths_defined).
  rewrite bool_decide_eq_false_2 by done.
  unfold bind at 1, statSync. cbn [disk with_disk]. rewrite lookup_insert_eq.
  unfold await_post, bind, post, modify, ret. rewrite Hsock. reflexivity.
Qed.

Lemma validateBlocklistFile_accepts env p node fields items :
  parsed env (data node) = Ok (JObj fields) ->
  assoc "tths" fields = JArr items ->
  Forall (fun item => is_entry item = true) items ->
  acceptable_entries items ->
  forall w, disk w !! p = Some node ->
    exists v w', validateBlocklistFile env p w = (Ok v, w')
                 /\ valid v = true /\ quiet w w'.
Proof.
  intros Hdata Htths Hentries Hacc w Hw.
  unfold validateBlocklistFile, try_catch.
  rewrite (read_parsed env p node (JObj fields)) by done.
  unfold bind at 1, lift at 1. cbn [get_prop].
  unfold bind at 1, lift at 1. unfold bind at 1, lift at 1. unfold bind at 1, lift at 1.
  destruct (negb (truthy (assoc "url" fields)) || strict_eq (assoc "url" fields) JNull
            || negb (isValidBlocklistURL env (assoc "url" fields))).
  { eexists _, w. split; [reflexivity|]. split; [reflexivity|apply quiet_refl]. }
  unfold bind at 1, lift at 1. rewrite Htths. cbn [isArray negb array_items].
  unfold bind at 1, lift at 1.
  destruct (some_entries items Hentries w) as (w1 & Hsome & Hquiet).
  unfold bind at 1. rewrite Hsome.
  assert (Hnone : negb (existsb entry_is_valid items) && (0 <? Z.of_nat (length items)) = false).
  { destruct Hacc as [->| ->]; reflexivity. }
  rewrite Hnone. eexists _, w1. split; [reflexivity|]. split; [reflexivity|exact Hquiet].
Qed.

Lemma reload_source_entries env settings filename filePath node fields items w :
  disk w !! filePath = Some node ->
  parsed env (data node) = Ok (JObj fields) ->
  assoc "tths" fields = JArr items ->
  Forall (fun item => is_entry item = true) items ->
  acceptable_entries items ->
  source_enabled settings filename = true ->
  exists w',
    reload_source env settings filename filePath w = (Ok true, w')
    /\ blocklistTTHMap (cache w') !! filename = Some (valid_ids items)
    /\ blockedTTHSet (cache w')
       = valid_ids items
         ∪ (blockedTTHSet (cache w) ∖ default ∅ (blocklistTTHMap (cache w) !! filename))
    /\ posted w' = posted w
    /\ disk w' = disk w.
Proof.
  intros Hdisk Hdata Htths Hentries Hacc Henabled.
  unfold reload_source, settingValue_or_enabled.
  unfold bind at 1, gets at 1. unfold bind at 1, modify at 1.
  unfold bind at 1, modify at 1. unfold bind at 1, try_catch at 1, lift at 1.
  set (w0 := with_cache (set_blocklistTTHMap (delete filename))
               (with_cache (set_blockedTTHSet
                  (fun s => s ∖ default ∅ (blocklistTTHMap (cache w) !! filename))) w)).
  assert (Hsetting : exists sv,
    match settings_getValue settings (settingKey_of filename) with
    | Ok a => (Ok a, w0)
    | Throw e => ret (JBool true) w0
    end = (Ok sv, w0) /\ truthy sv = true).
  { unfold source_enabled in Henabled.
    destruct (settings_getValue settings (settingKey_of filename)) as [sv|];
      eexists; (split; [reflexivity|]); [exact Henabled|reflexivity]. }
  destruct Hsetting as (sv & Hsv & Htruthy). rewrite Hsv, Htruthy.
  unfold bind at 1.
  destruct (validateBlocklistFile_accepts env filePath node fields items
              Hdata Htths Hentries Hacc w0 Hdisk)
    as (v & w3 & Hrun & Hvalid & (Hc & Hd & _) & Hp).
  rewrite Hrun, Hvalid.
  unfold try_catch, bind at 1, readFileSync. rewrite Hd.
  change (disk w0) with (disk w). rewrite Hdisk.
  unfold bind at 1, JSON_parse, lift at 1. rewrite Hdata.
  unfold bind at 1, lift at 1; cbn [get_prop]. rewrite Htths.
  unfold bind at 1, lift at 1; cbn [array_items].
  destruct (load_tths_entries items Hentries ∅ w3) as (w4 & Hload & Hset & Hdisk4 & Hposted).
  unfold bind at 1. rewrite Hload.
  unfold bind at 1, modify at 1.
  assert (Htoken : exists token, version_token (JObj fields) = Ok token).
  { unfold version_token; cbn [get_prop]. eauto. }
  destruct Htoken as [token Htoken].
  unfold bind at 1, lift at 1. rewrite Htoken.
  unfold bind at 1, modify at 1, ret.
  eexists. split; [reflexivity|].
  cbn [cache with_cache blocklistTTHMap blockedTTHSet set_blocklistTTHMap
       set_blocklistVersions posted disk].
  split; [|split; [|split]].
  - rewrite lookup_insert_eq. f_equal. set_solver.
  - rewrite Hset, Hc. reflexivity.
  - rewrite Hposted, Hp. reflexivity.
  - rewrite Hdisk4, Hd. reflexivity.
Qed.

(** X16. Let a registered, enabled source be updated as in X13, let the text
    written parse back to an object whose [tths] array holds entries, none
    or at least one of them with a valid identifier, and let the
    modification time of the write differ from the time the update recorded.
    Then the reconciliation that the timer runs next returns true: the set
    recorded for the source is the set of valid identifiers of the entries,
    it replaces the source's former identifiers in the aggregate set, the
    recorded time becomes the file's modification time, and nothing is posted
    beyond the notification of the update. *)
Theorem update_then_reconcile env settings blocklist remote retries j r data items token
    fields entries w :
  List.find (fun b => String.eqb (file b) (file blocklist)) (blocklistFiles (cache w))
    = Some blocklist ->
  is_remote env blocklist ->
  (j < retries)%nat ->
  retried blocklist remote j w ->
  remote (S j) (sent_etag blocklist w) = Responded r ->
  new_version blocklist r data items token w ->
  path blocklist ∉ readonly w ->
  socket_error env = None ->
  reparse env data = Ok (JObj fields) ->
  assoc "tths" fields = JArr entries ->
  Forall (fun item => is_entry item = true) entries ->
  acceptable_entries entries ->
  source_enabled settings (file blocklist) = true ->
  date_now env <> write_mtime env ->
  exists w1 w2,
    fetchAndUpdateBlocklist env blocklist remote retries w = (Ok (Some true), w1)
    /\ updateSingleBlocklist env settings (file blocklist) w1 = (Ok true, w2)
    /\ blocklistTTHMap (cache w2) !! file blocklist = Some (valid_ids entries)
    /\ blockedTTHSet (cache w2)
       = valid_ids entries
         ∪ (blockedTTHSet (cache w)
            ∖ default ∅ (blocklistTTHMap (cache w) !! file blocklist))
    /\ lastUpdateWriteTime (cache w2) !! file blocklist = Some (write_mtime env)
    /\ posted w2 = posted w ++ [update_posted env blocklist data items token].
Proof.
  intros Hfind Hremote Hj Hretried Hresp Hnew Hrw Hsock Hre Htths Hentries Hacc Hen Hclock.
  exists (updated_world env blocklist r data items token w).
  rewrite (fetch_update_world _ _ _ _ j r data items token w) by done.
  rewrite updateSingleBlocklist_mtime_check.
  change (blocklistFiles (cache (updated_world env blocklist r data items token w)))
    with (blocklistFiles (cache w)).
  rewrite Hfind.
  change (disk (updated_world env blocklist r data items token w))
    with (<[path blocklist := {| data := Formatted data; mtimeMs := write_mtime env |}]>
            (disk w)).
  rewrite lookup_insert_eq.
  change (lastUpdateWriteTime (cache (updated_world env blocklist r data items token w)))
    with (<[file blocklist := date_now env]> (lastUpdateWriteTime (cache w))).
  rewrite lookup_insert_eq. cbn [mtimeMs].
  rewrite bool_decide_eq_false_2 by congruence.
  destruct (reload_source_entries env settings (file blocklist) (path blocklist)
              {| data := Formatted data; mtimeMs := write_mtime env |} fields entries
              (with_cache (set_lastUpdateWriteTime <[file blocklist := write_mtime env]>)
                 (updated_world env blocklist r data items token w)))
    as (w2 & Hrun & Hmap & Hset & Hposted & _); try done.
  { cbn. apply lookup_insert_eq. }
  exists w2. split; [reflexivity|]. split; [exact Hrun|]. split; [exact Hmap|].
  split; [exact Hset|]. split; [|exact Hposted].
  pose proof (reload_source_keeps_registry env settings (file blocklist) (path blocklist)
                (with_cache (set_lastUpdateWriteTime <[file blocklist := write_mtime env]>)
                   (updated_world env blocklist r data items token w))) as [_ Htime].
  rewrite Hrun in Htime. cbn [snd] in Htime. rewrite Htime. cbn. apply lookup_insert_eq.
Qed.

Lemma update_then_reconcile_witness :
  exists w1 w2,
    fetchAndUpdateBlocklist example_env remote_source
      (fails_once_then new_version_response) default_retries world_synced
    = (Ok (Some true), w1)
    /\ updateSingleBlocklist example_env all_enabled (file remote_source) w1 = (Ok true, w2)
    /\ blocklistTTHMap (cache w2) !! file remote_source
       = Some (valid_ids [entry tth_B "bogus filename"; entry tth_A "Test file 1"])
    /\ blockedTTHSet (cache w2)
       = valid_ids [entry tth_B "bogus filename"; entry tth_A "Test file 1"]
         ∪ (blockedTTHSet (cache world_synced)
            ∖ default ∅ (blocklistTTHMap (cache world_synced) !! file remote_source))
    /\ lastUpdateWriteTime (cache w2) !! file remote_source = Some (write_mtime example_env)
    /\ posted w2 = posted world_synced
         ++ [update_posted example_env remote_source
               (remote_content "1.0.16" "2025-08-28T08:00:00Z"
                  [entry tth_B "bogus filename"; entry tth_A "Test file 1"])
               [entry tth_B "bogus filename"; entry tth_A "Test file 1"] (JStr "1.0.16")].
Proof.
  apply (update_then_reconcile example_env all_enabled remote_source
           (fails_once_then new_version_response) default_retries 1%nat new_version_response
           (remote_content "1.0.16" "2025-08-28T08:00:00Z"
              [entry tth_B "bogus filename"; entry tth_A "Test file 1"])
           [entry tth_B "bogus filename"; entry tth_A "Test file 1"] (JStr "1.0.16")
           [ ("url", url remote_source); ("version", JStr "1.0.16");
             ("updated_at", JStr "2025-08-28T08:00:00Z");
             ("description", JStr "Curated by AnneDane");
             ("tths", JArr [entry tth_B "bogus filename"; entry tth_A "Test file 1"]) ]).
  - reflexivity.
  - split; reflexivity.
  - unfold default_retries. lia.
  - first_attempt_failed.
  - reflexivity.
  - repeat split; reflexivity.
  - set_solver.
  - reflexivity.
  - reflexivity.
  - reflexivity.
  - repeat constructor.
  - right. reflexivity.
  - reflexivity.
  - discriminate.
Defined.

(** X17. Let a registered source be updated as in X13, the modification
    time of the write being the very time the update recorded. Then the
    reconciliation that the timer runs next returns false and changes
    nothing: the new list is on disk, while the aggregate set and the
    per-source sets are still those of before the update. *)
Theorem update_then_reconcile_skipped env settings blocklist remote retries j r data items
    token w :
  List.find (fun b => String.eqb (file b) (file blocklist)) (blocklistFiles (cache w))
    = Some blocklist ->
  is_remote env blocklist ->
  (j < retries)%nat ->
  retried blocklist remote j w ->
  remote (S j) (sent_etag blocklist w) = Responded r ->
  new_version blocklist r data items token w ->
  path blocklist ∉ readonly w ->
  socket_error env = None ->
  date_now env = write_mtime env ->
  exists w1,
    fetchAndUpdateBlocklist env blocklist remote retries w = (Ok (Some true), w1)
    /\ updateSingleBlocklist env settings (file blocklist) w1 = (Ok false, w1)
    /\ disk w1 !! path blocklist
       = Some {| data := Formatted data; mtimeMs := write_mtime env |}
    /\ blocklistTTHMap (cache w1) = blocklistTTHMap (cache w)
    /\ blockedTTHSet (cache w1) = blockedTTHSet (cache w).
Proof.
  intros Hfind Hremote Hj Hretried Hresp Hnew Hrw Hsock Hclock.
  exists (updated_world env blocklist r data items token w).
  rewrite (fetch_update_world _ _ _ _ j r data items token w) by done.
  split; [reflexivity|]. split.
  - rewrite updateSingleBlocklist_mtime_check.
    change (blocklistFiles (cache (updated_world env blocklist r data items token w)))
      with (blocklistFiles (cache w)).
    rewrite Hfind.
    change (disk (updated_world env blocklist r data items token w))
      with (<[path blocklist := {| data := Formatted data; mtimeMs := write_mtime env |}]>
              (disk w)).
    rewrite lookup_insert_eq.
    change (lastUpdateWriteTime (cache (updated_world env blocklist r data items token w)))
      with (<[file blocklist := date_now env]> (lastUpdateWriteTime (cache w))).
    rewrite lookup_insert_eq. cbn [mtimeMs].
    rewrite bool_decide_eq_true_2 by congruence. reflexivity.
  - cbn. rewrite lookup_insert_eq. done.
Qed.

Lemma update_then_reconcile_skipped_witness :
  exists w1,
    fetchAndUpdateBlocklist coarse_clock_env remote_source
      (fun _ _ => Responded new_version_response) default_retries world_synced
    = (Ok (Some true), w1)
    /\ updateSingleBlocklist coarse_clock_env all_enabled (file remote_source) w1
       = (Ok false, w1)
    /\ disk w1 !! path remote_source
       = Some {| data := Formatted (remote_content "1.0.16" "2025-08-28T08:00:00Z"
                            [entry tth_B "bogus filename"; entry tth_A "Test file 1"]);
                 mtimeMs := write_mtime coarse_clock_env |}
    /\ blocklistTTHMap (cache w1) = blocklistTTHMap (cache world_synced)
    /\ blockedTTHSet (cache w1) = blockedTTHSet (cache world_synced).
Proof.
  apply (update_then_reconcile_skipped coarse_clock_env all_enabled remote_source
           (fun _ _ => Responded new_version_response) default_retries 0%nat
           new_version_response
           (remote_content "1.0.16" "2025-08-28T08:00:00Z"
              [entry tth_B "bogus filename"; entry tth_A "Test file 1"])
           [entry tth_B "bogus filename"; entry tth_A "Test file 1"] (JStr "1.0.16")).
  - reflexivity.
  - split; reflexivity.
  - unfold default_retries. lia.
  - intros i Hi. lia.
  - reflexivity.
  - repeat split; reflexivity.
  - set_solver.
  - reflexivity.
  - reflexivity.
Defined.

(** ** The look-up of a selected item *)



(** X19. When [addTTHFromFilelist] returns a truthy value, the host has
    served the item, the item's type is [file], the value is the item's
    [tth], and nothing was posted or changed. *)
Theorem addTTHFromFilelist_only_files env entityId itemId w tth w' :
  addTTHFromFilelist env entityId itemId w = (Ok tth, w') ->
  truthy tth = true ->
  exists item type,
    socket_get env ("filelists/" +:+ toString entityId +:+ "/items/" +:+ toString itemId)
    = Ok item
    /\ get_prop item "type" = Ok type
    /\ get_prop type "id" = Ok (JStr "file")
    /\ get_prop item "tth" = Ok tth
    /\ w' = w.
Proof.
  unfold addTTHFromFilelist. unfold bind at 1.
  match goal with
  | |- context [try_catch ?m ?h w] =>
      assert (Hpath : exists p, try_catch m h w = (Ok p, w))
  end.
  { unfold try_catch, bind, lift, ret.
    destruct (socket_get env ("filelists/" +:+ toString entityId)) as [session|]; [|eauto].
    destruct (get_prop session "location") as [location|]; [|eauto].
    destruct location; cbn; eauto. }
  destruct Hpath as [filelistPath ->].
  unfold try_catch, bind at 1, lift at 1.
  destruct (socket_get env _) as [item|] eqn:Hitem.
  2:{ unfold await_post, bind, post, modify, ret. destruct (socket_error env);
        [discriminate|]. intros [= <- <-]. discriminate. }
  unfold bind at 1, lift at 1.
  destruct (get_prop item "path") as [itemPath|] eqn:Hp.
  2:{ unfold await_post, bind, post, modify, ret. destruct (socket_error env);
        [discriminate|]. intros [= <- <-]. discriminate. }
  unfold bind at 1, lift at 1.
  destruct (get_prop item "type") as [type|] eqn:Htype.
  2:{ unfold await_post, bind, post, modify, ret. destruct (socket_error env);
        [discriminate|]. intros [= <- <-]. discriminate. }
  unfold bind at 1.
  destruct (truthy item && truthy type) eqn:Hboth.
  2:{ unfold ret at 1. unfold bind at 1, lift at 1.
      destruct (get_prop item "tth"); cbn [andb].
      - unfold ret. intros [= <- <-]. discriminate.
      - unfold await_post, bind, post, modify, ret. destruct (socket_error env);
          [discriminate|]. intros [= <- <-]. discriminate. }
  unfold lift at 1.
  destruct (get_prop type "id") as [typeId|] eqn:Hid.
  2:{ unfold await_post, bind, post, modify, ret. destruct (socket_error env);
        [discriminate|]. intros [= <- <-]. discriminate. }
  unfold bind at 1, lift at 1.
  destruct (get_prop item "tth") as [t|] eqn:Htth.
  2:{ unfold await_post, bind, post, modify, ret. destruct (socket_error env);
        [discriminate|]. intros [= <- <-]. discriminate. }
  cbn [andb].
  destruct (strict_eq typeId (JStr "directory")) eqn:Hdir.
  { unfold await_post, bind, post, modify, ret.
    destruct (socket_error env); [discriminate|]. intros [= <- <-]. discriminate. }
  destruct (strict_eq typeId (JStr "file") && truthy t) eqn:Hfile.
  - unfold ret. intros [= <- <-] _. exists item, type.
    apply andb_true_iff in Hfile as [Hfile _].
    destruct typeId; try discriminate. cbn in Hfile. apply String.eqb_eq in Hfile. subst.
    done.
  - unfold ret. intros [= <- <-]. discriminate.
Qed.

Lemma addTTHFromFilelist_only_files_witness :
  exists item type,
    socket_get browsing_env
      ("filelists/" +:+ toString (JNum 7) +:+ "/items/" +:+ toString (JNum 12)) = Ok item
    /\ get_prop item "type" = Ok type
    /\ get_prop type "id" = Ok (JStr "file")
    /\ get_prop item "tth" = Ok (JStr tth_C)
    /\ empty_world = empty_world.
Proof.
  apply (addTTHFromFilelist_only_files browsing_env (JNum 7) (JNum 12) empty_world
           (JStr tth_C) empty_world); reflexivity.
Defined.

(** ** The local editor *)

Lemma collected_same_store w0 addedTTHs w w1 :
  same_store w w1 -> collected w0 addedTTHs w -> collected w0 addedTTHs w1.
Proof.
  intros (Hc & Hd & _). unfold collected, internal_set. by rewrite Hc, Hd.
Qed.

Lemma members_snoc tths tth :
  members (tths ++ [tth])
  = members tths ++ match as_member tth with Some m => [m] | None => [] end.
Proof.
  unfold members. rewrite omap_app. cbn. by destruct (as_member tth).
Qed.

Lemma resolve_selected_collected env menuType entityId w0 selectedIds :
  forall addedTTHs w r w',
    resolve_selected env menuType entityId selectedIds addedTTHs w = (r, w') ->
    collected w0 addedTTHs w ->
    exists added,
      collected w0 added w'
      /\ match r with Ok l => l = added | Throw _ => True end.
Proof.
  induction selectedIds as [|selected rest IH]; intros addedTTHs w r w'; cbn [resolve_selected].
  { intros [= <- <-] Hcol. by exists addedTTHs. }
  unfold bind at 1.
  set (resolve := if String.eqb menuType "grouped_search_result"
                  then addTTHFromSearch env entityId selected
                  else if String.eqb menuType "filelist_item"
                       then addTTHFromFilelist env entityId selected
                       else ret JNull).
  assert (Hframe : preserves same_store resolve) by (unfold resolve; frame).
  specialize (Hframe w). destruct (resolve w) as [[tth|e] w1]; cbn [snd] in Hframe.
  2:{ intros [= <- <-] Hcol. exists addedTTHs. split; [|done].
      by apply (collected_same_store _ _ w). }
  unfold bind at 1, gets at 1.
  destruct (truthy tth && negb (set_has tth (blockedTTHSet (cache w1)))) eqn:Hnew.
  2:{ intros Hrest Hcol. apply IH in Hrest; [done|]. by apply (collected_same_store _ _ w). }
  unfold bind at 1, modify at 1. unfold bind at 1, gets at 1. unfold bind at 1, modify at 1.
  intros Hrest Hcol. apply IH in Hrest; [done|].
  apply (collected_same_store _ _ _ _ Hframe) in Hcol.
  unfold collected in Hcol. cbv zeta in Hcol.
  destruct Hcol as (Hnd & Hfresh & Hb & Hi & Ho & Hd).
  apply andb_true_iff in Hnew as [_ Hnew]. apply negb_true_iff in Hnew.
  unfold collected. cbv zeta. rewrite map_app. cbn [map]. rewrite members_snoc.
  change (tth_of (new_entry env tth)) with tth.
  unfold internal_set in *. cbn [cache with_cache blocklistTTHMap blockedTTHSet
    set_blocklistTTHMap set_blockedTTHSet disk].
  rewrite lookup_insert_eq. cbn [from_option id].
  unfold set_add, set_has in *.
  destruct (as_member tth) as [m|].
  - apply bool_decide_eq_false in Hnew.
    assert (Hm : m ∉ members (map tth_of addedTTHs)).
    { intros Hin. apply Hnew. rewrite Hb. set_solver. }
    split; [apply NoDup_app; split; [done|split; [|apply NoDup_singleton]];
            intros x Hx ->%list_elem_of_singleton; done|].
    split.
    { intros x [Hx| ->%list_elem_of_singleton]%elem_of_app; [by apply Hfresh|].
      intros Hin. apply Hnew. rewrite Hb. set_solver. }
    rewrite list_to_set_app_L. cbn [list_to_set].
    split; [rewrite Hb; set_solver|]. split; [rewrite Hi; set_solver|].
    split; [|done]. intros other Hne. rewrite lookup_insert_ne by done. by apply Ho.
  - rewrite app_nil_r. split; [done|]. split; [done|]. split; [done|]. split; [done|].
    split; [|done]. intros other Hne. rewrite lookup_insert_ne by done. by apply Ho.
Qed.

Lemma with_new_entries_listing env blocklist addedTTHs updated :
  with_new_entries env blocklist addedTTHs = Ok updated ->
  updated <> JUndefined
  /\ exists added,
       (added = map tth_of addedTTHs \/ added = [])
       /\ listed_tths updated = listed_tths blocklist ++ added.
Proof.
  intros Hnew. destruct blocklist as [| | | | |items|fields]; try discriminate.
  - injection Hnew as <-. split; [discriminate|]. exists [].
    split; [by right|by rewrite app_nil_r].
  - injection Hnew as <-. split; [discriminate|]. exists (map tth_of addedTTHs).
    split; [by left|]. unfold listed_tths; cbn [get_prop].
    rewrite assoc_set_assoc_ne by discriminate. rewrite assoc_set_assoc_eq.
    rewrite map_app. by destruct (assoc "tths" fields).
Qed.

(** Writing the new entries leaves the file alone, or replaces it by the
    text of a value that lists what a reader found there followed by the
    identifiers of the new entries (by nothing more, when the value read is
    an array). *)
Lemma write_entries_appends env addedTTHs w r w' :
  write_entries env addedTTHs w = (r, w') ->
  blockedTTHSet (cache w') = blockedTTHSet (cache w)
  /\ blocklistTTHMap (cache w') = blocklistTTHMap (cache w)
  /\ (disk w' = disk w
      \/ exists added,
           (added = map tth_of addedTTHs \/ added = [])
           /\ written_listing w' (INTERNAL_BLOCKLIST_FILE env)
                (listed_in_file env w (INTERNAL_BLOCKLIST_FILE env) ++ added)).
Proof.
  unfold write_entries.
  set (internal := INTERNAL_BLOCKLIST_FILE env).
  assert (Hwrite : forall blocklist,
    listed_tths blocklist = listed_in_file env w internal ->
    forall r w',
      (updated <- lift (with_new_entries env blocklist addedTTHs) ;;
       writeFileSync env internal updated ;;;
       modify (with_cache
                 (set_lastUpdateWriteTime <[INTERNAL_BLOCKLIST_NAME := date_now env]>)) ;;;
       await_post env
         {| severity := info;
            text := "Added " +:+ pretty (Z.of_nat (length addedTTHs))
                    +:+ " TTH(s) to internal blocklist: " +:+ join_tths addedTTHs |}) w
      = (r, w') ->
      blockedTTHSet (cache w') = blockedTTHSet (cache w)
      /\ blocklistTTHMap (cache w') = blocklistTTHMap (cache w)
      /\ (disk w' = disk w
          \/ exists added,
               (added = map tth_of addedTTHs \/ added = [])
               /\ written_listing w' internal (listed_in_file env w internal ++ added))).
  { intros blocklist Hlisted r0 w0. unfold bind at 1, lift at 1.
    destruct (with_new_entries env blocklist addedTTHs) as [updated|e] eqn:Hnew.
    2:{ intros [= <- <-]. auto. }
    destruct (with_new_entries_listing _ _ _ _ Hnew) as (Hdef & added & Hadded & Hlist).
    unfold bind at 1. rewrite (writeFileSync_defined _ _ _ _ Hdef). case_bool_decide.
    { intros [= <- <-]. auto. }
    unfold bind at 1, modify at 1, await_post, post. unfold bind, modify.
    assert (Hfinal : forall w2,
              disk w2 = <[internal := {| data := Formatted updated;
                                         mtimeMs := write_mtime env |}]> (disk w) ->
              written_listing w2 internal (listed_in_file env w internal ++ added)).
    { intros w2 Hd. exists updated, (write_mtime env).
      rewrite Hd, lookup_insert_eq, Hlist, Hlisted. done. }
    destruct (socket_error env); intros [= <- <-]; cbn [cache with_cache with_posted
      blockedTTHSet blocklistTTHMap set_lastUpdateWriteTime];
      (split; [done|]); (split; [done|]); right; exists added;
      (split; [done|]); apply Hfinal; reflexivity. }
  unfold bind at 1, existsSync, gets at 1.
  destruct (disk w !! internal) as [node|] eqn:Hnode.
  - rewrite bool_decide_eq_true_2 by eauto.
    unfold bind at 1. unfold bind at 1, readFileSync at 1. rewrite Hnode.
    assert (Hread : listed_in_file env w internal
                    = match parsed env (data node) with Ok j => listed_tths j | Throw _ => [] end).
    { unfold listed_in_file. by rewrite Hnode. }
    destruct (data node) as [|err|j|j] eqn:Hdata.
    + unfold ret at 1. apply Hwrite. by rewrite Hread.
    + unfold JSON_parse, lift at 1; cbn [parsed]. intros [= <- <-]. auto.
    + unfold JSON_parse, lift at 1; cbn [parsed]. apply Hwrite. by rewrite Hread.
    + unfold JSON_parse, lift at 1. destruct (parsed env (Formatted j)) as [j'|e] eqn:Hp.
      * apply Hwrite. by rewrite Hread.
      * intros [= <- <-]. auto.
  - rewrite bool_decide_eq_false_2 by (intros [? ?]; discriminate).
    unfold bind at 1, ret at 1. apply Hwrite.
    unfold listed_in_file. by rewrite Hnode.
Qed.

(** What [addToBlocklist] has done when it returns or throws: the loop has
    collected some entries, and the file is as before or lists the
    identifiers of these entries after what it listed. *)
Lemma addToBlocklist_collected env settings selectedIds entityId menuType w :
  exists addedTTHs added,
    collected w addedTTHs
      (with_disk (fun _ => disk w)
         (snd (addToBlocklist env settings selectedIds entityId menuType w)))
    /\ (added = map tth_of addedTTHs \/ added = [])
    /\ (disk (snd (addToBlocklist env settings selectedIds entityId menuType w)) = disk w
        \/ written_listing (snd (addToBlocklist env settings selectedIds entityId menuType w))
             (INTERNAL_BLOCKLIST_FILE env)
             (listed_in_file env w (INTERNAL_BLOCKLIST_FILE env) ++ added)).
Proof.
  set (internal := INTERNAL_BLOCKLIST_FILE env).
  assert (Hstart : collected w [] w).
  { unfold collected. cbn. split; [constructor|]. split; [by intros m ?%elem_of_nil|].
    repeat split; set_solver. }
  assert (Hquiet : forall addedTTHs w0 w1,
            same_store w0 w1 -> disk w0 = disk w -> collected w addedTTHs w0 ->
            exists addedTTHs' added,
              collected w addedTTHs' (with_disk (fun _ => disk w) w1)
              /\ (added = map tth_of addedTTHs' \/ added = [])
              /\ (disk w1 = disk w
                  \/ written_listing w1 internal (listed_in_file env w internal ++ added))).
  { intros addedTTHs w0 w1 Hs Hd Hcol. exists addedTTHs, []. split; [|split; [by right|left]].
    - apply (collected_same_store _ _ w0); [|done].
      destruct Hs as (Hc & Hd1 & Hr). repeat split; cbn; congruence.
    - destruct Hs as (_ & -> & _). done. }
  destruct (addToBlocklist env settings selectedIds entityId menuType w) as [r w'] eqn:Hrun.
  cbn [snd]. revert Hrun. unfold addToBlocklist.
  destruct (settings_invalid settings).
  { intros Hrun. apply (Hquiet [] w); [|done|done].
    match type of Hrun with
    | await_post ?env ?e ?w0 = _ =>
        pose proof (await_post_same_store env e w0) as Hs; by rewrite Hrun in Hs
    end. }
  unfold bind at 1, lift at 1.
  destruct (settings_getValue settings "internal_block_list") as [enabled|e].
  2:{ intros [= <- <-]. apply (Hquiet [] w); [reflexivity|done|done]. }
  destruct (negb (truthy enabled)).
  { intros Hrun. apply (Hquiet [] w); [|done|done].
    match type of Hrun with
    | await_post ?env ?e ?w0 = _ =>
        pose proof (await_post_same_store env e w0) as Hs; by rewrite Hrun in Hs
    end. }
  unfold bind at 1.
  destruct (resolve_selected env menuType entityId selectedIds [] w) as [[l|e] w1] eqn:Hres;
    apply (resolve_selected_collected _ _ _ w) in Hres as (addedTTHs & Hcol & Hl); try done.
  2:{ intros [= <- <-]. apply (Hquiet addedTTHs w1); [reflexivity| |done].
      by destruct Hcol as (_ & _ & _ & _ & _ & ?). }
  subst l.
  assert (Hd1 : disk w1 = disk w) by (by destruct Hcol as (_ & _ & _ & _ & _ & ?)).
  destruct (0 <? length addedTTHs)%nat.
  2:{ intros Hrun. apply (Hquiet addedTTHs w1); [|done|done].
      match type of Hrun with
      | await_post ?env ?e ?w0 = _ =>
          pose proof (await_post_same_store env e w0) as Hs; by rewrite Hrun in Hs
      end. }
  unfold try_catch.
  destruct (write_entries env addedTTHs w1) as [[u|e] w2] eqn:Hwrite;
    apply write_entries_appends in Hwrite as (Hb2 & Hm2 & Hl2).
  - intros [= <- <-].
    assert (Hcol2 : collected w addedTTHs (with_disk (fun _ => disk w) w2)).
    { unfold collected, internal_set in *. cbn. rewrite Hb2, Hm2.
      destruct Hcol as (? & ? & ? & ? & ? & ?). repeat split; done. }
    destruct Hl2 as [Hl2|(added & Hadded & Hl2)].
    + exists addedTTHs, []. split; [done|]. split; [by right|left; congruence].
    + exists addedTTHs, added. split; [done|]. split; [done|right].
      unfold listed_in_file in Hl2 |- *. by rewrite Hd1 in Hl2.
  - intros Hrun.
    assert (Hs : same_store w2 w').
    { match type of Hrun with
      | await_post ?env ?e ?w0 = _ =>
          pose proof (await_post_same_store env e w0) as Hs; by rewrite Hrun in Hs
      end. }
    assert (Hcol2 : collected w addedTTHs (with_disk (fun _ => disk w) w')).
    { destruct Hs as (Hc & _ & _).
      unfold collected, internal_set in *. cbn. rewrite Hc, Hb2, Hm2.
      destruct Hcol as (? & ? & ? & ? & ? & ?). repeat split; done. }
    destruct Hs as (_ & Hd & _).
    destruct Hl2 as [Hl2|(added & Hadded & Hl2)].
    + exists addedTTHs, []. split; [done|]. split; [by right|left; congruence].
    + exists addedTTHs, added. split; [done|]. split; [done|right].
      apply (written_listing_disk w2); [done|].
      unfold listed_in_file in Hl2 |- *. by rewrite Hd1 in Hl2.
Qed.

(** X20. Whatever [addToBlocklist] does, and whether it returns or throws,
    it adds one and the same set of identifiers, none of them blocked
    before, to the aggregate set and to the set of the internal blocklist;
    the sets of the other sources are not touched. *)
Theorem addToBlocklist_grows env settings selectedIds entityId menuType w :
  let w' := snd (addToBlocklist env settings selectedIds entityId menuType w) in
  exists new : gset member,
    new ## blockedTTHSet (cache w)
    /\ blockedTTHSet (cache w') = blockedTTHSet (cache w) ∪ new
    /\ internal_set w' = internal_set w ∪ new
    /\ forall other, other <> INTERNAL_BLOCKLIST_NAME ->
         blocklistTTHMap (cache w') !! other = blocklistTTHMap (cache w) !! other.
Proof.
  cbn zeta.
  destruct (addToBlocklist_collected env settings selectedIds entityId menuType w)
    as (addedTTHs & _ & (Hnd & Hfresh & Hb & Hi & Ho & _) & _).
  exists (list_to_set (members (map tth_of addedTTHs))).
  split; [|by repeat split].
  intros m Hm%elem_of_list_to_set Hin. by apply (Hfresh m).
Qed.

(** X21. [addToBlocklist] leaves the disk alone, or writes the internal
    blocklist: the file then lists what a reader found listed before,
    followed by new entries whose primitive identifiers are pairwise
    distinct and all belong to the aggregate set and to the set of the
    internal blocklist afterwards. *)
Theorem addToBlocklist_appended env settings selectedIds entityId menuType w :
  let w' := snd (addToBlocklist env settings selectedIds entityId menuType w) in
  disk w' = disk w
  \/ exists added,
       written_listing w' (INTERNAL_BLOCKLIST_FILE env)
         (listed_in_file env w (INTERNAL_BLOCKLIST_FILE env) ++ added)
       /\ NoDup (members added)
       /\ forall m, m ∈ members added ->
            m ∈ blockedTTHSet (cache w') /\ m ∈ internal_set w'.
Proof.
  cbn zeta.
  destruct (addToBlocklist_collected env settings selectedIds entityId menuType w)
    as (addedTTHs & added & (Hnd & Hfresh & Hb & Hi & _) & Hadded & [Hd|Hw]); [by left|].
  right. exists added. split; [done|].
  destruct Hadded as [-> | ->].
  - split; [done|]. intros m Hm. cbn in Hb. unfold internal_set in Hi |- *. cbn in Hi.
    rewrite Hb, Hi. set_solver.
  - split; [constructor|]. by intros m ?%elem_of_nil.
Qed.

(** ** The effects of the admission hook *)

(** X22. [queueBundleFileAddHook] always reaches a decision, and changes
    neither the cache nor the disk. A rejection posts exactly one warning,
    with the host connected; an acceptance posts nothing, unless the host
    connection is down and the warning of a blocked file could not be
    delivered. *)
Theorem queueBundleFileAddHook_effects env settings data w :
  exists decision w',
    queueBundleFileAddHook env settings data w = (Ok decision, w')
    /\ cache w' = cache w
    /\ disk w' = disk w
    /\ match decision with
       | Reject _ _ =>
           socket_error env = None
           /\ exists text, posted w' = posted w ++ [{| severity := warning; text := text |}]
       | Accept =>
           posted w' = posted w
           \/ (socket_error env <> None
               /\ exists text,
                    posted w' = posted w ++ [{| severity := warning; text := text |}])
       end.
Proof.
  unfold queueBundleFileAddHook, queueBundleFileAddHook_try, try_catch, bind, lift, gets,
    await_post, post, modify, ret, throw.
  destruct (get_prop data "file_data") as [fd|]; [|by exists Accept, w; auto].
  destruct (get_prop (js_or fd (JObj [])) "name") as [name|]; [|by exists Accept, w; auto].
  destruct (get_prop (js_or fd (JObj [])) "tth") as [tth|]; [|by exists Accept, w; auto].
  destruct (settings_invalid settings); [by exists Accept, w; auto|].
  destruct (truthy tth && set_has tth (blockedTTHSet (cache w)));
    [|by exists Accept, w; auto].
  destruct (socket_error env) eqn:Hsock; cbn.
  - eexists Accept, _. split; [reflexivity|]. split; [done|]. split; [done|].
    right. split; [done|]. eauto.
  - eexists (Reject _ _), _. split; [reflexivity|]. split; [done|]. split; [done|].
    split; [done|]. eauto.
Qed.
